(** * shis/utils.py: the server bootstrap of the gallery publisher

    A shallow embedding of the server utilities of [shis/utils.py]
    (CustomHTTPHandler, start_server, get_public_ip, start_httpd,
    start_server_36, start_server_38) and the properties of the
    specification that concern them.

    Conventions.
    - Python [int] is [Z]; Python [str] is [string], held in its UTF-8
      encoding (the separator and the dot of a path are single bytes that
      occur in no multi-byte sequence); [bytes] is [list Byte.byte].
    - A Python call that may raise is a computation in the monad [M]: it
      takes the state of the process (file system, standard output, the
      trace of system interactions) and yields [Return v] or [Raise e]
      together with the new state.
    - What the operating system and the network answer is not decided by
      the program: it is a parameter [world] of every definition that
      talks to them. *)

From Stdlib Require Import ZArith String Ascii List Lia DecimalString.
From Stdlib Require Import DecimalPos DecimalZ.
From stdpp Require Import gmap strings list.
From Equations Require Import Equations.

Open Scope string_scope.
Open Scope Z_scope.

(** String concatenation computes under [simpl], as it does for lists. *)
#[local] Arguments String.append !s1 s2 : simpl nomatch.

(** ** Exceptions *)

(** The exception classes that utils.py and the library calls it makes
    can meet, with Python's class hierarchy. *)
Inductive pyclass :=
| BaseException | SystemExit | Exception
| NameError | ValueError | UnicodeError | UnicodeDecodeError
| ArithmeticError | OverflowError
| OSError | ConnectionError | ConnectionResetError | BrokenPipeError
| ConnectionAbortedError | FileExistsError | FileNotFoundError
| IsADirectoryError | NotADirectoryError | PermissionError
| socket_timeout | socket_gaierror | URLError | HTTPError | HTTPException.

#[global] Instance pyclass_eq_dec : EqDecision pyclass.
Proof. solve_decision. Defined.

(** The direct base class ([__bases__]); [BaseException] has none here. *)
Definition base (c : pyclass) : option pyclass :=
  match c with
  | BaseException => None
  | SystemExit => Some BaseException
  | Exception => Some BaseException
  | NameError | ValueError | ArithmeticError | OSError | HTTPException =>
      Some Exception
  | UnicodeError => Some ValueError
  | UnicodeDecodeError => Some UnicodeError
  | OverflowError => Some ArithmeticError
  | ConnectionError | FileExistsError | FileNotFoundError
  | IsADirectoryError | NotADirectoryError | PermissionError
  | socket_timeout | socket_gaierror | URLError => Some OSError
  | ConnectionResetError | BrokenPipeError | ConnectionAbortedError =>
      Some ConnectionError
  | HTTPError => Some URLError
  end.

(** The method resolution order of [c], cut at [n] steps (the hierarchy
    above is five deep). *)
Fixpoint mro (n : nat) (c : pyclass) : list pyclass :=
  c :: match n with
       | O => []
       | S n' => match base c with
                 | Some b => mro n' b
                 | None => []
                 end
       end.

Definition issubclass (c d : pyclass) : bool := bool_decide (d ∈ mro 8 c).

(** An exception object: its class, [str(e)], and for [SystemExit] the
    [code] attribute. *)
Record exception := Exc {
  cls : pyclass;
  str : string;
  code : option Z
}.

#[global] Instance exception_eq_dec : EqDecision exception.
Proof. solve_decision. Defined.

Definition isinstance (e : exception) (c : pyclass) : bool :=
  issubclass (cls e) c.

(** [str(n)] for an [int]. *)
Definition str_int (n : Z) : string := NilZero.string_of_int (Z.to_int n).

(** [OSError(errno, strerror)], as the socket layer raises it:
    [str] is ["[Errno n] strerror"]. *)
Definition os_error (c : pyclass) (errno : Z) (strerror : string) : exception :=
  {| cls := c;
     str := "[Errno " +:+ str_int errno +:+ "] " +:+ strerror;
     code := None |}.

(** [EADDRINUSE] on Linux. *)
Definition EADDRINUSE : Z := 98.
Definition address_in_use : exception :=
  os_error OSError EADDRINUSE "Address already in use".

(** [EADDRINUSE] on macOS and the BSDs is 48. *)
Definition address_in_use_bsd : exception :=
  os_error OSError 48 "Address already in use".

Definition permission_denied : exception :=
  os_error PermissionError 13 "Permission denied".

(** The exit status of the interpreter when [SystemExit] reaches the top
    level: [code] [None] is 0, an integer is itself. *)
Definition exit_status (e : exception) : Z :=
  match code e with
  | None => 0
  | Some n => n
  end.

(** ** Computations *)

Inductive outcome (A : Type) :=
| Return (a : A)
| Raise (e : exception).
Arguments Return {A} a.
Arguments Raise {A} e.

(** A socket address: host and port. *)
Definition address : Type := string * Z.

(** The interactions of the process with its surroundings, in order. *)
Inductive event :=
| EvMakedirs (path : string)
| EvWrite (path : string) (content : string)
| EvSetsockopt (level optname : string) (value : Z)
| EvBind (a : address)
| EvThreadStart (a : address)
| EvUrlopen (url : string) (timeout : Z).

#[global] Instance event_eq_dec : EqDecision event.
Proof. solve_decision. Defined.

(** The file system: a tree of directories and regular files. *)
#[warning="-register-all"]
Inductive node :=
| File (content : string)
| Dir (entries : gmap string node).

Record state := State {
  fs : node;
  stdout : list string;
  trace : list event
}.

Definition M (A : Type) : Type := state → outcome A * state.

Definition ret {A} (a : A) : M A := λ st, (Return a, st).
Definition raise {A} (e : exception) : M A := λ st, (Raise e, st).
Definition bind {A B} (m : M A) (k : A → M B) : M B :=
  λ st, match m st with
        | (Return a, st') => k a st'
        | (Raise e, st') => (Raise e, st')
        end.

Notation "x <- m ;; k" := (bind m (λ x, k))
  (at level 100, m at next level, right associativity).
Notation "m ;;; k" := (bind m (λ _, k))
  (at level 100, right associativity).

(** [try: body except C: handler]: the handler runs when the body raises
    an instance of [C], on the state the body left. *)
Definition try_except {A} (body : M A) (C : list pyclass)
    (handler : exception → M A) : M A :=
  λ st, match body st with
        | (Return a, st') => (Return a, st')
        | (Raise e, st') =>
            if existsb (isinstance e) C then handler e st'
            else (Raise e, st')
        end.

Definition emit (ev : event) : M unit :=
  λ st, (Return tt, {| fs := fs st; stdout := stdout st;
                       trace := trace st ++ [ev] |}).

(** [print(line)]. *)
Definition print (line : string) : M unit :=
  λ st, (Return tt, {| fs := fs st; stdout := stdout st ++ [line];
                       trace := trace st |}).

(** [sys.exit()]: raises [SystemExit] with [code] [None]. *)
Definition sys_exit {A} : M A :=
  raise {| cls := SystemExit; str := EmptyString; code := None |}.

(** ** Servers *)

(** [argparse.Namespace]: the two options the server reads. *)
Record Namespace := {
  port : option Z;
  thumb_dir : string
}.

(** A request handler class; [handler_directory] is the [directory]
    keyword bound with [partial], when there is one. *)
Record handler_class := {
  handler_directory : option string
}.

(** A constructed server: its socket, which is the address it is bound
    to, its handler class, and its [directory] attribute when the class
    sets one. *)
Record HTTPServer := {
  socket : address;
  RequestHandlerClass : handler_class;
  directory : option string
}.

(** A server class is called with an address and a handler class; the
    constructor binds and listens, and raises what the socket raises. *)
Definition server_class : Type := address → handler_class → M HTTPServer.

(** The message of the only error [start_httpd] recognises. *)
Definition in_use_message : string := "[Errno 98] Address already in use".

(** [start_httpd(server, address, handler, args)].  The recursion is the
    source's; it is well founded because the port only grows and no
    retry starts above 7500. *)
Equations? start_httpd (server : server_class) (addr : address)
    (handler : handler_class) (args : Namespace) (st : state)
    : outcome HTTPServer * state
    by wf (Z.to_nat (7501 - addr.2)) lt :=
  start_httpd server addr handler args st with server addr handler st := {
    | (Return httpd, st1) => (Return httpd, st1)
    | (Raise error, st1) with isinstance error OSError := {
      | false => (Raise error, st1)
      | true with String.eqb (str error) in_use_message := {
        | false => (Raise error, st1)
        | true with port args, Z_gt_le_dec addr.2 7500 := {
          | None, right _ =>
              start_httpd server (addr.1, addr.2 + 1) handler args st1
          | _, _ =>
              (print ("OSError: " +:+ str error +:+
                      ". Try a different port using the -p flag.") ;;;
               sys_exit) st1 } } } }.
Proof. simpl. lia. Qed.

(** ** The surroundings *)

(** The answer to [urlopen]: [r.read()] and [r.getcode()]. *)
Record response := {
  read : outcome (list Byte.byte);
  getcode : Z
}.

(** What the operating system and the network answer.  Every port is
    bound at most once in a negotiation and the two URLs that are opened
    differ, so functions of the argument lose nothing. *)
Record world := {
  (** [socket.bind] and [listen] on an address: the error raised, if any *)
  sock_bind : address → option exception;
  (** [socket.getsockname()] of a socket bound to an address *)
  getsockname : address → address;
  (** the host of the first [getaddrinfo(None, port, ...)] answer *)
  best_family_host : string;
  (** [urllib.request.urlopen(url, timeout=...)] *)
  urlopen_answer : string → outcome response;
  (** [os.getcwd()] *)
  getcwd : string;
  (** [sys.version_info.minor] *)
  version_minor : Z
}.

(** *** Names in scope in [DualStackServer.server_bind] *)

(** The names bound at the top level of utils.py: its imports, functions
    and classes. *)
Definition module_globals : list string :=
  [ "os"; "sys"; "argparse"; "urllib"; "partial"; "HTTPServer";
    "SimpleHTTPRequestHandler"; "Thread"; "Generator"; "List"; "Tuple";
    "tqdm"; "chunks"; "rreplace"; "urlify"; "filter_image"; "find_thumb";
    "scale_dims"; "fixed_width_formatter"; "CustomHTTPHandler";
    "start_server"; "get_public_ip"; "start_httpd"; "start_server_36";
    "start_server_38";
    "__name__"; "__doc__"; "__package__"; "__loader__"; "__spec__";
    "__file__"; "__cached__"; "__builtins__" ].

(** The names bound in the body of [start_server_38]. *)
Definition start_server_38_locals : list string :=
  [ "args"; "contextlib"; "ThreadingHTTPServer"; "_get_best_family";
    "DualStackServer"; "handler_class"; "server_class"; "server_address";
    "httpd"; "host"; "port" ].

(** The names bound in [server_bind]. *)
Definition server_bind_locals : list string := [ "self"; "__class__" ].

(** Python's built-in functions, constants and exception classes. *)
Definition builtins : list string :=
  [ "abs"; "all"; "any"; "ascii"; "bin"; "bool"; "breakpoint";
    "bytearray"; "bytes"; "callable"; "chr"; "classmethod"; "compile";
    "complex"; "copyright"; "credits"; "delattr"; "dict"; "dir"; "divmod";
    "enumerate"; "eval"; "exec"; "exit"; "filter"; "float"; "format";
    "frozenset"; "getattr"; "globals"; "hasattr"; "hash"; "help"; "hex";
    "id"; "input"; "int"; "isinstance"; "issubclass"; "iter"; "len";
    "license"; "list"; "locals"; "map"; "max"; "memoryview"; "min";
    "next"; "object"; "oct"; "open"; "ord"; "pow"; "print"; "property";
    "quit"; "range"; "repr"; "reversed"; "round"; "set"; "setattr";
    "slice"; "sorted"; "staticmethod"; "str"; "sum"; "super"; "tuple";
    "type"; "vars"; "zip"; "__import__"; "__build_class__"; "__debug__";
    "None"; "True"; "False"; "Ellipsis"; "NotImplemented";
    "BaseException"; "Exception"; "ArithmeticError"; "AssertionError";
    "AttributeError"; "BlockingIOError"; "BrokenPipeError"; "BufferError";
    "BytesWarning"; "ChildProcessError"; "ConnectionAbortedError";
    "ConnectionError"; "ConnectionRefusedError"; "ConnectionResetError";
    "DeprecationWarning"; "EOFError"; "EnvironmentError";
    "FileExistsError"; "FileNotFoundError"; "FloatingPointError";
    "FutureWarning"; "GeneratorExit"; "IOError"; "ImportError";
    "ImportWarning"; "IndentationError"; "IndexError";
    "InterruptedError"; "IsADirectoryError"; "KeyError";
    "KeyboardInterrupt"; "LookupError"; "MemoryError";
    "ModuleNotFoundError"; "NameError"; "NotADirectoryError";
    "NotImplementedError"; "OSError"; "OverflowError";
    "PendingDeprecationWarning"; "PermissionError"; "ProcessLookupError";
    "RecursionError"; "ReferenceError"; "ResourceWarning";
    "RuntimeError"; "RuntimeWarning"; "StopAsyncIteration";
    "StopIteration"; "SyntaxError"; "SyntaxWarning"; "SystemError";
    "SystemExit"; "TabError"; "TimeoutError"; "TypeError";
    "UnboundLocalError"; "UnicodeDecodeError"; "UnicodeEncodeError";
    "UnicodeError"; "UnicodeTranslateError"; "UnicodeWarning";
    "UserWarning"; "ValueError"; "Warning"; "ZeroDivisionError" ].

Definition bound_in (scope : list string) (name : string) : bool :=
  existsb (String.eqb name) scope.

(** Loading a name: the scopes are searched from the innermost out; a
    name bound in none of them raises [NameError]. *)
Definition load_name (scopes : list (list string)) (name : string) : M unit :=
  if existsb (λ scope, bound_in scope name) scopes then ret tt
  else raise {| cls := NameError;
                str := "name '" +:+ name +:+ "' is not defined";
                code := None |}.

(** The scopes of the body of [DualStackServer.server_bind]. *)
Definition server_bind_scopes : list (list string) :=
  [ server_bind_locals; start_server_38_locals; module_globals; builtins ].

(** [with contextlib.suppress(C): body]. *)
Definition suppress (C : list pyclass) (body : M unit) : M unit :=
  try_except body C (λ _, ret tt).

(** *** Server classes *)

(** [HTTPServer.server_bind]: bind the socket to the address. *)
Definition HTTPServer_server_bind (w : world) (addr : address) : M unit :=
  emit (EvBind addr) ;;;
  match sock_bind w addr with
  | None => ret tt
  | Some error => raise error
  end.

(** [self.socket.setsockopt(socket.IPPROTO_IPV6, socket.IPV6_V6ONLY, 0)]:
    the callee is evaluated first, then the arguments from the left, then
    the call is made. *)
Definition setsockopt_v6only_off : M unit :=
  load_name server_bind_scopes "self" ;;;
  load_name server_bind_scopes "socket" ;;;
  load_name server_bind_scopes "socket" ;;;
  emit (EvSetsockopt "IPPROTO_IPV6" "IPV6_V6ONLY" 0).

(** [DualStackServer.server_bind]. *)
Definition DualStackServer_server_bind (w : world) (addr : address) : M unit :=
  suppress [Exception] setsockopt_v6only_off ;;;
  HTTPServer_server_bind w addr.

(** [TCPServer.__init__]: the constructor calls [server_bind]; what it
    raises leaves the constructor. *)
Definition TCPServer_init (server_bind : address → M unit)
    (dir : option string) : server_class :=
  λ addr handler,
    server_bind addr ;;;
    ret {| socket := addr; RequestHandlerClass := handler;
           directory := dir |}.

(** [partial(ThreadingHTTPServer, directory=args.thumb_dir)] of
    [start_server_36]: [CustomHTTPServer.__init__] sets [self.directory]
    and calls [HTTPServer.__init__]. *)
Definition ThreadingHTTPServer_36 (w : world) (thumb : string) : server_class :=
  TCPServer_init (HTTPServer_server_bind w) (Some thumb).

(** [DualStackServer] of [start_server_38]: no [directory] attribute. *)
Definition DualStackServer (w : world) : server_class :=
  TCPServer_init (DualStackServer_server_bind w) None.

(** ** get_public_ip *)

(** Well-formed UTF-8, as [bytes.decode('utf-8')] (strict) requires. *)
Definition in_range (lo hi : N) (b : Byte.byte) : bool :=
  let n := Byte.to_N b in ((lo <=? n) && (n <=? hi))%N.

Definition cont : Byte.byte → bool := in_range 128 191.

Fixpoint utf8_valid (bs : list Byte.byte) : bool :=
  match bs with
  | [] => true
  | b0 :: rest0 =>
      if in_range 0 127 b0 then utf8_valid rest0
      else match rest0 with
      | [] => false
      | b1 :: rest1 =>
          if in_range 194 223 b0 then cont b1 && utf8_valid rest1
          else match rest1 with
          | [] => false
          | b2 :: rest2 =>
              if in_range 224 224 b0 then
                in_range 160 191 b1 && cont b2 && utf8_valid rest2
              else if in_range 225 236 b0 || in_range 238 239 b0 then
                cont b1 && cont b2 && utf8_valid rest2
              else if in_range 237 237 b0 then
                in_range 128 159 b1 && cont b2 && utf8_valid rest2
              else match rest2 with
              | [] => false
              | b3 :: rest3 =>
                  if in_range 240 240 b0 then
                    in_range 144 191 b1 && cont b2 && cont b3
                    && utf8_valid rest3
                  else if in_range 241 243 b0 then
                    cont b1 && cont b2 && cont b3 && utf8_valid rest3
                  else if in_range 244 244 b0 then
                    in_range 128 143 b1 && cont b2 && cont b3
                    && utf8_valid rest3
                  else false
              end
          end
      end
  end.

(** [raw.decode('utf-8')]. *)
Definition decode_utf8 (raw : list Byte.byte) : M string :=
  if utf8_valid raw then ret (string_of_list_byte raw)
  else raise {| cls := UnicodeDecodeError;
                str := "'utf-8' codec can't decode bytes";
                code := None |}.

(** [urllib.request.urlopen(url, timeout=t)]. *)
Definition urlopen (w : world) (url : string) (timeout : Z) : M response :=
  emit (EvUrlopen url timeout) ;;;
  match urlopen_answer w url with
  | Return r => ret r
  | Raise e => raise e
  end.

(** [r.read()]. *)
Definition response_read (r : response) : M (list Byte.byte) :=
  match read r with
  | Return raw => ret raw
  | Raise e => raise e
  end.

Definition ipify_url : string := "https://api.ipify.org".

(** [get_public_ip(host, port)].  The [try] block computes the new value
    of [host]; the handler for [URLError] keeps the old one. *)
Definition get_public_ip (w : world) (host : string) (port : Z)
    : M (string * Z) :=
  host' <- try_except
             (r <- urlopen w ipify_url 5 ;;
              raw <- response_read r ;;
              public_host <- decode_utf8 raw ;;
              let shis_server_url :=
                "http://" +:+ public_host +:+ ":" +:+ str_int port +:+ "/" in
              r2 <- urlopen w shis_server_url 5 ;;
              let status := getcode r2 in
              if Z.eqb status 200 then ret public_host else ret host)
             [URLError]
             (λ _, ret host) ;;
  ret (host', port).

(** ** Paths: [str] methods and [posixpath] *)

Definition is_sep (c : ascii) : bool := Ascii.eqb c "/"%char.

(** [s.split('/')]. *)
Fixpoint split (s : string) : list string :=
  match s with
  | EmptyString => [EmptyString]
  | String c s' =>
      if is_sep c then EmptyString :: split s'
      else match split s' with
           | [] => [String c EmptyString]
           | w :: ws => String c w :: ws
           end
  end.

(** ['/'.join(ws)]. *)
Fixpoint join_sep (ws : list string) : string :=
  match ws with
  | [] => EmptyString
  | w :: ws' =>
      match ws' with
      | [] => w
      | _ :: _ => w +:+ "/" +:+ join_sep ws'
      end
  end.

(** [s.startswith('/')], [s.endswith('/')]. *)
Definition startswith_sep (s : string) : bool :=
  match s with
  | String c _ => is_sep c
  | EmptyString => false
  end.

Fixpoint endswith_sep (s : string) : bool :=
  match s with
  | EmptyString => false
  | String c s' =>
      match s' with
      | EmptyString => is_sep c
      | String _ _ => endswith_sep s'
      end
  end.

Definition is_empty (s : string) : bool :=
  match s with
  | EmptyString => true
  | String _ _ => false
  end.

(** [s.split(c, 1)[0]]: what precedes the first [c]. *)
Fixpoint before (c : ascii) (s : string) : string :=
  match s with
  | EmptyString => EmptyString
  | String d s' => if Ascii.eqb d c then EmptyString else String d (before c s')
  end.

(** [str.isspace] on the ASCII range. *)
Definition is_space (c : ascii) : bool :=
  let n := nat_of_ascii c in
  ((9 <=? n) && (n <=? 13) || (28 <=? n) && (n <=? 32))%nat.

(** [s.rstrip()]. *)
Fixpoint rstrip (s : string) : string :=
  match s with
  | EmptyString => EmptyString
  | String c s' =>
      let r := rstrip s' in
      if is_empty r && is_space c then EmptyString else String c r
  end.

(** [s.rstrip('/')]. *)
Fixpoint rstrip_sep (s : string) : string :=
  match s with
  | EmptyString => EmptyString
  | String c s' =>
      let r := rstrip_sep s' in
      if is_empty r && is_sep c then EmptyString else String c r
  end.

Module posixpath.

Definition curdir : string := ".".
Definition pardir : string := "..".

Definition isabs (s : string) : bool := startswith_sep s.

(** One round of the loop of [join]. *)
Definition join2 (path b : string) : string :=
  if startswith_sep b then b
  else if is_empty path || endswith_sep path then path +:+ b
  else path +:+ "/" +:+ b.

Definition join (a : string) (p : list string) : string :=
  fold_left join2 p a.

(** [initial_slashes] of [normpath]: 0, 1, or 2 for exactly two. *)
Definition initial_slashes (path : string) : nat :=
  match path with
  | String c0 rest0 =>
      if is_sep c0 then
        match rest0 with
        | String c1 rest1 =>
            if is_sep c1 then
              match rest1 with
              | String c2 _ => if is_sep c2 then 1%nat else 2%nat
              | EmptyString => 2%nat
              end
            else 1%nat
        | EmptyString => 1%nat
        end
      else 0%nat
  | EmptyString => 0%nat
  end.

(** One round of the loop of [normpath] over the components. *)
Definition norm_step (absolute : bool) (new_comps : list string)
    (comp : string) : list string :=
  if is_empty comp || String.eqb comp curdir then new_comps
  else if negb (String.eqb comp pardir)
          || (negb absolute && bool_decide (new_comps = []))
          || match last new_comps with
             | Some c => String.eqb c pardir
             | None => false
             end
       then new_comps ++ [comp]
       else removelast new_comps.

(** The components [normpath] keeps. *)
Definition norm_comps (path : string) : list string :=
  fold_left (norm_step (isabs path)) (split path) [].

Definition slashes (n : nat) : string :=
  match n with
  | O => EmptyString
  | S O => "/"
  | _ => "//"
  end.

Definition normpath (path : string) : string :=
  if is_empty path then curdir
  else
    let p := slashes (initial_slashes path) +:+ join_sep (norm_comps path) in
    if is_empty p then curdir else p.

(** [abspath(path)] in the working directory [cwd]. *)
Definition abspath (cwd path : string) : string :=
  normpath (if isabs path then path else join cwd [path]).

(** [dirname(p)]: the head up to the last separator, without its
    trailing separators unless it is all separators. *)
Fixpoint head_part (p : string) : string :=
  match p with
  | EmptyString => EmptyString
  | String c p' =>
      let h := head_part p' in
      if negb (is_empty h) then String c h
      else if is_sep c then "/" else EmptyString
  end.

Definition dirname (p : string) : string :=
  let head := head_part p in
  if negb (is_empty head) && negb (is_empty (rstrip_sep head))
  then rstrip_sep head else head.

(** [genericpath.commonprefix] of two component lists. *)
Fixpoint commonprefix (l1 l2 : list string) : list string :=
  match l1, l2 with
  | a :: l1', b :: l2' =>
      if String.eqb a b then a :: commonprefix l1' l2' else []
  | _, _ => []
  end.

Definition nonempty_parts (s : string) : list string :=
  filter (λ x, negb (is_empty x) = true) (split s).

(** [relpath(path, start)] in the working directory [cwd]. *)
Definition relpath (cwd path start : string) : M string :=
  if is_empty path then
    raise {| cls := ValueError; str := "no path specified"; code := None |}
  else
    let start_list := nonempty_parts (abspath cwd start) in
    let path_list := nonempty_parts (abspath cwd path) in
    let i := length (commonprefix start_list path_list) in
    let rel_list :=
      (repeat pardir (length start_list - i) ++ drop i path_list)%list in
    match rel_list with
    | [] => ret curdir
    | a :: p => ret (join a p)
    end.

End posixpath.

(** ** urllib.parse.unquote *)

Definition hex_digit (c : ascii) : option N :=
  let n := N_of_ascii c in
  if ((48 <=? n) && (n <=? 57))%N then Some (n - 48)%N
  else if ((65 <=? n) && (n <=? 70))%N then Some (n - 55)%N
  else if ((97 <=? n) && (n <=? 102))%N then Some (n - 87)%N
  else None.

(** [urllib.parse.unquote] on the UTF-8 encoding of the string: an
    escape of two hexadecimal digits becomes the byte, anything else is
    kept.  (The library replaces escaped bytes that are not UTF-8 by
    U+FFFD; the properties below hold for every function in the place of
    [unquote].) *)
Fixpoint unquote (s : string) : string :=
  match s with
  | EmptyString => EmptyString
  | String c s' =>
      if Ascii.eqb c "%"%char then
        match s' with
        | String a (String b rest) =>
            match hex_digit a, hex_digit b with
            | Some x, Some y => String (ascii_of_N (16 * x + y)) (unquote rest)
            | _, _ => String c (unquote s')
            end
        | _ => String c (unquote s')
        end
      else String c (unquote s')
  end.

(** ** CustomHTTPHandler *)

(** The words of a request path that the library keeps: the path loses
    its query and fragment, is unquoted and normalised, and of its
    components those that are empty, that contain a separator or that
    are [.] or [..] are dropped. *)
Definition kept (word : string) : bool :=
  negb (negb (is_empty (posixpath.dirname word))
        || String.eqb word posixpath.curdir
        || String.eqb word posixpath.pardir).

Definition request_words (unquote : string → string) (path : string)
    : list string :=
  let path := before "#" (before "?" path) in
  let path := posixpath.normpath (unquote path) in
  let words := posixpath.nonempty_parts path in
  filter (λ w, kept w = true) words.

Definition trailing_slash (path : string) : bool :=
  endswith_sep (rstrip (before "#" (before "?" path))).

(** [SimpleHTTPRequestHandler.translate_path] of the standard library,
    from the directory [base] it starts at: [os.getcwd()] before Python
    3.7, [self.directory] from then on.  [unquote] is
    [urllib.parse.unquote]. *)
Definition SimpleHTTPRequestHandler_translate_path (base : string)
    (unquote : string → string) (path : string) : string :=
  let p := fold_left (λ acc word, posixpath.join acc [word])
             (request_words unquote path) base in
  if trailing_slash path then p +:+ "/" else p.

(** [self.directory] of a handler instance: the [directory] keyword when
    the class was bound with one, otherwise [os.getcwd()]. *)
Definition handler_base (w : world) (h : handler_class) : string :=
  match handler_directory h with
  | Some d => d
  | None => getcwd w
  end.

(** [CustomHTTPHandler.translate_path(self, path)], for a handler of the
    server [httpd]. *)
Definition translate_path (w : world) (httpd : HTTPServer)
    (unquote : string → string) (path : string) : M string :=
  let path :=
    SimpleHTTPRequestHandler_translate_path
      (handler_base w (RequestHandlerClass httpd)) unquote path in
  match directory httpd with
  | Some server_directory =>
      relpath <- posixpath.relpath (getcwd w) path (getcwd w) ;;
      ret (posixpath.join server_directory [relpath])
  | None => ret path
  end.

(** [CustomHTTPHandler.log_message]: the body is [pass]. *)
Definition log_message (stderr : list string) (line : string) : list string :=
  stderr.

(** [BaseHTTPRequestHandler.log_message] of the standard library, which
    [CustomHTTPHandler] overrides: the line goes to [sys.stderr]. *)
Definition BaseHTTPRequestHandler_log_message (stderr : list string)
    (line : string) : list string :=
  (stderr ++ [line])%list.

(** How the handler answers a request.  [Served]: the method ([do_GET],
    [do_HEAD]) sends its response without a [Connection] header, as it
    does for a file, a listing, a redirect or a 304.  [Refused]: the
    answer goes through [send_error] (a missing file, an unsupported
    method, a request line that does not parse), which sends
    [Connection: close], and [send_header] then sets
    [close_connection]; [code] is the status sent. *)
Inductive reply := Served | Refused (code : Z).

(** What arrives on an accepted connection, one item for each call of
    [handle_one_request]: a request, with what [parse_request] makes of
    the client's wish to keep the connection (the protocol version and
    the [Connection] header) and how the handler answers it, or a
    failure of the transport; the end of the list is the peer closing. *)
Inductive exchange :=
| Request (target : string) (keep_alive : bool) (answer : reply)
| Fault (e : exception).

(** A handler instance on a connection. *)
Record handler := {
  close_connection : bool;
  rfile : list exchange;
  handled : list string;
  stderr : list string
}.

(** [BaseHTTPRequestHandler.handle_one_request] of the standard library,
    with the [log_message] of the class of [self].  An empty read sets
    [close_connection]; for a request, [parse_request] sets it to the
    negation of what the client asked, and the answer is logged through
    [log_message]: a served request by [log_request], a refused one by
    [log_error] and [log_request], and [send_error] sets
    [close_connection] whatever the client asked; a socket timeout is
    logged and closes; any other failure of the transport leaves the
    method as the exception. *)
Definition handle_one_request (log : list string → string → list string)
    (self : handler) : outcome unit * handler :=
  match rfile self with
  | [] =>
      (Return tt, {| close_connection := true; rfile := [];
                     handled := handled self; stderr := stderr self |})
  | Request target keep_alive Served :: rest =>
      (Return tt, {| close_connection := negb keep_alive; rfile := rest;
                     handled := (handled self ++ [target])%list;
                     stderr := log (stderr self) target |})
  | Request target keep_alive (Refused code) :: rest =>
      (Return tt, {| close_connection := true; rfile := rest;
                     handled := (handled self ++ [target])%list;
                     stderr := log (log (stderr self)
                                      ("code " +:+ str_int code)) target |})
  | Fault e :: rest =>
      if isinstance e socket_timeout then
        (Return tt, {| close_connection := true; rfile := rest;
                       handled := handled self;
                       stderr := log (stderr self) "Request timed out" |})
      else
        (Raise e, {| close_connection := close_connection self;
                     rfile := rest; handled := handled self;
                     stderr := stderr self |})
  end.

Definition inspect {A} (a : A) : {b : A | a = b} := exist _ a eq_refl.

(** The loop never runs longer than the connection has items, plus the
    round that meets its end. *)
Definition rounds_left (self : handler) : nat :=
  (2 * length (rfile self) + (if close_connection self then 0 else 1))%nat.

(** [while not self.close_connection: self.handle_one_request()]. *)
Equations? handle_loop (log : list string → string → list string)
    (self : handler) : outcome unit * handler
    by wf (rounds_left self) lt :=
  handle_loop log self with inspect (close_connection self) := {
    | exist _ true _ => (Return tt, self)
    | exist _ false Hopen with inspect (handle_one_request log self) := {
      | exist _ (Return _, self') Hone => handle_loop log self'
      | exist _ (Raise e, self') _ => (Raise e, self') } }.
Proof.
  clear handle_loop. unfold handle_one_request, rounds_left in *.
  rewrite Hopen.
  destruct (rfile self) as [|[target keep_alive [|]|e] rest].
  - inversion Hone; subst; simpl. lia.
  - inversion Hone; subst; simpl. destruct keep_alive; simpl; lia.
  - inversion Hone; subst; simpl. lia.
  - destruct (isinstance e socket_timeout); [|discriminate].
    inversion Hone; subst; simpl. lia.
Qed.

(** [handle] with the [log_message] of the class: the connection's
    handler state on entry is [self]. *)
Definition handle_with (log : list string → string → list string)
    (self : handler) : outcome unit * handler :=
  let self := {| close_connection := true; rfile := rfile self;
                 handled := handled self; stderr := stderr self |} in
  match
    match handle_one_request log self with
    | (Return _, self') => handle_loop log self'
    | (Raise e, self') => (Raise e, self')
    end
  with
  | (Return _, self') => (Return tt, self')
  | (Raise e, self') =>
      if existsb (isinstance e) [ConnectionResetError; BrokenPipeError]
      then (Return tt, self')
      else (Raise e, self')
  end.

(** [CustomHTTPHandler.handle(self)]. *)
Definition handle (self : handler) : outcome unit * handler :=
  handle_with log_message self.

(** A handler as the server creates it for an accepted connection. *)
Definition accept (connection : list exchange) : handler :=
  {| close_connection := false; rfile := connection; handled := [];
     stderr := [] |}.

(** The requests of a connection up to the first after which it is
    closed: the first the client does not ask to keep alive, the first
    that is refused, the end of the connection, or a failure of the
    transport. *)
Fixpoint requests_until_close (connection : list exchange) : list string :=
  match connection with
  | Request target keep_alive answer :: rest =>
      target :: (match keep_alive, answer with
                 | true, Served => requests_until_close rest
                 | _, _ => []
                 end)
  | Fault _ :: _ => []
  | [] => []
  end.

(** What the specification asks of a connection, in its words: the
    requests are processed as long as the client signals it wants to
    keep the connection alive, up to the first that signals close or
    the end of the connection. *)
Fixpoint requests_while_kept_alive (connection : list exchange)
    : list string :=
  match connection with
  | Request target keep_alive _ :: rest =>
      target :: (if keep_alive then requests_while_kept_alive rest else [])
  | Fault _ :: _ => []
  | [] => []
  end.

(** The failure of the transport the handler meets, if it meets one
    before the connection is closed; a timeout is dealt with by
    [handle_one_request] itself. *)
Fixpoint fault_met (connection : list exchange) : option exception :=
  match connection with
  | Request _ keep_alive answer :: rest =>
      match keep_alive, answer with
      | true, Served => fault_met rest
      | _, _ => None
      end
  | Fault e :: _ => if isinstance e socket_timeout then None else Some e
  | [] => None
  end.

(** ** The file system *)

Fixpoint lookup_path (p : list string) (n : node) : option node :=
  match p with
  | [] => Some n
  | c :: p' =>
      match n with
      | File _ => None
      | Dir entries =>
          match entries !! c with
          | Some child => lookup_path p' child
          | None => None
          end
      end
  end.

(** Where the kernel arrives when it reads a path: at an entry that is
    there, given by its place from the root, or at a name that is
    missing in a directory that is there. *)
Inductive located :=
| Found (loc : list string)
| Missing (parent : list string) (name : string).

Definition no_such_file (name : string) : exception :=
  os_error FileNotFoundError 2
    ("No such file or directory: '" +:+ name +:+ "'").

Definition not_a_directory (name : string) : exception :=
  os_error NotADirectoryError 20 ("Not a directory: '" +:+ name +:+ "'").

Definition is_a_directory (name : string) : exception :=
  os_error IsADirectoryError 21 ("Is a directory: '" +:+ name +:+ "'").

Definition file_exists (name : string) : exception :=
  os_error FileExistsError 17 ("File exists: '" +:+ name +:+ "'").

(** One component more of a path.  A component is looked up in a
    directory only: after a regular file the kernel answers [ENOTDIR]
    and after a missing name [ENOENT], for [.] and [..] as for any
    other component.  In a directory, [.] stays, [..] goes to the parent
    (the root is its own parent), and a name leads to the entry or is
    missing.  There are no symbolic links. *)
Definition namei_step (name : string) (root : node) (at_ : outcome located)
    (c : string) : outcome located :=
  match at_ with
  | Raise e => Raise e
  | Return (Missing _ _) => Raise (no_such_file name)
  | Return (Found loc) =>
      match lookup_path loc root with
      | Some (Dir entries) =>
          if String.eqb c posixpath.curdir then Return (Found loc)
          else if String.eqb c posixpath.pardir
          then Return (Found (removelast loc))
          else match entries !! c with
               | Some _ => Return (Found (loc ++ [c]))
               | None => Return (Missing loc c)
               end
      | Some (File _) => Raise (not_a_directory name)
      | None => Raise (no_such_file name)
      end
  end.

(** The kernel reading the components of a path from the root, one
    after the other; [name] is the path as the caller gave it, for the
    error. *)
Definition namei (name : string) (root : node) (comps : list string)
    : outcome located :=
  fold_left (namei_step name root) comps (Return (Found [])).

(** A path as the calls below take it: absolute or not, and its
    components without the empty ones.  The kernel reads a relative path
    from the working directory. *)
Definition kernel_comps (w : world) (absolute : bool) (comps : list string)
    : list string :=
  ((if absolute then [] else posixpath.nonempty_parts (getcwd w)) ++ comps)%list.

(** The path as an error shows it: as the caller gave it, up to repeated
    separators and separators at the end. *)
Definition path_text (absolute : bool) (comps : list string) : string :=
  (if absolute then "/" else EmptyString) +:+ join_sep comps.

(** [os.path.exists(path)] and [os.path.isdir(path)]: [stat] succeeds,
    and on a directory. *)
Definition path_exists (w : world) (absolute : bool) (comps : list string)
    (root : node) : bool :=
  match namei (path_text absolute comps) root (kernel_comps w absolute comps) with
  | Return (Found _) => true
  | _ => false
  end.

Definition path_isdir (w : world) (absolute : bool) (comps : list string)
    (root : node) : bool :=
  match namei (path_text absolute comps) root (kernel_comps w absolute comps) with
  | Return (Found loc) =>
      match lookup_path loc root with
      | Some (Dir _) => true
      | _ => false
      end
  | _ => false
  end.

(** The tree with the entry [c] of the directory at [p] set to [new]. *)
Fixpoint insert_at (p : list string) (c : string) (new : node) (n : node)
    : node :=
  match n with
  | File _ => n
  | Dir entries =>
      match p with
      | [] => Dir (<[c := new]> entries)
      | d :: p' =>
          match entries !! d with
          | Some child => Dir (<[d := insert_at p' c new child]> entries)
          | None => n
          end
      end
  end.

Definition is_dir (n : node) : bool :=
  match n with
  | Dir _ => true
  | File _ => false
  end.

(** A tree that holds what another holds, and maybe more: every place
    of the first is a place of the second, of the same kind. *)
Definition extends (root root' : node) : Prop :=
  ∀ q n, lookup_path q root = Some n →
         ∃ n', lookup_path q root' = Some n' ∧ is_dir n' = is_dir n.

(** [os.mkdir(path)]: the last component must be missing in a directory
    that is there. *)
Definition sys_mkdir (w : world) (absolute : bool) (comps : list string)
    (root : node) : outcome node :=
  let name := path_text absolute comps in
  match namei name root (kernel_comps w absolute comps) with
  | Return (Missing parent c) => Return (insert_at parent c (Dir ∅) root)
  | Return (Found _) => Raise (file_exists name)
  | Raise e => Raise e
  end.

(** [open(name, 'w')], [write(content)] and close: the file is made or
    replaced in a directory that is there. *)
Definition sys_open_w (w : world) (name content : string) (root : node)
    : outcome node :=
  let absolute := posixpath.isabs name in
  let comps := posixpath.nonempty_parts name in
  match namei name root (kernel_comps w absolute comps) with
  | Return (Missing parent c) =>
      if endswith_sep name then Raise (is_a_directory name)
      else Return (insert_at parent c (File content) root)
  | Return (Found loc) =>
      match lookup_path loc root, last loc with
      | Some (File _), Some c =>
          if endswith_sep name then Raise (not_a_directory name)
          else Return (insert_at (removelast loc) c (File content) root)
      | _, _ => Raise (is_a_directory name)
      end
  | Raise e => Raise e
  end.

(** Running a tree operation on the file system of the state. *)
Definition on_fs (op : node → outcome node) : M unit :=
  λ st, match op (fs st) with
        | Return n => (Return tt, {| fs := n; stdout := stdout st;
                                     trace := trace st |})
        | Raise e => (Raise e, st)
        end.

(** Reading the file system of the state. *)
Definition gets {A} (f : node → A) : M A := λ st, (Return (f (fs st)), st).

(** The last step of [os.makedirs]: [mkdir(name)], and with [exist_ok]
    an [OSError] is let pass when [name] is a directory. *)
Definition mkdir_exist_ok (w : world) (absolute : bool) (comps : list string)
    : M unit :=
  try_except (on_fs (sys_mkdir w absolute comps)) [OSError]
    (λ e, isdir <- gets (path_isdir w absolute comps) ;;
          if isdir then ret tt else raise e).

(** [os.makedirs(name, exist_ok=True)] of the standard library, on the
    components of [name], the last first: [split] takes the last
    component off as [tail] (separators at the end aside); when [head]
    is not empty and does not exist it is made first, by the same
    function, a [FileExistsError] of which is let pass, and a [tail]
    that is [.] then ends the call; then [name] itself is made. *)
Fixpoint makedirs_comps (w : world) (absolute : bool) (rev_comps : list string)
    : M unit :=
  match rev_comps with
  | [] => mkdir_exist_ok w absolute []
  | tail :: rev_head =>
      there <- gets (path_exists w absolute (rev rev_head)) ;;
      if (absolute || negb (bool_decide (rev_head = []))) && negb there then
        try_except (makedirs_comps w absolute rev_head) [FileExistsError]
          (λ _, ret tt) ;;;
        if String.eqb tail posixpath.curdir then ret tt
        else mkdir_exist_ok w absolute (rev (tail :: rev_head))
      else mkdir_exist_ok w absolute (rev (tail :: rev_head))
  end.

(** [os.makedirs(name, exist_ok=True)]. *)
Definition makedirs (w : world) (name : string) : M unit :=
  emit (EvMakedirs name) ;;;
  if is_empty name then raise (no_such_file name)
  else makedirs_comps w (posixpath.isabs name)
         (rev (posixpath.nonempty_parts name)).

(** [with open(name, 'w') as f: f.write(content)]. *)
Definition write_text (w : world) (name content : string) : M unit :=
  emit (EvWrite name content) ;;;
  if is_empty name then raise (no_such_file name)
  else on_fs (sys_open_w w name content).

(** ** start_server *)

Definition dquote : string := String (ascii_of_nat 34) EmptyString.

(** The document written to index.html. *)
Definition redirect_html : string :=
  "<html><head><meta http-equiv=" +:+ dquote +:+ "Refresh" +:+ dquote
  +:+ " content=" +:+ dquote +:+ "0; URL=html/" +:+ dquote
  +:+ "></head></html>".

(** [args.port or 7447]: [None] and [0] are false. *)
Definition port_or_default (args : Namespace) : Z :=
  match port args with
  | Some p => if Z.eqb p 0 then 7447 else p
  | None => 7447
  end.

(** [Thread(target=httpd.serve_forever).start()]. *)
Definition Thread_start_serve_forever (httpd : HTTPServer) : M unit :=
  emit (EvThreadStart (socket httpd)).

(** [tqdm.write(line)]: the line goes to standard output. *)
Definition tqdm_write (line : string) : M unit := print line.

Definition serve_message (host : string) (port : Z) : string :=
  "Serving HTTP on " +:+ host +:+ ":" +:+ str_int port
  +:+ ". Press CTRL-C to quit.".

(** [start_server_36(args)]. *)
Definition start_server_36 (w : world) (args : Namespace) : M HTTPServer :=
  let handler_class := {| handler_directory := None |} in
  let server_class := ThreadingHTTPServer_36 w (thumb_dir args) in
  let server_address := (EmptyString, port_or_default args) in
  httpd <- start_httpd server_class server_address handler_class args ;;
  Thread_start_serve_forever httpd ;;;
  let '(host, port) := getsockname w (socket httpd) in
  hp <- get_public_ip w host port ;;
  tqdm_write (serve_message hp.1 hp.2) ;;;
  ret httpd.

(** [start_server_38(args)]. *)
Definition start_server_38 (w : world) (args : Namespace) : M HTTPServer :=
  let handler_class := {| handler_directory := Some (thumb_dir args) |} in
  let server_class := DualStackServer w in
  let server_address := (best_family_host w, port_or_default args) in
  httpd <- start_httpd server_class server_address handler_class args ;;
  Thread_start_serve_forever httpd ;;;
  let '(host, port) := getsockname w (socket httpd) in
  hp <- get_public_ip w host port ;;
  tqdm_write (serve_message hp.1 hp.2) ;;;
  ret httpd.

(** [start_server(args)]; the result is [None] when neither version test
    holds. *)
Definition start_server (w : world) (args : Namespace)
    : M (option HTTPServer) :=
  makedirs w (thumb_dir args) ;;;
  let redir_html := posixpath.join (thumb_dir args) ["index.html"] in
  write_text w redir_html redirect_html ;;;
  if bool_decide (version_minor w ∈ [6; 7]) then
    httpd <- start_server_36 w args ;; ret (Some httpd)
  else if Z.leb 8 (version_minor w) then
    httpd <- start_server_38 w args ;; ret (Some httpd)
  else ret None.

(** ** The two branches of start_server *)

(** [start_server] goes on with [start_server_36] or [start_server_38];
    each passes its own server class, address and handler class to
    [start_httpd]. *)
Inductive branch := Python36 | Python38.

Definition server_class_of (w : world) (args : Namespace) (b : branch)
    : server_class :=
  match b with
  | Python36 => ThreadingHTTPServer_36 w (thumb_dir args)
  | Python38 => DualStackServer w
  end.

Definition handler_class_of (args : Namespace) (b : branch) : handler_class :=
  match b with
  | Python36 => {| handler_directory := None |}
  | Python38 => {| handler_directory := Some (thumb_dir args) |}
  end.

Definition host_of (w : world) (b : branch) : string :=
  match b with
  | Python36 => EmptyString
  | Python38 => best_family_host w
  end.

Definition server_address_of (w : world) (args : Namespace) (b : branch)
    : address :=
  (host_of w b, port_or_default args).

(** The server a branch constructs once it is bound to [addr]. *)
Definition httpd_of (args : Namespace) (b : branch) (addr : address)
    : HTTPServer :=
  {| socket := addr;
     RequestHandlerClass := handler_class_of args b;
     directory := match b with
                  | Python36 => Some (thumb_dir args)
                  | Python38 => None
                  end |}.

(** The test [start_httpd] makes of a caught error. *)
Definition is_in_use (error : exception) : bool :=
  isinstance error OSError && String.eqb (str error) in_use_message.

(** The line [start_httpd] prints before it exits. *)
Definition diagnostic (error : exception) : string :=
  "OSError: " +:+ str error +:+ ". Try a different port using the -p flag.".

(** [needle in line]. *)
Fixpoint mentions (needle line : string) : bool :=
  String.prefix needle line
  || match line with
     | EmptyString => false
     | String _ line' => mentions needle line'
     end.

(** The state after more interactions, and after more output. *)
Definition traced (st : state) (evs : list event) : state :=
  {| fs := fs st; stdout := stdout st; trace := (trace st ++ evs)%list |}.

Definition printed (st : state) (lines : list string) : state :=
  {| fs := fs st; stdout := (stdout st ++ lines)%list; trace := trace st |}.

(** The exception [sys.exit()] raises. *)
Definition system_exit : exception :=
  {| cls := SystemExit; str := EmptyString; code := None |}.

(** The address is occupied, as [start_httpd] recognises it. *)
Definition busy (w : world) (addr : address) : Prop :=
  ∃ error, sock_bind w addr = Some error ∧ is_in_use error = true.

(** The bind attempts on [n] successive ports from [p]. *)
Definition attempts (host : string) (p : Z) (n : nat) : list event :=
  map (λ i, EvBind (host, p + Z.of_nat i)) (seq 0 n).

(** ** Plain names *)

Fixpoint has_sep (s : string) : bool :=
  match s with
  | EmptyString => false
  | String c s' => is_sep c || has_sep s'
  end.

(** A plain name: not empty, without a separator, and neither [.] nor
    [..]. *)
Definition plain (word : string) : bool :=
  negb (is_empty word) && negb (has_sep word)
  && negb (String.eqb word posixpath.curdir)
  && negb (String.eqb word posixpath.pardir).

(** The path relative to the working directory that [translate_path]
    computes when the server has a [directory]: the kept words again. *)
Definition relative_words (words : list string) : string :=
  match words with
  | [] => posixpath.curdir
  | _ :: _ => join_sep words
  end.

(** A computation that leaves the file system alone and only adds to
    the trace. *)
Definition fs_stable {A} (m : M A) : Prop :=
  ∀ st, fs (m st).2 = fs st ∧ ∃ evs, trace (m st).2 = (trace st ++ evs)%list.

(** ** Sample surroundings *)

(** A machine on which the listed ports are occupied and the network is
    unreachable. *)
Definition offline (occupied : list Z) : world :=
  {| sock_bind := λ addr, if bool_decide (addr.2 ∈ occupied)
                          then Some address_in_use else None;
     getsockname := λ addr, ("0.0.0.0", addr.2);
     best_family_host := "::";
     urlopen_answer := λ _,
       Raise {| cls := URLError;
                str := "<urlopen error [Errno 101] Network is unreachable>";
                code := None |};
     getcwd := "/home/user";
     version_minor := 8 |}.

(** A machine on which the ports below 1024 are refused to the user. *)
Definition unprivileged : world :=
  {| sock_bind := λ addr, if Z.ltb addr.2 1024
                          then Some permission_denied else None;
     getsockname := λ addr, ("0.0.0.0", addr.2);
     best_family_host := "::";
     urlopen_answer := urlopen_answer (offline []);
     getcwd := "/home/user";
     version_minor := 8 |}.

(** A machine with every port free, on which the IP echo service
    answers [echo] and every other URL answers [confirm]. *)
Definition online (echo confirm : outcome response) : world :=
  {| sock_bind := λ _, None;
     getsockname := λ addr, ("0.0.0.0", addr.2);
     best_family_host := "::";
     urlopen_answer := λ url,
       if String.eqb url ipify_url then echo else confirm;
     getcwd := "/home/user";
     version_minor := 8 |}.

(** A response with the given body and status. *)
Definition answer (body : list Byte.byte) (status : Z) : outcome response :=
  Return {| read := Return body; getcode := status |}.

(** A response whose body never arrives within the timeout: [read]
    raises [socket.timeout]. *)
Definition stalled : outcome response :=
  Return {| read := Raise {| cls := socket_timeout; str := "timed out";
                             code := None |};
            getcode := 200 |}.

Definition url_error : exception :=
  {| cls := URLError; str := "<urlopen error timed out>"; code := None |}.

(** A macOS or BSD machine on which the listed ports are occupied: the
    kernel reports an occupied port as errno 48. *)
Definition offline_bsd (occupied : list Z) : world :=
  {| sock_bind := λ addr, if bool_decide (addr.2 ∈ occupied)
                          then Some address_in_use_bsd else None;
     getsockname := λ addr, ("0.0.0.0", addr.2);
     best_family_host := "::";
     urlopen_answer := urlopen_answer (offline []);
     getcwd := "/Users/user";
     version_minor := 8 |}.

(** A file system with the working directory of [offline] and nothing
    else. *)
Definition home_only : state :=
  {| fs := Dir {[ "home" := Dir {[ "user" := Dir ∅ ]} ]};
     stdout := []; trace := [] |}.

(** The same with a regular file notes.txt in the working directory. *)
Definition home_with_notes : state :=
  {| fs := Dir {[ "home" := Dir {[ "user" :=
                    Dir {[ "notes.txt" := File "to do" ]} ]} ]};
     stdout := []; trace := [] |}.

Definition no_port : Namespace := {| port := None; thumb_dir := "shis" |}.
Definition with_port (p : Z) : Namespace :=
  {| port := Some p; thumb_dir := "shis" |}.

(** * General utilities *)

(** ** chunks *)

(** [range(start, stop, step)], all of it: a zero step is a
    [ValueError]; the number of items is computed as CPython does. *)
Definition range_length (start stop step : Z) : Z :=
  let '(lo, hi, step) :=
    if 0 <? step then (start, stop, step) else (stop, start, - step) in
  if hi <=? lo then 0 else (hi - lo - 1) / step + 1.

Definition py_range (start stop step : Z) : outcome (list Z) :=
  if step =? 0 then
    Raise {| cls := ValueError; str := "range() arg 3 must not be zero";
             code := None |}
  else
    Return (map (λ i, start + Z.of_nat i * step)
              (seq 0 (Z.to_nat (range_length start stop step)))).

(** A slice bound brought into [0, len]: a negative bound counts from
    the end. *)
Definition adjust_index (len i : Z) : Z :=
  if i <? 0 then Z.max 0 (i + len) else Z.min i len.

(** [l[i:j]]. *)
Definition slice {A} (l : list A) (i j : Z) : list A :=
  let len := Z.of_nat (length l) in
  let start := adjust_index len i in
  let stop := adjust_index len j in
  take (Z.to_nat (stop - start)) (drop (Z.to_nat start) l).

(** [chunks(iterable, chunk_size)], the generator run to its end: the
    chunks it yields, or the exception [range] raises when the first one
    is asked for. *)
Definition chunks {A} (iterable : list A) (chunk_size : Z)
    : outcome (list (list A)) :=
  match py_range 0 (Z.of_nat (length iterable)) chunk_size with
  | Return indices =>
      Return (map (λ i, slice iterable i (i + chunk_size)) indices)
  | Raise e => Raise e
  end.
(** ** rreplace *)

(** [sep.join(parts)]. *)
Fixpoint str_join (sep : string) (parts : list string) : string :=
  match parts with
  | [] => EmptyString
  | p :: rest =>
      match rest with
      | [] => p
      | _ :: _ => p +:+ sep +:+ str_join sep rest
      end
  end.

(** [s[n:]]. *)
Fixpoint str_drop (n : nat) (s : string) : string :=
  match n, s with
  | O, _ => s
  | S n', String _ s' => str_drop n' s'
  | S _, EmptyString => EmptyString
  end.

(** The rightmost occurrence of [sep] in [s]: what precedes it and what
    follows it.  An occurrence further right is looked for first. *)
Fixpoint rsplit_last (sep s : string) : option (string * string) :=
  match
    match s with
    | EmptyString => None
    | String c s' =>
        match rsplit_last sep s' with
        | Some (a, b) => Some (String c a, b)
        | None => None
        end
    end
  with
  | Some r => Some r
  | None =>
      if String.prefix sep s
      then Some (EmptyString, str_drop (String.length sep) s)
      else None
  end.

(** [s.rsplit(sep, 1)]. *)
Definition rsplit1 (s sep : string) : outcome (list string) :=
  if is_empty sep then
    Raise {| cls := ValueError; str := "empty separator"; code := None |}
  else
    match rsplit_last sep s with
    | Some (a, b) => Return [a; b]
    | None => Return [s]
    end.

(** [rreplace(string, find, replace)]. *)
Definition rreplace (text find replace : string) : outcome string :=
  match rsplit1 text find with
  | Return parts => Return (str_join replace parts)
  | Raise e => Raise e
  end.

(** ** urlify *)

(** [urlify(slug, page)]. *)
Definition urlify (slug : string) (page : Z) : string :=
  if 1 <? page then slug +:+ "/page/" +:+ str_int page +:+ "/"
  else slug +:+ "/".
(** ** filter_image *)

(** [s.rfind(c)] for a character [c]: the index of its last occurrence,
    -1 when there is none. *)
Fixpoint rfind (c : ascii) (s : string) : Z :=
  match s with
  | EmptyString => -1
  | String d s' =>
      let r := rfind c s' in
      if 0 <=? r then r + 1 else if Ascii.eqb d c then 0 else -1
  end.

(** [s[:n]]. *)
Fixpoint str_take (n : nat) (s : string) : string :=
  match n, s with
  | O, _ => EmptyString
  | S n', String c s' => String c (str_take n' s')
  | S _, EmptyString => EmptyString
  end.

(** The loop of [genericpath._splitext] that skips the leading dots of
    the file name: [rounds] is what is left of the way from
    [filenameIndex] to [dotIndex]. *)
Fixpoint splitext_scan (p : string) (filenameIndex dotIndex rounds : nat)
    : option (string * string) :=
  match rounds with
  | O => None
  | S rounds' =>
      if negb (String.eqb (str_take 1 (str_drop filenameIndex p)) ".")
      then Some (str_take dotIndex p, str_drop dotIndex p)
      else splitext_scan p (S filenameIndex) dotIndex rounds'
  end.

(** [os.path.splitext(p)]. *)
Definition splitext (p : string) : string * string :=
  let sepIndex := rfind "/" p in
  let dotIndex := rfind "." p in
  if sepIndex <? dotIndex then
    match splitext_scan p (Z.to_nat (sepIndex + 1)) (Z.to_nat dotIndex)
            (Z.to_nat (dotIndex - (sepIndex + 1))) with
    | Some parts => parts
    | None => (p, EmptyString)
    end
  else (p, EmptyString).

(** [str.lower] on the ASCII letters.  (Of the characters outside ASCII
    only U+0130 and U+212A have an ASCII letter in their lower case, an
    i followed by a combining dot, and a k: neither makes one of the
    extensions below.) *)
Definition lower_char (c : ascii) : ascii :=
  let n := N_of_ascii c in
  if ((65 <=? n) && (n <=? 90))%N then ascii_of_N (n + 32) else c.

Fixpoint lower (s : string) : string :=
  match s with
  | EmptyString => EmptyString
  | String c s' => String (lower_char c) (lower s')
  end.

Definition image_extensions : list string :=
  [".jpeg"; ".jpg"; ".png"; ".tiff"; ".webp"].

(** [filter_image(name)]. *)
Definition filter_image (name : string) : bool :=
  let '(_, ext) := splitext name in
  if bool_decide (lower ext ∈ image_extensions) then true else false.

(** [c in s]. *)
Fixpoint has_char (c : ascii) (s : string) : bool :=
  match s with
  | EmptyString => false
  | String d s' => Ascii.eqb d c || has_char c s'
  end.

(** A string of dots only. *)
Fixpoint all_dots (s : string) : bool :=
  match s with
  | EmptyString => true
  | String d s' => Ascii.eqb d "." && all_dots s'
  end.
(** ** scale_dims *)

(** Floating point is not modelled.  The operations on floats that
    [scale_dims] reaches are the fields of a [float_model]; what is
    proved of [scale_dims] holds for every model. *)
Record float_model := {
  float : Type;
  (** [a / b] of two ints, [b] not zero: a float, or [OverflowError] *)
  int_truediv : Z → Z → outcome float;
  (** [x * n] of a float and an int: the int is converted first, which
      can raise [OverflowError] *)
  float_mul_int : float → Z → outcome float;
  (** [x / n] of a float and an int, [n] not zero *)
  float_truediv_int : float → Z → outcome float;
  (** [x == n] and [x > n] of a float and an int *)
  float_eq_int : float → Z → bool;
  float_gt_int : float → Z → bool;
  (** [round(x)]: an int, or the error for an infinity or a NaN *)
  float_round : float → outcome Z
}.

(** A Python number: an int or a float. *)
Inductive number (fm : float_model) :=
| Int (n : Z)
| Float (x : float fm).
Arguments Int {fm} n.
Arguments Float {fm} x.

(** What [scale_dims] can raise: [ZeroDivisionError] with its message,
    or what an operation on floats raises. *)
Inductive scale_error :=
| ZeroDivisionError (message : string)
| FloatError (e : exception).

Inductive scaled (A : Type) :=
| Done (a : A)
| Failed (e : scale_error).
Arguments Done {A} a.
Arguments Failed {A} e.

Definition sbind {A B} (o : scaled A) (k : A → scaled B) : scaled B :=
  match o with
  | Done a => k a
  | Failed e => Failed e
  end.

(** The result of an operation of the float model. *)
Definition of_float {fm : float_model} (o : outcome (float fm))
    : scaled (number fm) :=
  match o with
  | Return x => Done (Float x)
  | Raise e => Failed (FloatError e)
  end.

(** [a * n] for an int [n]. *)
Definition num_mul {fm} (a : number fm) (n : Z) : scaled (number fm) :=
  match a with
  | Int m => Done (Int (m * n))
  | Float x => of_float (float_mul_int fm x n)
  end.

(** [a / n] for an int [n]: true division. *)
Definition num_truediv {fm} (a : number fm) (n : Z) : scaled (number fm) :=
  match a with
  | Int m =>
      if n =? 0 then Failed (ZeroDivisionError "division by zero")
      else of_float (int_truediv fm m n)
  | Float x =>
      if n =? 0 then Failed (ZeroDivisionError "float division by zero")
      else of_float (float_truediv_int fm x n)
  end.

Definition num_eq {fm} (a : number fm) (n : Z) : bool :=
  match a with
  | Int m => m =? n
  | Float x => float_eq_int fm x n
  end.

Definition num_gt {fm} (a : number fm) (n : Z) : bool :=
  match a with
  | Int m => m >? n
  | Float x => float_gt_int fm x n
  end.

(** [round(a)]. *)
Definition num_round {fm} (a : number fm) : scaled Z :=
  match a with
  | Int m => Done m
  | Float x =>
      match float_round fm x with
      | Return n => Done n
      | Raise e => Failed (FloatError e)
      end
  end.

(** [scale_dims(width, height, min_val)] for int arguments.  The three
    [if] statements run in turn, each on what the one before left. *)
Definition scale_dims (fm : float_model) (width height min_val : Z)
    : scaled (Z * Z) :=
  sbind
    (if width <? height then
       sbind (sbind (num_mul (@Int fm width) min_val)
                (λ product, num_truediv product height))
         (λ width, Done (width, min_val))
     else Done (Int width, height))
    (λ '(width, height),
      let '(width, height) :=
        if num_eq width height then (Int min_val, min_val)
        else (width, height) in
      sbind
        (if num_gt width height then
           sbind (sbind (num_mul width min_val)
                    (λ product, num_truediv product height))
             (λ width, Done (width, min_val))
         else Done (width, height))
        (λ '(width, height),
          sbind (num_round width) (λ w,
          sbind (num_round (@Int fm height)) (λ h,
          Done (w, h))))).

(** Exact arithmetic on fractions with a positive denominator, rounding
    halves to the even neighbour: what floats compute where their
    precision suffices. *)
Definition exact_arithmetic : float_model :=
  {| float := Z * Z;
     int_truediv := λ a b, Return (a * Z.sgn b, Z.abs b);
     float_mul_int := λ x n, Return (x.1 * n, x.2);
     float_truediv_int := λ x n, Return (x.1 * Z.sgn n, x.2 * Z.abs n);
     float_eq_int := λ x n, x.1 =? n * x.2;
     float_gt_int := λ x n, x.1 >? n * x.2;
     float_round := λ x,
       let q := x.1 / x.2 in
       let r := x.1 mod x.2 in
       Return (if 2 * r <? x.2 then q
               else if x.2 <? 2 * r then q + 1
               else if Z.even q then q else q + 1) |}.
(** ** More sample surroundings *)

(** A machine on which every port is occupied. *)
Definition crowded : world :=
  {| sock_bind := λ _, Some address_in_use;
     getsockname := λ addr, ("0.0.0.0", addr.2);
     best_family_host := "::";
     urlopen_answer := urlopen_answer (offline []);
     getcwd := "/home/user";
     version_minor := 8 |}.

(** The branch of [start_server] that runs for [b]. *)
Definition start_server_of (b : branch) : world → Namespace → M HTTPServer :=
  match b with
  | Python36 => start_server_36
  | Python38 => start_server_38
  end.

(** The URL of the confirmation request of [get_public_ip]. *)
Definition confirmation_url (public_host : string) (port : Z) : string :=
  "http://" +:+ public_host +:+ ":" +:+ str_int port +:+ "/".

(** A file system on which the root directory shis of an earlier run
    stands in the working directory, with its pages and an index.html
    of another content. *)
Definition home_with_site : state :=
  {| fs := Dir {[ "home" := Dir {[ "user" := Dir {[ "shis" :=
                    Dir {[ "html" := Dir ∅;
                           "index.html" := File "old" ]} ]} ]} ]};
     stdout := []; trace := [] |}.

(** An interpreter whose minor version is 0, as that of a release 4.0
    would be; the rest as [offline] with every port free. *)
Definition minor_zero : world :=
  {| sock_bind := λ _, None;
     getsockname := λ addr, ("0.0.0.0", addr.2);
     best_family_host := "::";
     urlopen_answer := urlopen_answer (offline []);
     getcwd := "/home/user";
     version_minor := 0 |}.

(** ** find_thumb *)

(** An item of [os.walk(top)]: the path of a directory, the names of its
    subdirectories and the names of its other entries. *)
Definition walk_item : Type := string * list string * list string.

(** The inner loop of [find_thumb] over the files of one directory: the
    value of the [return] it reaches, if it reaches one. *)
Fixpoint find_thumb_files (w : world) (album_path image_root thumb_dir : string)
    (root : string) (files : list string) : M (option string) :=
  match files with
  | [] => ret None
  | name :: files' =>
      let file_path := posixpath.join root [name] in
      if filter_image file_path then
        rel_path <- posixpath.relpath (getcwd w) file_path album_path ;;
        let image_path := posixpath.join image_root [rel_path] in
        image <- posixpath.relpath (getcwd w) image_path thumb_dir ;;
        ret (Some image)
      else find_thumb_files w album_path image_root thumb_dir root files'
  end.

(** The outer loop, over what [os.walk] yields; [image] is still the
    empty string when the loop ends. *)
Fixpoint find_thumb_walk (w : world) (album_path image_root thumb_dir : string)
    (walk : list walk_item) : M string :=
  match walk with
  | [] => ret EmptyString
  | (root, _, files) :: walk' =>
      found <- find_thumb_files w album_path image_root thumb_dir root files ;;
      match found with
      | Some image => ret image
      | None => find_thumb_walk w album_path image_root thumb_dir walk'
      end
  end.

(** [find_thumb(album_path, image_root, thumb_dir)]; [os_walk] is what
    [os.walk] yields on this machine, in the order in which the operating
    system lists the entries. *)
Definition find_thumb (w : world) (os_walk : string → list walk_item)
    (album_path image_root thumb_dir : string) : M string :=
  find_thumb_walk w album_path image_root thumb_dir (os_walk album_path).

(** The files of a walk that [find_thumb] takes for images, in the order
    of the walk. *)
Definition images_of (walk : list walk_item) : list string :=
  flat_map (λ '(root, _, files),
              filter (λ p, filter_image p = true)
                (map (λ name, posixpath.join root [name]) files))
           walk.

(** A walk of an album with a note, a picture in a subdirectory and
    another picture below. *)
Definition album_walk (top : string) : list walk_item :=
  [ (top, ["2019"], ["notes.txt"]);
    (posixpath.join top ["2019"], [], ["readme"; "a.JPG"; "b.png"]) ].

(** The path [abspath] normalises: [path] itself when it is absolute,
    [path] joined to the working directory otherwise. *)
Definition anchored (cwd path : string) : string :=
  if posixpath.isabs path then path else posixpath.join cwd [path].

(** The components of the absolute, normalised path: the place a path
    names (lexically, without symbolic links). *)
Definition place (cwd path : string) : list string :=
  posixpath.nonempty_parts (posixpath.abspath cwd path).

(** A component of a relative path: not empty and without a separator;
    [.] and [..] are components. *)
Definition component (word : string) : bool :=
  negb (is_empty word) && negb (has_sep word).

(** * Properties *)

(** ** Port negotiation *)

Lemma start_httpd_eq server addr handler args st :
  start_httpd server addr handler args st =
  match server addr handler st with
  | (Return httpd, st1) => (Return httpd, st1)
  | (Raise error, st1) =>
      if is_in_use error then
        match port args with
        | None =>
            if Z.gtb addr.2 7500 then
              (print (diagnostic error) ;;; sys_exit) st1
            else start_httpd server (addr.1, addr.2 + 1) handler args st1
        | Some _ => (print (diagnostic error) ;;; sys_exit) st1
        end
      else (Raise error, st1)
  end.
Proof.
  simp start_httpd. destruct (server addr handler st) as [[httpd|error] st1];
    simpl; [reflexivity|].
  unfold is_in_use.
  destruct (isinstance error OSError); simpl; [|reflexivity].
  destruct (String.eqb (str error) in_use_message); simpl; [|reflexivity].
  destruct (port args); simp start_httpd;
    destruct (Z_gt_le_dec addr.2 7500) as [Hgt|Hle]; simp start_httpd;
    try reflexivity;
    destruct (Z.gtb_spec addr.2 7500); try lia; reflexivity.
Qed.

Lemma traced_traced st evs1 evs2 :
  traced (traced st evs1) evs2 = traced st (evs1 ++ evs2).
Proof. unfold traced; simpl. by rewrite <- app_assoc. Qed.

Lemma traced_nil st : traced st [] = st.
Proof. destruct st. unfold traced; simpl. by rewrite app_nil_r. Qed.

(** Both server classes make one bind attempt when constructed: the
    [setsockopt] call of [DualStackServer] never happens. *)
Lemma server_class_of_eq w args b addr handler st :
  server_class_of w args b addr handler st =
  (match sock_bind w addr with
   | None => Return {| socket := addr; RequestHandlerClass := handler;
                       directory := directory (httpd_of args b addr) |}
   | Some error => Raise error
   end, traced st [EvBind addr]).
Proof.
  destruct b; unfold server_class_of, ThreadingHTTPServer_36, DualStackServer,
    TCPServer_init, DualStackServer_server_bind, HTTPServer_server_bind,
    suppress, try_except, bind, emit, traced; simpl;
    destruct (sock_bind w addr); reflexivity.
Qed.

Lemma exit_eq {A} error st :
  (print (diagnostic error) ;;; @sys_exit A) st =
  (Raise system_exit, printed st [diagnostic error]).
Proof. reflexivity. Qed.

(** One failed attempt below the ceiling with no port requested: the
    negotiation goes on at the next port. *)
Lemma start_httpd_retry w args b host p handler st :
  port args = None → busy w (host, p) → p ≤ 7500 →
  start_httpd (server_class_of w args b) (host, p) handler args st =
  start_httpd (server_class_of w args b) (host, p + 1) handler args
    (traced st [EvBind (host, p)]).
Proof.
  intros Hport (error & Hbind & Huse) Hle.
  rewrite start_httpd_eq, server_class_of_eq, Hbind, Huse, Hport. simpl.
  destruct (Z.gtb_spec p 7500); [lia|reflexivity].
Qed.

Lemma attempts_S host p n :
  attempts host p (S n) = EvBind (host, p) :: attempts host (p + 1) n.
Proof.
  unfold attempts. simpl. rewrite Z.add_0_r. f_equal.
  rewrite <- seq_shift, map_map. apply map_ext. intros i. do 2 f_equal. lia.
Qed.

Lemma start_httpd_busy_run w args b host handler (n : nat) : ∀ p st,
  port args = None →
  (∀ i : nat, (i < n)%nat → busy w (host, p + Z.of_nat i)) →
  p + Z.of_nat n - 1 ≤ 7500 →
  start_httpd (server_class_of w args b) (host, p) handler args st =
  start_httpd (server_class_of w args b) (host, p + Z.of_nat n) handler args
    (traced st (attempts host p n)).
Proof.
  induction n as [|n IH]; intros p st Hport Hbusy Hle.
  - simpl. rewrite Z.add_0_r. unfold attempts. simpl. by rewrite traced_nil.
  - rewrite (start_httpd_retry w args b host p handler st Hport); [| |lia].
    + rewrite IH; [| assumption | | lia].
      * rewrite traced_traced, attempts_S. simpl.
        replace (p + 1 + Z.of_nat n) with (p + Z.of_nat (S n)) by lia.
        reflexivity.
      * intros i Hi. replace (p + 1 + Z.of_nat i) with (p + Z.of_nat (S i)) by lia.
        apply Hbusy. lia.
    + specialize (Hbusy 0%nat). rewrite Z.add_0_r in Hbusy. apply Hbusy. lia.
Qed.

(** C1 (as the code has it): with a port requested and that port
    occupied, [start_httpd] makes the one bind attempt and no other,
    prints the operating system's error text followed by the advice to
    use the -p flag, and leaves through [sys.exit()] called without a
    status.  The line printed is the same for every port. *)
Theorem start_httpd_explicit_port_in_use w args b addr handler st p error :
  port args = Some p →
  sock_bind w addr = Some error →
  is_in_use error = true →
  start_httpd (server_class_of w args b) addr handler args st =
    (Raise system_exit,
     printed (traced st [EvBind addr])
       ["OSError: [Errno 98] Address already in use. Try a different port using the -p flag."]).
Proof.
  intros Hport Hbind Huse.
  rewrite start_httpd_eq, server_class_of_eq, Hbind, Huse, Hport, exit_eq.
  unfold is_in_use in Huse. apply andb_true_iff in Huse as [_ Hstr].
  apply String.eqb_eq in Hstr. unfold diagnostic. rewrite Hstr. reflexivity.
Qed.

Lemma start_httpd_explicit_port_in_use_witness :
  start_httpd (server_class_of (offline [8080]) (with_port 8080) Python36)
    (EmptyString, 8080) (handler_class_of (with_port 8080) Python36)
    (with_port 8080) home_only =
  (Raise system_exit,
   printed (traced home_only [EvBind (EmptyString, 8080)])
     ["OSError: [Errno 98] Address already in use. Try a different port using the -p flag."]).
Proof.
  apply (start_httpd_explicit_port_in_use (offline [8080]) (with_port 8080)
           Python36 (EmptyString, 8080) _ home_only 8080 address_in_use);
    reflexivity.
Defined.

(** C1 (as stated) fails: with port 8080 requested and occupied, the
    process leaves through [SystemExit] with [code] [None], which is exit
    status 0, and the one line printed does not contain 8080. *)
Lemma start_httpd_explicit_port_counterexample :
  ∃ e st',
    start_httpd (server_class_of (offline [8080]) (with_port 8080) Python36)
      (server_address_of (offline [8080]) (with_port 8080) Python36)
      (handler_class_of (with_port 8080) Python36)
      (with_port 8080) home_only = (Raise e, st')
    ∧ exit_status e = 0
    ∧ stdout st' =
        ["OSError: [Errno 98] Address already in use. Try a different port using the -p flag."]
    ∧ Forall (λ line, mentions (str_int 8080) line = false) (stdout st').
Proof.
  eexists _, _. split; [vm_compute; reflexivity|].
  split; [reflexivity|]. split; [reflexivity|].
  repeat constructor.
Qed.

(** C2 (as the code has it): with no port requested the first candidate
    is 7447; when the [n] ports from 7447 on are occupied in the way
    [start_httpd] recognises (an [OSError] whose text is that of errno
    98), none of them above 7500, and the next one is free,
    [start_httpd] tries exactly these [n + 1] ports in order and returns
    the server bound to the last. *)
Theorem start_httpd_next_free_port w args b handler st (n : nat) :
  port args = None →
  (∀ i : nat, (i < n)%nat → busy w (host_of w b, 7447 + Z.of_nat i)) →
  7447 + Z.of_nat n - 1 ≤ 7500 →
  sock_bind w (host_of w b, 7447 + Z.of_nat n) = None →
  server_address_of w args b = (host_of w b, 7447)
  ∧ start_httpd (server_class_of w args b) (server_address_of w args b)
      handler args st =
    (Return {| socket := (host_of w b, 7447 + Z.of_nat n);
               RequestHandlerClass := handler;
               directory := directory (httpd_of args b (host_of w b, 7447)) |},
     traced st (attempts (host_of w b) 7447 (S n))).
Proof.
  intros Hport Hbusy Hle Hfree.
  assert (Haddr : server_address_of w args b = (host_of w b, 7447)).
  { unfold server_address_of, port_or_default. by rewrite Hport. }
  split; [exact Haddr|]. rewrite Haddr.
  rewrite (start_httpd_busy_run w args b (host_of w b) handler n 7447 st
             Hport Hbusy Hle).
  rewrite start_httpd_eq, server_class_of_eq, Hfree, traced_traced.
  f_equal. f_equal.
  unfold attempts. rewrite seq_S, map_app. reflexivity.
Qed.

Lemma start_httpd_next_free_port_witness :
  start_httpd (server_class_of (offline [7447; 7448]) no_port Python38)
    (server_address_of (offline [7447; 7448]) no_port Python38)
    (handler_class_of no_port Python38) no_port home_only =
  (Return {| socket := ("::", 7449);
             RequestHandlerClass := handler_class_of no_port Python38;
             directory := None |},
   traced home_only [EvBind ("::", 7447); EvBind ("::", 7448);
                     EvBind ("::", 7449)]).
Proof.
  refine (proj2 (start_httpd_next_free_port (offline [7447; 7448]) no_port
                   Python38 _ home_only 2 _ _ _ _)).
  - reflexivity.
  - intros [|[|i]] Hi; [eexists; split; reflexivity ..| lia].
  - simpl. lia.
  - reflexivity.
Defined.

(** C2 (as stated) fails: on a machine that reports an occupied port as
    errno 48, with no port requested and port 7447 occupied (below the
    ceiling, 7448 free), [start_httpd] does not go on to the next port:
    it raises the error of the bind after the one attempt. *)
Lemma start_httpd_next_free_port_counterexample :
  port no_port = None
  ∧ sock_bind (offline_bsd [7447]) (server_address_of (offline_bsd [7447])
                                      no_port Python36)
    = Some (os_error OSError 48 "Address already in use")
  ∧ sock_bind (offline_bsd [7447]) (EmptyString, 7448) = None
  ∧ start_httpd (server_class_of (offline_bsd [7447]) no_port Python36)
      (server_address_of (offline_bsd [7447]) no_port Python36)
      (handler_class_of no_port Python36) no_port home_only
    = (Raise (os_error OSError 48 "Address already in use"),
       traced home_only [EvBind (EmptyString, 7447)]).
Proof. repeat split; reflexivity. Qed.

(** C3: a bind attempt on a port above 7500 that finds it occupied ends
    the negotiation, whether or not a port was requested: the attempt is
    the last, the line is printed and the process exits. *)
Theorem start_httpd_above_ceiling w args b addr handler st :
  addr.2 > 7500 →
  busy w addr →
  start_httpd (server_class_of w args b) addr handler args st =
    (Raise system_exit,
     printed (traced st [EvBind addr])
       ["OSError: [Errno 98] Address already in use. Try a different port using the -p flag."]).
Proof.
  intros Hgt (error & Hbind & Huse).
  rewrite start_httpd_eq, server_class_of_eq, Hbind, Huse, exit_eq.
  destruct (Z.gtb_spec addr.2 7500); [|lia].
  unfold is_in_use in Huse. apply andb_true_iff in Huse as [_ Hstr].
  apply String.eqb_eq in Hstr. unfold diagnostic. rewrite Hstr.
  destruct (port args); reflexivity.
Qed.

Lemma start_httpd_above_ceiling_witness :
  start_httpd (server_class_of (offline [7501]) no_port Python36)
    (EmptyString, 7501) (handler_class_of no_port Python36) no_port home_only =
  (Raise system_exit,
   printed (traced home_only [EvBind (EmptyString, 7501)])
     ["OSError: [Errno 98] Address already in use. Try a different port using the -p flag."]).
Proof.
  apply (start_httpd_above_ceiling (offline [7501]) no_port Python36
           (EmptyString, 7501)).
  - simpl. lia.
  - eexists; split; reflexivity.
Defined.

(** C5: a bind failure that is not the address being in use leaves
    [start_httpd] as the very exception the socket raised, after the one
    attempt, with nothing printed. *)
Theorem start_httpd_other_error_propagates w args b addr handler st error :
  sock_bind w addr = Some error →
  is_in_use error = false →
  start_httpd (server_class_of w args b) addr handler args st =
    (Raise error, traced st [EvBind addr]).
Proof.
  intros Hbind Huse.
  by rewrite start_httpd_eq, server_class_of_eq, Hbind, Huse.
Qed.

Lemma start_httpd_other_error_propagates_witness :
  start_httpd (server_class_of unprivileged (with_port 80) Python38)
    ("::", 80) (handler_class_of (with_port 80) Python38) (with_port 80)
    home_only =
  (Raise permission_denied, traced home_only [EvBind ("::", 80)]).
Proof.
  apply (start_httpd_other_error_propagates unprivileged (with_port 80)
           Python38 ("::", 80)); reflexivity.
Defined.

(** The error a BSD kernel reports for an occupied port is not the one
    [start_httpd] recognises: there it propagates like any other. *)
Lemma bsd_in_use_not_recognised : is_in_use address_in_use_bsd = false.
Proof. reflexivity. Qed.

(** The strict comparison lets port 7501 be tried once. *)
Lemma start_httpd_tries_7501 :
  (start_httpd (server_class_of (offline [7500]) no_port Python36)
     (EmptyString, 7500) (handler_class_of no_port Python36) no_port
     home_only).1 =
  Return (httpd_of no_port Python36 (EmptyString, 7501)).
Proof. reflexivity. Qed.

(** ** The socket option of DualStackServer *)

Lemma socket_unbound :
  existsb (λ scope, bound_in scope "socket") server_bind_scopes = false.
Proof. reflexivity. Qed.

Lemma setsockopt_v6only_off_raises st :
  setsockopt_v6only_off st =
  (Raise {| cls := NameError; str := "name 'socket' is not defined";
            code := None |}, st).
Proof. reflexivity. Qed.

(** C9: in [DualStackServer.server_bind] the name [socket] is bound in
    no scope, so evaluating the arguments of [setsockopt] raises
    [NameError] before the call; [suppress(Exception)] swallows it, and
    the method goes on as the inherited [server_bind]: same result, one
    bind attempt in the trace and no socket option set. *)
Theorem DualStackServer_server_bind_sets_no_option w addr st :
  existsb (λ scope, bound_in scope "socket") server_bind_scopes = false
  ∧ (∃ e, setsockopt_v6only_off st = (Raise e, st) ∧ cls e = NameError
          ∧ isinstance e Exception = true)
  ∧ suppress [Exception] setsockopt_v6only_off st = (Return tt, st)
  ∧ DualStackServer_server_bind w addr st = HTTPServer_server_bind w addr st
  ∧ trace (DualStackServer_server_bind w addr st).2
    = (trace st ++ [EvBind addr])%list.
Proof.
  split; [reflexivity|]. split.
  { eexists. split; [apply setsockopt_v6only_off_raises|]. by split. }
  split; [reflexivity|]. split; [reflexivity|].
  unfold DualStackServer_server_bind, HTTPServer_server_bind, suppress,
    try_except, bind, emit; simpl.
  destruct (sock_bind w addr); reflexivity.
Qed.

(** ** The reachability probe *)

Lemma try_except_return {A} (body : M A) C handler st a st' :
  body st = (Return a, st') → try_except body C handler st = (Return a, st').
Proof. unfold try_except. by intros ->. Qed.

Lemma try_except_caught {A} (body : M A) C handler st e st' :
  body st = (Raise e, st') → existsb (isinstance e) C = true →
  try_except body C handler st = handler e st'.
Proof. unfold try_except. by intros -> ->. Qed.

Lemma try_except_uncaught {A} (body : M A) C handler st e st' :
  body st = (Raise e, st') → existsb (isinstance e) C = false →
  try_except body C handler st = (Raise e, st').
Proof. unfold try_except. by intros -> ->. Qed.

(** Whatever the network answers, a result of [get_public_ip] carries the
    port it was given, and its host is the one given or the echoed one. *)
Lemma get_public_ip_port w host port st r st' :
  get_public_ip w host port st = (Return r, st') → r.2 = port.
Proof.
  unfold get_public_ip, bind at 1.
  destruct (try_except _ _ _ st) as [[h|e] st1]; simpl; [|discriminate].
  by intros [= <- _].
Qed.

(** When the echo answers, its body decodes, and the confirmation
    answers 200, the echoed host is reported. *)
Lemma get_public_ip_confirmed w host port st body r2 :
  urlopen_answer w ipify_url = answer body 200 →
  utf8_valid body = true →
  urlopen_answer w
    ("http://" +:+ string_of_list_byte body +:+ ":" +:+ str_int port +:+ "/")
    = Return r2 →
  getcode r2 = 200 →
  (get_public_ip w host port st).1 = Return (string_of_list_byte body, port).
Proof.
  intros Hecho Hvalid Hconfirm Hcode.
  unfold get_public_ip, bind, try_except, urlopen, emit, response_read,
    decode_utf8, ret; cbn -[String.append].
  rewrite Hecho; cbn -[String.append]. rewrite Hvalid; cbn -[String.append].
  rewrite Hconfirm; cbn -[String.append]. by rewrite Hcode.
Qed.

(** When either request raises [URLError] (or [HTTPError], its subclass,
    which [urlopen] raises for an error status), the given host is
    reported. *)
Lemma get_public_ip_echo_url_error w host port st e :
  urlopen_answer w ipify_url = Raise e →
  isinstance e URLError = true →
  (get_public_ip w host port st).1 = Return (host, port).
Proof.
  intros Hecho Hinst.
  unfold get_public_ip, bind, try_except, urlopen, emit, ret, raise; simpl.
  rewrite Hecho; simpl. by rewrite Hinst.
Qed.

(** An exception that is not a [URLError] leaves [get_public_ip]. *)
Lemma get_public_ip_echo_other_error w host port st e :
  urlopen_answer w ipify_url = Raise e →
  isinstance e URLError = false →
  (get_public_ip w host port st).1 = Raise e.
Proof.
  intros Hecho Hinst.
  unfold get_public_ip, bind, try_except, urlopen, emit, ret, raise; simpl.
  rewrite Hecho; simpl. by rewrite Hinst.
Qed.

(** The probe on sample networks: confirmed, refused at the
    confirmation, answered with another status. *)
Lemma get_public_ip_samples :
  (get_public_ip (online (answer [Byte.x31; Byte.x2e; Byte.x32] 200)
                    (answer [] 200)) "0.0.0.0" 7447 home_only).1
  = Return ("1.2", 7447)
  ∧ (get_public_ip (online (answer [Byte.x31; Byte.x2e; Byte.x32] 200)
                      (Raise url_error)) "0.0.0.0" 7447 home_only).1
    = Return ("0.0.0.0", 7447)
  ∧ (get_public_ip (online (answer [Byte.x31; Byte.x2e; Byte.x32] 200)
                      (answer [] 204)) "0.0.0.0" 7447 home_only).1
    = Return ("0.0.0.0", 7447)
  ∧ (get_public_ip (offline []) "0.0.0.0" 7447 home_only).1
    = Return ("0.0.0.0", 7447).
Proof. repeat split; reflexivity. Qed.

(** C4 fails on the code: when the echo service answers with a body that
    is not UTF-8 (here the single byte 0xff), [decode] raises
    [UnicodeDecodeError], which is not a [URLError], and [get_public_ip]
    raises it to its caller instead of returning the given host. *)
Theorem get_public_ip_raises_on_undecodable_body :
  get_public_ip (online (answer [Byte.xff] 200) (answer [] 200))
    "0.0.0.0" 7447 home_only =
  (Raise {| cls := UnicodeDecodeError;
            str := "'utf-8' codec can't decode bytes"; code := None |},
   traced home_only [EvUrlopen ipify_url 5]).
Proof. reflexivity. Qed.

(** The same happens when the body of the echo does not arrive within
    the timeout: [read] raises [socket.timeout], an [OSError] that is not
    a [URLError]. *)
Lemma get_public_ip_raises_on_read_timeout :
  (get_public_ip (online stalled (answer [] 200)) "0.0.0.0" 7447 home_only).1
  = Raise {| cls := socket_timeout; str := "timed out"; code := None |}.
Proof. reflexivity. Qed.

(** ** The connection loop *)

Lemma handle_loop_eq log self :
  handle_loop log self =
  if close_connection self then (Return tt, self)
  else match handle_one_request log self with
       | (Return _, self') => handle_loop log self'
       | (Raise e, self') => (Raise e, self')
       end.
Proof.
  funelim (handle_loop log self);
    repeat match goal with
    | H : close_connection _ = _ |- _ => progress (rewrite H)
    | H : handle_one_request _ _ = _ |- _ => progress (rewrite H)
    end; reflexivity.
Qed.

(** The loop on a connection still open, with the [log_message] of
    [CustomHTTPHandler]. *)
Lemma handle_loop_spec (connection : list exchange) :
  ∀ (cl : bool) (hd err : list string),
  let r := handle_loop log_message
             {| close_connection := cl; rfile := connection;
                handled := hd; stderr := err |} in
  handled r.2
    = (hd ++ if cl then [] else requests_until_close connection)%list
  ∧ stderr r.2 = err
  ∧ r.1 = if cl then Return tt
          else match fault_met connection with
               | Some e => Raise e
               | None => Return tt
               end.
Proof.
  induction connection as [|[target keep_alive answer|e] rest IH];
    intros cl hd err; simpl; rewrite handle_loop_eq; simpl;
    destruct cl; simpl; try (by rewrite ?app_nil_r).
  - destruct answer as [|code]; unfold handle_one_request; simpl.
    + specialize (IH (negb keep_alive) (hd ++ [target])%list err).
      change (log_message err target) with err. simpl in IH.
      destruct IH as (IH1 & IH2 & IH3). rewrite IH1, IH2, IH3.
      destruct keep_alive; simpl; rewrite <- app_assoc; done.
    + rewrite handle_loop_eq; simpl. by destruct keep_alive.
  - unfold handle_one_request; simpl.
    destruct (isinstance e socket_timeout); simpl.
    + rewrite handle_loop_eq; simpl. by rewrite app_nil_r.
    + by rewrite app_nil_r.
Qed.

(** C7 (as the code has it): on an accepted connection [handle] answers the
    requests one after the other while the client keeps the connection
    alive and the answer is not an error response, and stops after the
    first request that asks to close or is refused, or at the end of the
    connection; a [ConnectionResetError] or [BrokenPipeError] met on the
    way ends [handle] normally, any other failure leaves it; and nothing
    is ever written to the log. *)
Theorem handle_serves_until_close (connection : list exchange) :
  let r := handle (accept connection) in
  handled r.2 = requests_until_close connection
  ∧ stderr r.2 = []
  ∧ r.1 = match fault_met connection with
          | Some e =>
              if isinstance e ConnectionResetError
                 || isinstance e BrokenPipeError
              then Return tt else Raise e
          | None => Return tt
          end.
Proof.
  unfold handle, handle_with, accept; simpl.
  destruct connection as [|[target keep_alive answer|e] rest]; simpl.
  - rewrite handle_loop_eq; simpl. done.
  - destruct answer as [|code]; unfold handle_one_request; simpl.
    + pose proof (handle_loop_spec rest (negb keep_alive) [target] []) as IH.
      simpl in IH. change (log_message [] target) with (@nil string).
      destruct (handle_loop _ _) as [[[]|e] self'] eqn:Hloop; simpl in *;
        destruct IH as (IH1 & IH2 & IH3); destruct keep_alive; simpl in *;
        try discriminate.
      * rewrite IH1, IH2. destruct (fault_met rest); [discriminate|done].
      * rewrite IH1, IH2. done.
      * destruct (fault_met rest) as [e'|]; [|discriminate].
        injection IH3 as <-. rewrite orb_false_r.
        destruct (isinstance e ConnectionResetError
                  || isinstance e BrokenPipeError);
          simpl; rewrite ?IH1, ?IH2; done.
    + rewrite handle_loop_eq; simpl. by destruct keep_alive.
  - unfold handle_one_request; simpl.
    destruct (isinstance e socket_timeout); simpl.
    + rewrite handle_loop_eq; simpl. done.
    + rewrite orb_false_r.
      destruct (isinstance e ConnectionResetError || isinstance e BrokenPipeError);
        simpl; done.
Qed.

(** C7 (as stated) fails: a client asks for a page that is not there and
    keeps the connection alive, then asks for another; the error
    response closes the connection, and the second request, which the
    specification has processed, is never read. *)
Lemma handle_serves_until_close_counterexample :
  requests_while_kept_alive
    [Request "/missing" true (Refused 404); Request "/next" true Served]
  = ["/missing"; "/next"]
  ∧ handle (accept [Request "/missing" true (Refused 404);
                    Request "/next" true Served])
    = (Return tt, {| close_connection := true;
                     rfile := [Request "/next" true Served];
                     handled := ["/missing"]; stderr := [] |}).
Proof. split; reflexivity. Qed.

(** The library's own [log_message] would write a line for each request,
    and one more for each error response. *)
Lemma base_class_logs :
  stderr (handle_with BaseHTTPRequestHandler_log_message
            (accept [Request "/" true Served;
                     Request "/html/" true (Refused 404)])).2
  = ["/"; "code 404"; "/html/"].
Proof. reflexivity. Qed.

Lemma handle_absorbs_reset :
  handle (accept [Request "/" true Served;
                  Fault (os_error ConnectionResetError 104
                           "Connection reset by peer");
                  Request "/html/" true Served])
  = (Return tt, {| close_connection := false;
                   rfile := [Request "/html/" true Served];
                   handled := ["/"]; stderr := [] |}).
Proof. reflexivity. Qed.

(** ** Strings and paths *)

Lemma app_empty_r (s : string) : s +:+ EmptyString = s.
Proof. induction s; simpl; congruence. Qed.

Lemma app_assoc_s (a b c : string) : (a +:+ b) +:+ c = a +:+ b +:+ c.
Proof. induction a; simpl; congruence. Qed.

Lemma is_empty_true s : is_empty s = true → s = EmptyString.
Proof. by destruct s. Qed.

Lemma split_not_nil s : split s ≠ [].
Proof.
  destruct s as [|c s]; simpl; [done|].
  destruct (is_sep c); [done|]. by destruct (split s).
Qed.

Lemma split_app_sep a b :
  split (a +:+ String "/" b) = (split a ++ split b)%list.
Proof.
  induction a as [|c a IH]; simpl; [reflexivity|].
  destruct (is_sep c); [by rewrite IH|].
  rewrite IH. pose proof (split_not_nil a). by destruct (split a).
Qed.

Lemma split_snoc_sep a : split (a +:+ "/") = (split a ++ [EmptyString])%list.
Proof. apply (split_app_sep a EmptyString). Qed.

Lemma split_no_sep word : has_sep word = false → split word = [word].
Proof.
  induction word as [|c word IH]; simpl; [done|].
  intros [Hc Hw]%orb_false_iff. rewrite Hc, (IH Hw). reflexivity.
Qed.

Lemma split_parts_no_sep s : Forall (λ word, has_sep word = false) (split s).
Proof.
  induction s as [|c s IH]; simpl; [by repeat constructor|].
  destruct (is_sep c) eqn:Hc; [by constructor|].
  pose proof (split_not_nil s). destruct (split s) as [|word rest]; [done|].
  inversion IH; subst. constructor; [|done]. simpl. by rewrite Hc.
Qed.

Lemma plain_spec word :
  plain word = true ↔
  word ≠ EmptyString ∧ has_sep word = false ∧ word ≠ "." ∧ word ≠ "..".
Proof.
  unfold plain, posixpath.curdir, posixpath.pardir.
  rewrite !andb_true_iff, !negb_true_iff, !String.eqb_neq. split.
  - intros [[[H1 H2] H3] H4]. repeat split; try done. by intros ->.
  - intros (H1 & H2 & H3 & H4). repeat split; try done. by destruct word.
Qed.

Lemma plain_not_startswith word : plain word = true → startswith_sep word = false.
Proof.
  intros (_ & Hsep & _)%plain_spec. destruct word; simpl in *; [done|].
  by apply orb_false_iff in Hsep as [-> _].
Qed.

Lemma split_join_sep words :
  Forall (λ word, plain word = true) words → words ≠ [] →
  split (join_sep words) = words.
Proof.
  induction 1 as [|word rest Hw Hrest IH]; [done|]; intros _.
  apply plain_spec in Hw as (_ & Hsep & _).
  destruct rest as [|word' rest].
  - by apply split_no_sep.
  - change (split (word +:+ String "/" (join_sep (word' :: rest)))
            = word :: word' :: rest).
    rewrite split_app_sep, (split_no_sep _ Hsep), IH; done.
Qed.

Lemma join_sep_snoc words word :
  words ≠ [] →
  join_sep (words ++ [word]) = join_sep words +:+ String "/" word.
Proof.
  induction words as [|w rest IH]; [done|]; intros _.
  destruct rest as [|w' rest]; [reflexivity|].
  change (w +:+ String "/" (join_sep ((w' :: rest) ++ [word]))
          = (w +:+ String "/" (join_sep (w' :: rest))) +:+ String "/" word).
  rewrite IH, app_assoc_s; done.
Qed.

Lemma endswith_sep_app a b :
  b ≠ EmptyString → endswith_sep (a +:+ b) = endswith_sep b.
Proof.
  intros Hb. induction a as [|c a IH]; simpl; [reflexivity|].
  rewrite IH. destruct (a +:+ b) eqn:Hab; [|reflexivity].
  destruct a; simpl in Hab; [done|discriminate].
Qed.

Lemma endswith_sep_inv s :
  endswith_sep s = true → ∃ s', s = s' +:+ "/".
Proof.
  induction s as [|c s IH]; simpl; [done|].
  destruct s as [|c' s].
  - unfold is_sep. intros ->%Ascii.eqb_eq. by exists EmptyString.
  - intros [s' Hs']%IH. exists (String c s'). simpl. by rewrite Hs'.
Qed.

Lemma endswith_sep_no_sep word :
  has_sep word = false → endswith_sep word = false.
Proof.
  induction word as [|c word IH]; simpl; [done|].
  intros [Hc Hw]%orb_false_iff. destruct word; [done|]. by apply IH.
Qed.

Lemma endswith_sep_plain_end pre word :
  plain word = true → endswith_sep (pre +:+ word) = false.
Proof.
  intros (Hne & Hsep & _)%plain_spec.
  rewrite endswith_sep_app; [|done]. by apply endswith_sep_no_sep.
Qed.

Lemma norm_step_plain absolute acc word :
  plain word = true →
  posixpath.norm_step absolute acc word = (acc ++ [word])%list.
Proof.
  intros (Hne & _ & Hdot & Hdotdot)%plain_spec.
  unfold posixpath.norm_step, posixpath.curdir, posixpath.pardir.
  apply String.eqb_neq in Hdot, Hdotdot. rewrite Hdot, Hdotdot.
  by destruct word.
Qed.

Lemma fold_norm_plain absolute words : ∀ acc,
  Forall (λ word, plain word = true) words →
  fold_left (posixpath.norm_step absolute) words acc = (acc ++ words)%list.
Proof.
  induction words as [|word words IH]; intros acc Hall; simpl.
  - by rewrite app_nil_r.
  - inversion Hall; subst. rewrite norm_step_plain, IH, <- app_assoc; done.
Qed.

Lemma Forall_plain_removelast (acc : list string) :
  Forall (λ word, plain word = true) acc →
  Forall (λ word, plain word = true) (removelast acc).
Proof.
  induction 1 as [|word acc Hw Hacc IH]; simpl; [constructor|].
  destruct acc; [constructor|]. by constructor.
Qed.

Lemma norm_step_abs_plain acc comp :
  has_sep comp = false →
  Forall (λ word, plain word = true) acc →
  Forall (λ word, plain word = true) (posixpath.norm_step true acc comp).
Proof.
  intros Hsep Hacc. unfold posixpath.norm_step.
  destruct (is_empty comp) eqn:Hempty; simpl; [done|].
  destruct (String.eqb comp posixpath.curdir) eqn:Hdot; [done|].
  destruct (String.eqb comp posixpath.pardir) eqn:Hdotdot; simpl.
  - destruct (last acc) as [c|] eqn:Hlast;
      [|by apply Forall_plain_removelast].
    destruct (String.eqb c posixpath.pardir) eqn:Hc;
      [|by apply Forall_plain_removelast].
    apply last_Some in Hlast as [acc' ->].
    apply Forall_app in Hacc as [_ Hc']. inversion Hc' as [|? ? Hplain]; subst.
    apply plain_spec in Hplain as (_ & _ & _ & Hne).
    by apply String.eqb_eq in Hc.
  - apply Forall_app. split; [done|]. constructor; [|constructor].
    apply plain_spec. apply String.eqb_neq in Hdot, Hdotdot.
    repeat split; try done. by intros ->.
Qed.

Lemma norm_comps_abs_plain path :
  posixpath.isabs path = true →
  Forall (λ word, plain word = true) (posixpath.norm_comps path).
Proof.
  intros Habs. unfold posixpath.norm_comps. rewrite Habs.
  pose proof (split_parts_no_sep path) as Hparts.
  assert (Hgen : ∀ comps acc,
    Forall (λ word, has_sep word = false) comps →
    Forall (λ word, plain word = true) acc →
    Forall (λ word, plain word = true)
      (fold_left (posixpath.norm_step true) comps acc)).
  { induction comps as [|comp comps IH]; intros acc Hc Hacc; simpl; [done|].
    inversion Hc; subst. apply IH; [done|]. by apply norm_step_abs_plain. }
  by apply Hgen.
Qed.

Lemma isabs_join2 d rel :
  startswith_sep rel = false →
  posixpath.isabs (posixpath.join2 d rel) = posixpath.isabs d.
Proof.
  intros Hrel. unfold posixpath.join2. rewrite Hrel.
  destruct d as [|c d]; [exact Hrel|].
  destruct (is_empty (String c d) || endswith_sep (String c d)); reflexivity.
Qed.

Lemma norm_step_empty absolute acc :
  posixpath.norm_step absolute acc EmptyString = acc.
Proof. reflexivity. Qed.

Lemma norm_comps_join2 d rel :
  startswith_sep rel = false →
  posixpath.norm_comps (posixpath.join2 d rel) =
  fold_left (posixpath.norm_step (posixpath.isabs d)) (split rel)
    (posixpath.norm_comps d).
Proof.
  intros Hrel. unfold posixpath.norm_comps. rewrite (isabs_join2 _ _ Hrel).
  unfold posixpath.join2. rewrite Hrel.
  destruct (is_empty d) eqn:Hd; simpl.
  - apply is_empty_true in Hd as ->. reflexivity.
  - destruct (endswith_sep d) eqn:Hend.
    + apply endswith_sep_inv in Hend as [d' ->].
      rewrite app_assoc_s. simpl.
      rewrite split_app_sep, split_snoc_sep, !fold_left_app. simpl.
      replace (posixpath.isabs (d' +:+ "/")) with (posixpath.isabs (d' +:+ String "/" rel)); [done|].
      by destruct d'.
    + rewrite split_app_sep, fold_left_app. reflexivity.
Qed.

Lemma join2_not_empty d rel :
  d ≠ EmptyString → posixpath.join2 d rel ≠ EmptyString.
Proof.
  intros Hd. unfold posixpath.join2.
  destruct (startswith_sep rel) eqn:Hrel; [by destruct rel|].
  destruct d as [|c d]; [done|].
  destruct (is_empty (String c d) || endswith_sep (String c d)); done.
Qed.

Lemma norm_comps_snoc_sep path :
  path ≠ EmptyString →
  posixpath.isabs (path +:+ "/") = posixpath.isabs path
  ∧ posixpath.norm_comps (path +:+ "/") = posixpath.norm_comps path.
Proof.
  intros Hne. assert (Habs : posixpath.isabs (path +:+ "/") = posixpath.isabs path)
    by by destruct path.
  split; [done|]. unfold posixpath.norm_comps.
  by rewrite Habs, split_snoc_sep, fold_left_app.
Qed.

(** The library's fold over the kept words, from any base. *)
Lemma fold_join_words (words : list string) : ∀ base,
  Forall (λ word, plain word = true) words →
  let p := fold_left (λ acc word, posixpath.join acc [word]) words base in
  posixpath.isabs p = posixpath.isabs base
  ∧ posixpath.norm_comps p = (posixpath.norm_comps base ++ words)%list
  ∧ (base ≠ EmptyString → p ≠ EmptyString).
Proof.
  induction words as [|word words IH]; intros base Hall; simpl.
  - by rewrite app_nil_r.
  - inversion Hall as [|? ? Hword Hwords]; subst.
    destruct (IH (posixpath.join2 base word) Hwords) as (IH1 & IH2 & IH3).
    pose proof (plain_not_startswith _ Hword) as Hstart.
    unfold posixpath.join in *. simpl in IH1, IH2, IH3.
    rewrite IH1, IH2, (isabs_join2 _ _ Hstart), (norm_comps_join2 _ _ Hstart).
    apply plain_spec in Hword as Hw. destruct Hw as (_ & Hsep & _).
    rewrite (split_no_sep _ Hsep). simpl.
    rewrite norm_step_plain, <- app_assoc; [|done].
    repeat split; [done..|]. intros Hbase. apply IH3.
    by apply join2_not_empty.
Qed.

Lemma filter_nonempty_plain (words : list string) :
  Forall (λ word, plain word = true) words →
  filter (λ x, negb (is_empty x) = true) words = words.
Proof.
  induction 1 as [|word words Hw Hwords IH]; [done|].
  rewrite filter_cons, IH. apply plain_spec in Hw as (Hne & _).
  destruct word; [done|]. reflexivity.
Qed.

Lemma nonempty_parts_slashes (n : nat) (words : list string) :
  Forall (λ word, plain word = true) words →
  posixpath.nonempty_parts (posixpath.slashes n +:+ join_sep words) = words.
Proof.
  intros Hall. unfold posixpath.nonempty_parts.
  assert (Hjoin : filter (λ x, negb (is_empty x) = true)
                    (split (join_sep words)) = words).
  { destruct words as [|word words]; [reflexivity|].
    rewrite split_join_sep; [|done..]. by apply filter_nonempty_plain. }
  destruct n as [|[|n]]; simpl.
  - exact Hjoin.
  - rewrite filter_cons. exact Hjoin.
  - rewrite !filter_cons. exact Hjoin.
Qed.

Lemma initial_slashes_abs path :
  posixpath.isabs path = true → posixpath.initial_slashes path ≠ 0%nat.
Proof.
  destruct path as [|c0 [|c1 [|c2 path]]]; simpl; try done;
    intros ->; try done; destruct (is_sep c1); try done;
    by destruct (is_sep c2).
Qed.

(** For an absolute path, the components of [abspath] are those that
    [normpath] keeps. *)
Lemma nonempty_parts_abspath cwd path :
  posixpath.isabs path = true →
  posixpath.nonempty_parts (posixpath.abspath cwd path)
  = posixpath.norm_comps path.
Proof.
  intros Habs. unfold posixpath.abspath, posixpath.normpath. rewrite Habs.
  pose proof (initial_slashes_abs _ Habs) as Hinit.
  pose proof (norm_comps_abs_plain _ Habs) as Hplain.
  destruct path as [|c path]; [done|]. cbn [is_empty].
  destruct (posixpath.initial_slashes (String c path)) as [|n]; [done|].
  replace (is_empty (posixpath.slashes (S n) +:+ _)) with false
    by by destruct n.
  by apply nonempty_parts_slashes.
Qed.

Lemma commonprefix_app (l1 l2 : list string) :
  posixpath.commonprefix l1 (l1 ++ l2) = l1.
Proof.
  induction l1 as [|a l1 IH]; simpl; [by destruct l2|].
  by rewrite String.eqb_refl, IH.
Qed.

Lemma join_sep_plain_end (words : list string) :
  Forall (λ word, plain word = true) words → words ≠ [] →
  is_empty (join_sep words) = false ∧ endswith_sep (join_sep words) = false
  ∧ startswith_sep (join_sep words) = false.
Proof.
  induction 1 as [|word rest Hw Hrest IH]; [done|]; intros _.
  pose proof (plain_not_startswith _ Hw) as Hstart.
  apply plain_spec in Hw as (Hne & Hsep & _).
  destruct rest as [|word' rest].
  - simpl. repeat split; [by destruct word| by apply endswith_sep_no_sep|done].
  - destruct IH as (IH1 & IH2 & _); [done|].
    change (join_sep (word :: word' :: rest))
      with (word +:+ String "/" (join_sep (word' :: rest))).
    repeat split.
    + by destruct word.
    + rewrite endswith_sep_app; [|discriminate].
      cbn [endswith_sep]. destruct (join_sep (word' :: rest)); done.
    + by destruct word.
Qed.

(** [join] of plain names is the names joined by the separator. *)
Lemma join_plain (words : list string) : ∀ (done_ : list string),
  Forall (λ word, plain word = true) done_ → done_ ≠ [] →
  Forall (λ word, plain word = true) words →
  posixpath.join (join_sep done_) words = join_sep (done_ ++ words).
Proof.
  unfold posixpath.join.
  induction words as [|word words IH]; intros done_ Hdone Hne Hall; simpl.
  - by rewrite app_nil_r.
  - inversion Hall as [|? ? Hword Hwords]; subst.
    destruct (join_sep_plain_end done_ Hdone Hne) as (Hempty & Hend & _).
    unfold posixpath.join2 at 2.
    rewrite (plain_not_startswith _ Hword), Hempty, Hend. simpl.
    rewrite <- join_sep_snoc by done.
    rewrite IH; [by rewrite <- app_assoc| |by destruct done_|done].
    apply Forall_app. split; [done|]. by constructor.
Qed.

Lemma kept_plain word :
  has_sep word = false → is_empty word = false → kept word = true →
  plain word = true.
Proof.
  intros Hsep Hempty Hkept. unfold kept in Hkept. unfold plain.
  apply negb_true_iff, orb_false_iff in Hkept as [Hkept Hdotdot].
  apply orb_false_iff in Hkept as [_ Hdot].
  by rewrite Hsep, Hempty, Hdot, Hdotdot.
Qed.

(** The words the library keeps are plain names, whatever the request
    and whatever [unquote] does. *)
Lemma request_words_plain unquote path :
  Forall (λ word, plain word = true) (request_words unquote path).
Proof.
  unfold request_words, posixpath.nonempty_parts.
  apply Forall_forall. intros word Hin.
  apply list_elem_of_filter in Hin as [Hkept Hin].
  apply list_elem_of_filter in Hin as [Hne Hin].
  pose proof (split_parts_no_sep
    (posixpath.normpath (unquote (before "#" (before "?" path))))) as Hparts.
  rewrite Forall_forall in Hparts.
  apply kept_plain; [by apply Hparts| by apply negb_true_iff|done].
Qed.

(** ** Path translation *)

(** What the library's translation yields from a base: the base followed
    by the kept words. *)
Lemma SimpleHTTPRequestHandler_translate_path_spec base unquote path :
  base ≠ EmptyString →
  let p := SimpleHTTPRequestHandler_translate_path base unquote path in
  posixpath.isabs p = posixpath.isabs base
  ∧ posixpath.norm_comps p
    = (posixpath.norm_comps base ++ request_words unquote path)%list.
Proof.
  intros Hbase. unfold SimpleHTTPRequestHandler_translate_path.
  destruct (fold_join_words (request_words unquote path) base
              (request_words_plain unquote path)) as (Habs & Hcomps & Hne).
  destruct (trailing_slash path); [|done].
  destruct (norm_comps_snoc_sep _ (Hne Hbase)) as [-> ->]. done.
Qed.

Lemma relpath_translated w unquote path st :
  posixpath.isabs (getcwd w) = true →
  posixpath.relpath (getcwd w)
    (SimpleHTTPRequestHandler_translate_path (getcwd w) unquote path)
    (getcwd w) st
  = (Return (relative_words (request_words unquote path)), st).
Proof.
  intros Hcwd.
  assert (Hne : getcwd w ≠ EmptyString) by by destruct (getcwd w).
  destruct (SimpleHTTPRequestHandler_translate_path_spec (getcwd w) unquote
              path Hne) as [Habs Hcomps].
  rewrite Hcwd in Habs. unfold posixpath.relpath.
  destruct (SimpleHTTPRequestHandler_translate_path _ _ _) as [|c p] eqn:Hp;
    [done|]. cbn [is_empty].
  rewrite (nonempty_parts_abspath _ _ Hcwd), (nonempty_parts_abspath _ _ Habs).
  rewrite Hcomps, commonprefix_app, Nat.sub_diag, drop_app_length. simpl.
  pose proof (request_words_plain unquote path) as Hplain.
  destruct (request_words unquote path) as [|word words]; [done|].
  inversion Hplain; subst. unfold ret, relative_words. do 2 f_equal.
  apply (join_plain words [word]); [by constructor|done|done].
Qed.

Lemma startswith_relative_words words :
  Forall (λ word, plain word = true) words →
  startswith_sep (relative_words words) = false.
Proof.
  intros Hall. destruct words as [|word words]; [done|].
  by apply join_sep_plain_end.
Qed.

Lemma fold_norm_relative_words absolute words acc :
  Forall (λ word, plain word = true) words →
  fold_left (posixpath.norm_step absolute) (split (relative_words words)) acc
  = (acc ++ words)%list.
Proof.
  intros Hall. destruct words as [|word words].
  - simpl. by rewrite app_nil_r.
  - unfold relative_words. rewrite split_join_sep; [|done..].
    by apply fold_norm_plain.
Qed.

Lemma head_part_no_sep word :
  has_sep word = false → posixpath.head_part word = EmptyString.
Proof.
  induction word as [|c word IH]; simpl; [done|].
  intros [Hc Hw]%orb_false_iff. by rewrite (IH Hw), Hc.
Qed.

Lemma plain_kept word : plain word = true → kept word = true.
Proof.
  intros (_ & Hsep & Hdot & Hdotdot)%plain_spec.
  unfold kept, posixpath.dirname. rewrite (head_part_no_sep _ Hsep). simpl.
  apply String.eqb_neq in Hdot, Hdotdot.
  unfold posixpath.curdir, posixpath.pardir. by rewrite Hdot, Hdotdot.
Qed.

(** The words of an ordinary request: when the path of the request,
    without query and fragment and unquoted, is a slash followed by
    plain names with slashes between them, the words kept are these
    names. *)
Lemma request_words_ordinary unquote path (names : list string) :
  Forall (λ word, plain word = true) names →
  unquote (before "#" (before "?" path)) = "/" +:+ join_sep names →
  request_words unquote path = names.
Proof.
  intros Hnames Hpath. unfold request_words. rewrite Hpath.
  assert (Habs : posixpath.isabs ("/" +:+ join_sep names) = true) by done.
  pose proof (nonempty_parts_abspath EmptyString _ Habs) as Hparts.
  unfold posixpath.abspath in Hparts. rewrite Habs in Hparts.
  rewrite Hparts. unfold posixpath.norm_comps. rewrite Habs.
  change (split ("/" +:+ join_sep names))
    with (EmptyString :: split (join_sep names)).
  cbn [fold_left]. rewrite norm_step_empty.
  assert (Hcomps : fold_left (posixpath.norm_step true)
                     (split (join_sep names)) [] = names).
  { destruct names as [|name names]; [reflexivity|].
    rewrite split_join_sep by done. by rewrite fold_norm_plain. }
  rewrite Hcomps. clear -Hnames.
  induction Hnames as [|name names Hname Hnames IH]; [done|].
  rewrite filter_cons, IH. by rewrite decide_True by (by apply plain_kept).
Qed.

(** C6: for the server that either branch of [start_server] constructs,
    with root directory [thumb_dir], [translate_path] succeeds on every
    request path, and the path it yields is absolute exactly when the
    root is and has for components those of the root followed by the
    words kept from the request, all of them plain names (no separator,
    no [.], no [..]): the working directory does not occur in the
    result, and no request leaves the root.  For an ordinary request, a
    slash followed by plain names with slashes between them (a query or
    fragment after it aside), the words kept are these names: the
    request names the file at that place below the root. *)
Theorem translate_path_under_root w args b addr unquote path st :
  posixpath.isabs (getcwd w) = true →
  thumb_dir args ≠ EmptyString →
  ∃ p, translate_path w (httpd_of args b addr) unquote path st = (Return p, st)
    ∧ posixpath.isabs p = posixpath.isabs (thumb_dir args)
    ∧ posixpath.norm_comps p
      = (posixpath.norm_comps (thumb_dir args)
         ++ request_words unquote path)%list
    ∧ Forall (λ word, plain word = true) (request_words unquote path)
    ∧ ∀ names : list string,
        Forall (λ word, plain word = true) names →
        unquote (before "#" (before "?" path)) = "/" +:+ join_sep names →
        posixpath.norm_comps p
        = (posixpath.norm_comps (thumb_dir args) ++ names)%list.
Proof.
  intros Hcwd Hroot. pose proof (request_words_plain unquote path) as Hplain.
  assert (Hordinary : ∀ names : list string,
            Forall (λ word, plain word = true) names →
            unquote (before "#" (before "?" path)) = "/" +:+ join_sep names →
            (posixpath.norm_comps (thumb_dir args)
             ++ request_words unquote path)%list
            = (posixpath.norm_comps (thumb_dir args) ++ names)%list).
  { intros names Hnames Hpath.
    by rewrite (request_words_ordinary unquote path names Hnames Hpath). }
  destruct b; unfold translate_path, httpd_of, handler_base; simpl.
  - unfold bind. rewrite (relpath_translated w unquote path st Hcwd).
    eexists. split; [reflexivity|].
    pose proof (startswith_relative_words _ Hplain) as Hstart.
    unfold posixpath.join. simpl.
    rewrite (isabs_join2 _ _ Hstart), (norm_comps_join2 _ _ Hstart).
    by rewrite fold_norm_relative_words.
  - eexists. split; [reflexivity|].
    destruct (SimpleHTTPRequestHandler_translate_path_spec (thumb_dir args)
                unquote path Hroot) as [Habs ->].
    done.
Qed.

(** ** The file system *)

Lemma lookup_path_app p q : ∀ n,
  lookup_path (p ++ q) n = lookup_path p n ≫= lookup_path q.
Proof.
  induction p as [|c p IH]; intros n; simpl; [done|].
  destruct n as [?|entries]; [done|].
  destruct (entries !! c); [apply IH|done].
Qed.

Lemma lookup_path_snoc p c n :
  lookup_path (p ++ [c]) n
  = match lookup_path p n with
    | Some (Dir entries) => entries !! c
    | _ => None
    end.
Proof.
  rewrite lookup_path_app. destruct (lookup_path p n) as [[?|entries]|]; simpl;
    [done| |done].
  by destruct (entries !! c).
Qed.

Lemma lookup_insert_at p c new : ∀ root entries,
  lookup_path p root = Some (Dir entries) →
  lookup_path p (insert_at p c new root) = Some (Dir (<[c := new]> entries)).
Proof.
  induction p as [|d p IH]; intros root entries Hp; simpl in *.
  - by injection Hp as ->.
  - destruct root as [?|es]; [done|].
    destruct (es !! d) as [child|] eqn:Hd; [|done].
    simpl. rewrite lookup_insert_eq. by apply IH.
Qed.

Lemma lookup_insert_at_below p c new q : ∀ root entries,
  lookup_path p root = Some (Dir entries) →
  lookup_path (p ++ c :: q) (insert_at p c new root) = lookup_path q new.
Proof.
  induction p as [|d p IH]; intros root entries Hp; simpl in *.
  - injection Hp as ->. simpl. by rewrite lookup_insert_eq.
  - destruct root as [?|es]; [done|].
    destruct (es !! d) as [child|] eqn:Hd; [|done].
    simpl. rewrite lookup_insert_eq. by eapply IH.
Qed.

Lemma extends_refl root : extends root root.
Proof. intros q n Hq. by exists n. Qed.

Lemma extends_trans r1 r2 r3 : extends r1 r2 → extends r2 r3 → extends r1 r3.
Proof.
  intros H12 H23 q n Hq. destruct (H12 q n Hq) as (n2 & Hq2 & Hk2).
  destruct (H23 q n2 Hq2) as (n3 & Hq3 & Hk3). exists n3.
  split; [done|congruence].
Qed.

(** A new entry in a directory leaves what was there in its place. *)
Lemma extends_insert_at p c new : ∀ root entries,
  lookup_path p root = Some (Dir entries) → entries !! c = None →
  extends root (insert_at p c new root).
Proof.
  induction p as [|d p IH]; intros root entries Hp Hc q n Hq; simpl in *.
  - injection Hp as ->. destruct q as [|x q]; simpl in *.
    + injection Hq as <-. by eexists.
    + destruct (decide (x = c)) as [->|Hx]; [by rewrite Hc in Hq|].
      rewrite lookup_insert_ne by done. by exists n.
  - destruct root as [?|es]; [done|].
    destruct (es !! d) as [child|] eqn:Hd; [|done].
    destruct q as [|x q]; simpl in *.
    + injection Hq as <-. by eexists.
    + destruct (decide (x = d)) as [->|Hx].
      * rewrite lookup_insert_eq. rewrite Hd in Hq.
        exact (IH child entries Hp Hc q n Hq).
      * rewrite lookup_insert_ne by done. by exists n.
Qed.

Lemma namei_snoc name root comps c :
  namei name root (comps ++ [c])
  = namei_step name root (namei name root comps) c.
Proof. unfold namei. by rewrite fold_left_app. Qed.

Lemma namei_app name root l1 l2 :
  namei name root (l1 ++ l2)
  = fold_left (namei_step name root) l2 (namei name root l1).
Proof. unfold namei. by rewrite fold_left_app. Qed.

Lemma namei_raise name root comps e :
  fold_left (namei_step name root) comps (Raise e) = Raise e.
Proof. by induction comps. Qed.

(** A step that arrives somewhere started in a directory. *)
Lemma namei_step_found name root at_ c loc :
  namei_step name root at_ c = Return (Found loc) →
  ∃ loc0 entries,
    at_ = Return (Found loc0)
    ∧ lookup_path loc0 root = Some (Dir entries)
    ∧ (c = posixpath.curdir ∧ loc = loc0
       ∨ c = posixpath.pardir ∧ loc = removelast loc0
       ∨ c ≠ posixpath.curdir ∧ c ≠ posixpath.pardir
         ∧ is_Some (entries !! c) ∧ loc = (loc0 ++ [c])%list).
Proof.
  unfold namei_step. destruct at_ as [[loc0|parent x]|e]; [|done..].
  destruct (lookup_path loc0 root) as [[?|entries]|] eqn:Hloc; [done| |done].
  destruct (String.eqb_spec c posixpath.curdir) as [->|Hdot].
  { intros [= <-]. exists loc0, entries. split; [done|]. split; [done|].
    by left. }
  destruct (String.eqb_spec c posixpath.pardir) as [->|Hdotdot].
  { intros [= <-]. exists loc0, entries. split; [done|]. split; [done|].
    right. by left. }
  destruct (entries !! c) as [child|] eqn:Hc; [|done].
  intros [= <-]. exists loc0, entries. split; [done|]. split; [done|].
  right. right. by rewrite Hc.
Qed.

(** The place the kernel arrives at is there. *)
Lemma namei_found_there name root comps : ∀ loc,
  is_Some (lookup_path [] root) →
  namei name root comps = Return (Found loc) →
  is_Some (lookup_path loc root).
Proof.
  induction comps as [|c comps IH] using rev_ind; intros loc Hroot.
  - by intros [= <-].
  - rewrite namei_snoc.
    intros (loc0 & entries & Hat & Hloc0 & Hcase)%namei_step_found.
    destruct Hcase as [[_ ->]|[[_ ->]|(_ & _ & [child Hc] & ->)]].
    + by rewrite Hloc0.
    + destruct loc0 as [|x loc0] using rev_ind; [done|].
      rewrite removelast_last. rewrite lookup_path_app in Hloc0.
      by destruct (lookup_path loc0 root).
    + by rewrite lookup_path_snoc, Hloc0, Hc.
Qed.

Lemma extends_dir root root' loc entries :
  extends root root' → lookup_path loc root = Some (Dir entries) →
  ∃ entries', lookup_path loc root' = Some (Dir entries')
    ∧ ∀ c, is_Some (entries !! c) → is_Some (entries' !! c).
Proof.
  intros Hext Hloc. destruct (Hext loc _ Hloc) as (n' & Hloc' & Hkind).
  destruct n' as [?|entries']; [done|]. exists entries'. split; [done|].
  intros c [child Hc].
  assert (Hq : lookup_path (loc ++ [c]) root = Some child)
    by (by rewrite lookup_path_snoc, Hloc).
  destruct (Hext _ _ Hq) as (n'' & Hq' & _).
  rewrite lookup_path_snoc, Hloc' in Hq'. by rewrite Hq'.
Qed.

(** What the kernel found is found again in a tree that holds more. *)
Lemma namei_extends name name' root root' comps : ∀ loc,
  extends root root' →
  namei name root comps = Return (Found loc) →
  namei name' root' comps = Return (Found loc).
Proof.
  induction comps as [|c comps IH] using rev_ind; intros loc Hext; [done|].
  rewrite !namei_snoc.
  intros (loc0 & entries & Hat & Hloc0 & Hcase)%namei_step_found.
  rewrite (IH loc0 Hext Hat).
  destruct (extends_dir _ _ _ _ Hext Hloc0) as (entries' & Hloc0' & Hsub).
  unfold namei_step. rewrite Hloc0'.
  destruct Hcase as [[-> ->]|[[-> ->]|(Hdot & Hdotdot & Hc & ->)]]; [done..|].
  apply String.eqb_neq in Hdot, Hdotdot. rewrite Hdot, Hdotdot.
  by destruct (Hsub c Hc) as [child' ->].
Qed.

(** Plain names that are there, one in the other, are walked down. *)
Lemma namei_walk_plain name root (names : list string) : ∀ loc,
  Forall (λ word, plain word = true) names →
  is_Some (lookup_path (loc ++ names) root) →
  fold_left (namei_step name root) names (Return (Found loc))
  = Return (Found (loc ++ names)).
Proof.
  induction names as [|x names IH]; intros loc Hall Hthere; simpl.
  - by rewrite app_nil_r.
  - inversion Hall as [|? ? Hx Hnames]; subst.
    apply plain_spec in Hx as (_ & _ & Hdot & Hdotdot).
    apply String.eqb_neq in Hdot, Hdotdot.
    replace (loc ++ x :: names)%list with ((loc ++ [x]) ++ names)%list in *
      by (by rewrite <- app_assoc).
    rewrite lookup_path_app in Hthere.
    destruct (lookup_path (loc ++ [x]) root) as [child|] eqn:Hx;
      [|by destruct Hthere].
    rewrite lookup_path_snoc in Hx.
    destruct (lookup_path loc root) as [[?|entries]|] eqn:Hloc; [done| |done].
    unfold posixpath.curdir, posixpath.pardir. rewrite Hdot, Hdotdot, Hx.
    apply IH; [done|]. by rewrite lookup_path_app, lookup_path_snoc, Hloc, Hx.
Qed.

Lemma join2_rel path b :
  startswith_sep b = false →
  posixpath.join2 path b =
  if is_empty path || endswith_sep path then path +:+ b
  else path +:+ String "/" b.
Proof. intros Hb. unfold posixpath.join2. by rewrite Hb. Qed.

Lemma join2_abs path b :
  startswith_sep b = true → posixpath.join2 path b = b.
Proof. intros Hb. unfold posixpath.join2. by rewrite Hb. Qed.

Lemma join2_assoc cwd dir word :
  dir ≠ EmptyString → startswith_sep word = false →
  posixpath.join2 cwd (posixpath.join2 dir word)
  = posixpath.join2 (posixpath.join2 cwd dir) word.
Proof.
  intros Hdir Hword. destruct dir as [|c dir]; [done|].
  set (D := String c dir).
  assert (Hstart : ∀ x, startswith_sep (D +:+ x) = startswith_sep D) by done.
  assert (Hend : ∀ pre, endswith_sep (pre +:+ D) = endswith_sep D)
    by (intros pre; by apply endswith_sep_app).
  assert (Hne : ∀ pre, is_empty (pre +:+ D) = false)
    by (intros pre; by destruct pre).
  rewrite (join2_rel D word Hword). change (is_empty D) with false.
  cbn [orb].
  destruct (startswith_sep D) eqn:Hc.
  - rewrite (join2_abs cwd D Hc), (join2_rel D word Hword).
    change (is_empty D) with false. cbn [orb].
    apply join2_abs. by destruct (endswith_sep D); rewrite Hstart.
  - rewrite (join2_rel cwd D Hc), (join2_rel _ word Hword).
    rewrite join2_rel by (by destruct (endswith_sep D); rewrite Hstart).
    destruct (is_empty cwd || endswith_sep cwd).
    + rewrite Hne, Hend. cbn [orb].
      by destruct (endswith_sep D); rewrite app_assoc_s.
    + change (cwd +:+ String "/" D) with (cwd +:+ "/" +:+ D).
      rewrite <- app_assoc_s, Hne, Hend. cbn [orb].
      destruct (endswith_sep D); rewrite !app_assoc_s; reflexivity.
Qed.

(** ** What start_server does before it binds *)

Lemma fs_stable_ret {A} (a : A) : fs_stable (ret a).
Proof. intros st. split; [done|]. exists []. simpl. by rewrite app_nil_r. Qed.

Lemma fs_stable_raise {A} e : fs_stable (@raise A e).
Proof. intros st. split; [done|]. exists []. simpl. by rewrite app_nil_r. Qed.

Lemma fs_stable_emit ev : fs_stable (emit ev).
Proof. intros st. split; [done|]. by exists [ev]. Qed.

Lemma fs_stable_print line : fs_stable (print line).
Proof. intros st. split; [done|]. exists []. simpl. by rewrite app_nil_r. Qed.

Lemma fs_stable_bind {A B} (m : M A) (k : A → M B) :
  fs_stable m → (∀ a, fs_stable (k a)) → fs_stable (bind m k).
Proof.
  intros Hm Hk st. unfold bind. destruct (Hm st) as [Hfs [evs Htr]].
  destruct (m st) as [[a|e] st1]; simpl in *.
  - destruct (Hk a st1) as [Hfs' [evs' Htr']]. split; [congruence|].
    exists (evs ++ evs')%list. rewrite Htr', Htr. by rewrite <- app_assoc.
  - split; [done|]. by exists evs.
Qed.

Lemma fs_stable_try_except {A} (body : M A) C handler :
  fs_stable body → (∀ e, fs_stable (handler e)) →
  fs_stable (try_except body C handler).
Proof.
  intros Hm Hk st. unfold try_except. destruct (Hm st) as [Hfs [evs Htr]].
  destruct (body st) as [[a|e] st1]; simpl in *.
  - split; [done|]. by exists evs.
  - destruct (existsb (isinstance e) C).
    + destruct (Hk e st1) as [Hfs' [evs' Htr']]. split; [congruence|].
      exists (evs ++ evs')%list. rewrite Htr', Htr. by rewrite <- app_assoc.
    + split; [done|]. by exists evs.
Qed.

Create HintDb stable.
#[local] Hint Resolve fs_stable_ret fs_stable_raise fs_stable_emit
  fs_stable_print fs_stable_bind fs_stable_try_except : stable.

(** Splits a computation built from [bind], [try_except] and matches
    into its steps. *)
Ltac stable_steps :=
  repeat first
    [ progress eauto with stable
    | match goal with
      | |- ∀ _, fs_stable _ => intros ?
      | |- fs_stable (bind _ _) => apply fs_stable_bind
      | |- fs_stable (try_except _ _ _) => apply fs_stable_try_except
      | |- fs_stable (match ?x with _ => _ end) => destruct x
      end ].

Lemma fs_stable_get_public_ip w host port : fs_stable (get_public_ip w host port).
Proof.
  unfold get_public_ip, urlopen, response_read, decode_utf8. stable_steps.
Qed.

Lemma fs_stable_start_httpd w args b handler (n : nat) : ∀ addr st,
  (Z.to_nat (7501 - addr.2) ≤ n)%nat →
  let r := start_httpd (server_class_of w args b) addr handler args st in
  fs r.2 = fs st ∧ ∃ evs, trace r.2 = (trace st ++ evs)%list.
Proof.
  induction n as [|n IH]; intros addr st Hn; simpl;
    rewrite start_httpd_eq, server_class_of_eq;
    (destruct (sock_bind w addr) as [error|]; simpl;
     [|split; [done|]; by exists [EvBind addr]]);
    (destruct (is_in_use error);
     [|split; [done|]; by exists [EvBind addr]]);
    (destruct (port args);
     [split; [done|]; by exists [EvBind addr]|]);
    (destruct (Z.gtb_spec addr.2 7500);
     [split; [done|]; by exists [EvBind addr]|]).
  - lia.
  - destruct (IH (addr.1, addr.2 + 1) (traced st [EvBind addr]))
      as [Hfs [evs Htr]]; [simpl; lia|].
    split; [done|]. exists (EvBind addr :: evs). rewrite Htr. simpl.
    by rewrite <- app_assoc.
Qed.

Lemma fs_stable_start_server_on w args b :
  fs_stable
    (httpd <- start_httpd (server_class_of w args b)
                (server_address_of w args b) (handler_class_of args b) args ;;
     Thread_start_serve_forever httpd ;;;
     let '(host, port) := getsockname w (socket httpd) in
     hp <- get_public_ip w host port ;;
     tqdm_write (serve_message hp.1 hp.2) ;;;
     ret httpd).
Proof.
  apply fs_stable_bind.
  - intros st. by eapply fs_stable_start_httpd.
  - intros httpd. unfold Thread_start_serve_forever, tqdm_write.
    pose proof (fs_stable_get_public_ip w) as Hprobe. stable_steps.
Qed.

Lemma start_server_36_eq w args :
  start_server_36 w args =
  (httpd <- start_httpd (server_class_of w args Python36)
              (server_address_of w args Python36)
              (handler_class_of args Python36) args ;;
   Thread_start_serve_forever httpd ;;;
   let '(host, port) := getsockname w (socket httpd) in
   hp <- get_public_ip w host port ;;
   tqdm_write (serve_message hp.1 hp.2) ;;;
   ret httpd).
Proof. reflexivity. Qed.

Lemma start_server_38_eq w args :
  start_server_38 w args =
  (httpd <- start_httpd (server_class_of w args Python38)
              (server_address_of w args Python38)
              (handler_class_of args Python38) args ;;
   Thread_start_serve_forever httpd ;;;
   let '(host, port) := getsockname w (socket httpd) in
   hp <- get_public_ip w host port ;;
   tqdm_write (serve_message hp.1 hp.2) ;;;
   ret httpd).
Proof. reflexivity. Qed.

(** What follows the two writes in [start_server]. *)
Lemma fs_stable_start_server_rest w args :
  fs_stable
    (if bool_decide (version_minor w ∈ [6; 7]) then
       httpd <- start_server_36 w args ;; ret (Some httpd)
     else if Z.leb 8 (version_minor w) then
       httpd <- start_server_38 w args ;; ret (Some httpd)
     else ret None).
Proof.
  destruct (bool_decide _); [|destruct (Z.leb _ _)].
  - rewrite start_server_36_eq. apply fs_stable_bind;
      [apply fs_stable_start_server_on|intros ?; apply fs_stable_ret].
  - rewrite start_server_38_eq. apply fs_stable_bind;
      [apply fs_stable_start_server_on|intros ?; apply fs_stable_ret].
  - apply fs_stable_ret.
Qed.

Lemma bind_return {A B} (m : M A) (k : A → M B) st a st' :
  m st = (Return a, st') → bind m k st = k a st'.
Proof. unfold bind. by intros ->. Qed.

Lemma bind_raise {A B} (m : M A) (k : A → M B) st e st' :
  m st = (Raise e, st') → bind m k st = (Raise e, st').
Proof. unfold bind. by intros ->. Qed.

(** Plain names below a name that is missing: the first is missing, and
    after it nothing is found. *)
Lemma namei_walk_missing name root loc entries c (more : list string) :
  lookup_path loc root = Some (Dir entries) → entries !! c = None →
  Forall (λ word, plain word = true) (c :: more) →
  fold_left (namei_step name root) (c :: more) (Return (Found loc))
  = match more with
    | [] => Return (Missing loc c)
    | _ :: _ => Raise (no_such_file name)
    end.
Proof.
  intros Hloc Hc Hall. inversion Hall as [|? ? Hplain Hmore]; subst.
  apply plain_spec in Hplain as (_ & _ & Hdot & Hdotdot).
  apply String.eqb_neq in Hdot, Hdotdot.
  cbn [fold_left]. unfold namei_step at 2. rewrite Hloc.
  unfold posixpath.curdir, posixpath.pardir. rewrite Hdot, Hdotdot, Hc.
  destruct more as [|d more]; [done|]. cbn [fold_left namei_step].
  apply namei_raise.
Qed.

Lemma kernel_comps_app w absolute (l1 l2 : list string) :
  kernel_comps w absolute (l1 ++ l2) = (kernel_comps w absolute l1 ++ l2)%list.
Proof. unfold kernel_comps. by rewrite app_assoc. Qed.

Lemma mkdir_exist_ok_missing w absolute comps st parent c :
  namei (path_text absolute comps) (fs st) (kernel_comps w absolute comps)
    = Return (Missing parent c) →
  mkdir_exist_ok w absolute comps st
  = (Return tt, {| fs := insert_at parent c (Dir ∅) (fs st);
                   stdout := stdout st; trace := trace st |}).
Proof.
  intros Hnamei. unfold mkdir_exist_ok, try_except, on_fs, sys_mkdir.
  by rewrite Hnamei.
Qed.

Lemma mkdir_exist_ok_isdir w absolute comps st loc entries :
  namei (path_text absolute comps) (fs st) (kernel_comps w absolute comps)
    = Return (Found loc) →
  lookup_path loc (fs st) = Some (Dir entries) →
  mkdir_exist_ok w absolute comps st = (Return tt, st).
Proof.
  intros Hnamei Hloc.
  unfold mkdir_exist_ok, try_except, on_fs, sys_mkdir. rewrite Hnamei.
  change (existsb (isinstance (file_exists (path_text absolute comps)))
            [OSError]) with true. cbn iota.
  unfold bind, gets, path_isdir. by rewrite Hnamei, Hloc.
Qed.

Lemma namei_rename name name' root comps loc :
  namei name root comps = Return (Found loc) →
  namei name' root comps = Return (Found loc).
Proof. apply namei_extends, extends_refl. Qed.

(** [makedirs] below a directory that is there: the missing names, plain
    ones, are made one in the other, and nothing else changes. *)
Lemma makedirs_comps_chain w absolute pre c root loc entries out tr name :
  namei name root (kernel_comps w absolute pre) = Return (Found loc) →
  lookup_path loc root = Some (Dir entries) → entries !! c = None →
  ∀ more : list string,
  Forall (λ word, plain word = true) (c :: more) →
  ∃ root',
    makedirs_comps w absolute (rev (pre ++ c :: more))
      {| fs := root; stdout := out; trace := tr |}
    = (Return tt, {| fs := root'; stdout := out; trace := tr |})
    ∧ extends root root'
    ∧ lookup_path (loc ++ c :: more) root' = Some (Dir ∅).
Proof.
  intros Hpre Hloc Hc more.
  induction more as [|d more IH] using rev_ind; intros Hall.
  - exists (insert_at loc c (Dir ∅) root).
    rewrite rev_unit. cbn [makedirs_comps]. unfold bind at 1, gets at 1.
    cbn [fs]. rewrite rev_involutive.
    assert (Hthere : path_exists w absolute pre root = true).
    { unfold path_exists. by rewrite (namei_rename _ _ _ _ _ Hpre). }
    rewrite Hthere, andb_false_r. cbn [rev]. rewrite rev_involutive.
    rewrite (mkdir_exist_ok_missing w absolute (pre ++ [c]) _ loc c).
    + split; [done|]. split; [by eapply extends_insert_at|].
      by rewrite (lookup_insert_at_below loc c (Dir ∅) [] root entries Hloc).
    + cbn [fs]. rewrite kernel_comps_app, namei_app.
      rewrite (namei_rename _ _ _ _ _ Hpre).
      by rewrite (namei_walk_missing _ root loc entries c [] Hloc Hc Hall).
  - assert (Hall' : Forall (λ word, plain word = true) (c :: more)).
    { inversion Hall as [|? ? Hplain Hmore]; subst. constructor; [done|].
      by apply Forall_app in Hmore as [Hmore _]. }
    assert (Hd : plain d = true).
    { inversion Hall as [|? ? _ Hmore]; subst.
      apply Forall_app in Hmore as [_ Hd]. by inversion Hd. }
    destruct (IH Hall') as (root1 & Hrun & Hext & Hmade).
    exists (insert_at (loc ++ c :: more) d (Dir ∅) root1).
    replace (pre ++ c :: more ++ [d])%list with ((pre ++ c :: more) ++ [d])%list
      by (by rewrite <- app_assoc).
    rewrite rev_unit. cbn [makedirs_comps]. unfold bind at 1, gets at 1.
    cbn [fs]. rewrite rev_involutive.
    assert (Hthere : path_exists w absolute (pre ++ c :: more) root = false).
    { unfold path_exists. rewrite kernel_comps_app, namei_app.
      rewrite (namei_rename _ _ _ _ _ Hpre).
      rewrite (namei_walk_missing _ root loc entries c more Hloc Hc Hall').
      by destruct more. }
    rewrite Hthere.
    assert (Hhead : bool_decide (rev (pre ++ c :: more) = []) = false).
    { apply bool_decide_eq_false. intros Hnil%(f_equal (@rev string)).
      rewrite rev_involutive in Hnil. by destruct pre. }
    rewrite Hhead, orb_true_r. cbn [negb andb].
    unfold bind, try_except. rewrite Hrun.
    apply plain_spec in Hd as Hd'. destruct Hd' as (_ & _ & Hdot & _).
    apply String.eqb_neq in Hdot. unfold posixpath.curdir. rewrite Hdot.
    cbn [rev]. rewrite rev_involutive.
    assert (Hnamei : namei (path_text absolute ((pre ++ c :: more) ++ [d]))
                       root1 (kernel_comps w absolute ((pre ++ c :: more) ++ [d]))
                     = Return (Missing (loc ++ c :: more) d)).
    { rewrite kernel_comps_app, namei_snoc.
      rewrite kernel_comps_app, namei_app.
      rewrite (namei_extends _ _ _ _ _ _ Hext Hpre).
      rewrite (namei_walk_plain _ root1 (c :: more) loc Hall')
        by (by rewrite Hmade).
      unfold namei_step. rewrite Hmade.
      apply plain_spec in Hd as (_ & _ & _ & Hdotdot).
      apply String.eqb_neq in Hdotdot.
      unfold posixpath.curdir, posixpath.pardir.
      by rewrite Hdot, Hdotdot, lookup_empty. }
    rewrite (mkdir_exist_ok_missing w absolute _
               {| fs := root1; stdout := out; trace := tr |} _ d Hnamei).
    cbn [fs stdout trace].
    split; [done|]. split.
    + eapply extends_trans; [exact Hext|].
      by eapply extends_insert_at; [exact Hmade|apply lookup_empty].
    + replace (loc ++ c :: more ++ [d])%list
        with ((loc ++ c :: more) ++ d :: [])%list by (by rewrite <- app_assoc).
      by rewrite (lookup_insert_at_below _ d (Dir ∅) [] root1 ∅ Hmade).
Qed.

(** [makedirs] on a directory that is there changes nothing. *)
Lemma makedirs_comps_there w absolute comps st loc entries name :
  namei name (fs st) (kernel_comps w absolute comps) = Return (Found loc) →
  lookup_path loc (fs st) = Some (Dir entries) →
  makedirs_comps w absolute (rev comps) st = (Return tt, st).
Proof.
  intros Hnamei Hloc.
  destruct comps as [|tail head _] using rev_ind.
  - cbn [rev makedirs_comps].
    by rewrite (mkdir_exist_ok_isdir w absolute [] st loc entries
                  (namei_rename _ _ _ _ _ Hnamei) Hloc).
  - rewrite rev_unit. cbn [makedirs_comps]. unfold bind at 1, gets at 1.
    rewrite rev_involutive.
    assert (Hthere : path_exists w absolute head (fs st) = true).
    { rewrite kernel_comps_app, namei_snoc in Hnamei.
      apply namei_step_found in Hnamei as (loc0 & ? & Hhead & _).
      unfold path_exists. by rewrite (namei_rename _ _ _ _ _ Hhead). }
    rewrite Hthere, andb_false_r. cbn [rev]. rewrite rev_involutive.
    by rewrite (mkdir_exist_ok_isdir w absolute _ st loc entries
                  (namei_rename _ _ _ _ _ Hnamei) Hloc).
Qed.

Lemma nonempty_parts_join2 dir word :
  dir ≠ EmptyString → plain word = true →
  posixpath.nonempty_parts (posixpath.join2 dir word)
  = (posixpath.nonempty_parts dir ++ [word])%list.
Proof.
  intros Hdir Hword. pose proof (plain_not_startswith _ Hword) as Hstart.
  apply plain_spec in Hword as (Hne & Hsep & _).
  unfold posixpath.join2, posixpath.nonempty_parts. rewrite Hstart.
  assert (Hkeep : filter (λ x, negb (is_empty x) = true) [word] = [word]).
  { rewrite filter_cons. by destruct word. }
  destruct dir as [|c dir]; [done|]. cbn [is_empty orb].
  destruct (endswith_sep (String c dir)) eqn:Hend.
  - apply endswith_sep_inv in Hend as [dir' ->].
    rewrite app_assoc_s. change ("/" +:+ word) with (String "/" word).
    rewrite (split_app_sep dir' word), (split_snoc_sep dir').
    rewrite (split_no_sep _ Hsep), !filter_app, Hkeep. f_equal.
    rewrite filter_cons. by rewrite app_nil_r.
  - change ("/" +:+ word) with (String "/" word).
    rewrite split_app_sep, (split_no_sep _ Hsep).
    by rewrite filter_app, Hkeep.
Qed.

Lemma index_plain : plain "index.html" = true.
Proof. reflexivity. Qed.

Lemma join_index_spec dir :
  dir ≠ EmptyString →
  let index := posixpath.join dir ["index.html"] in
  is_empty index = false
  ∧ endswith_sep index = false
  ∧ posixpath.isabs index = posixpath.isabs dir
  ∧ posixpath.nonempty_parts index
    = (posixpath.nonempty_parts dir ++ ["index.html"])%list.
Proof.
  intros Hdir. cbv zeta. unfold posixpath.join. cbn [fold_left].
  pose proof (join2_not_empty dir "index.html" Hdir) as Hne.
  split; [by destruct (posixpath.join2 dir "index.html")|].
  split.
  { unfold posixpath.join2.
    change (startswith_sep "index.html") with false. cbn iota.
    destruct (is_empty dir || endswith_sep dir);
      rewrite <- ?app_assoc_s; by apply endswith_sep_plain_end. }
  split; [by apply isabs_join2|].
  by apply nonempty_parts_join2.
Qed.

(** Writing a file into a directory that is there, where no directory
    has its name. *)
Lemma sys_open_w_into w name content root comps loc entries c :
  is_empty name = false → endswith_sep name = false →
  posixpath.nonempty_parts name = (comps ++ [c])%list →
  plain c = true →
  namei name root (kernel_comps w (posixpath.isabs name) comps)
    = Return (Found loc) →
  lookup_path loc root = Some (Dir entries) →
  (∀ es, entries !! c ≠ Some (Dir es)) →
  sys_open_w w name content root
  = Return (insert_at loc c (File content) root).
Proof.
  intros Hne Hend Hparts Hc Hnamei Hloc Hfile.
  unfold sys_open_w. rewrite Hparts, kernel_comps_app, namei_snoc, Hnamei.
  apply plain_spec in Hc as (_ & _ & Hdot & Hdotdot).
  apply String.eqb_neq in Hdot, Hdotdot.
  unfold namei_step, posixpath.curdir, posixpath.pardir.
  rewrite Hloc, Hdot, Hdotdot.
  destruct (entries !! c) as [[old|es]|] eqn:Hentry.
  - rewrite lookup_path_snoc, Hloc, Hentry, last_snoc, Hend.
    by rewrite removelast_last.
  - by destruct (Hfile es).
  - by rewrite Hend.
Qed.

(** The two file operations of [start_server] for a root that is to be
    made: its components are [pre], which lead to a directory that is
    there ([.] and [..] among them read as the kernel reads them), and
    then plain names of which the first is missing in that directory. *)
Lemma prepare_root w dir content st pre c (more : list string) loc entries :
  posixpath.nonempty_parts dir = (pre ++ c :: more)%list →
  namei dir (fs st) (kernel_comps w (posixpath.isabs dir) pre)
    = Return (Found loc) →
  lookup_path loc (fs st) = Some (Dir entries) →
  entries !! c = None →
  Forall (λ word, plain word = true) (c :: more) →
  let index := posixpath.join dir ["index.html"] in
  ∃ root1 root2,
    makedirs w dir st
    = (Return tt, {| fs := root1; stdout := stdout st;
                     trace := (trace st ++ [EvMakedirs dir])%list |})
    ∧ write_text w index content
        {| fs := root1; stdout := stdout st;
           trace := (trace st ++ [EvMakedirs dir])%list |}
      = (Return tt, {| fs := root2; stdout := stdout st;
                       trace := ((trace st ++ [EvMakedirs dir])
                                 ++ [EvWrite index content])%list |})
    ∧ path_exists w (posixpath.isabs dir) (posixpath.nonempty_parts dir) (fs st)
      = false
    ∧ path_isdir w (posixpath.isabs dir) (posixpath.nonempty_parts dir) root2
      = true
    ∧ lookup_path (loc ++ c :: more) root2
      = Some (Dir {[ "index.html" := File content ]})
    ∧ lookup_path (loc ++ c :: more ++ ["index.html"]) root2
      = Some (File content).
Proof.
  intros Hparts Hpre Hloc Hc Hall. cbv zeta.
  assert (Hdir : dir ≠ EmptyString).
  { intros ->. by destruct pre. }
  destruct (makedirs_comps_chain w (posixpath.isabs dir) pre c (fs st) loc
              entries (stdout st) (trace st ++ [EvMakedirs dir])%list dir
              Hpre Hloc Hc more Hall) as (root1 & Hrun & Hext & Hmade).
  destruct (join_index_spec dir Hdir) as (Hne & Hend & Habs & Hindex).
  set (index := posixpath.join dir ["index.html"]) in *.
  assert (Hthere : namei index root1
                     (kernel_comps w (posixpath.isabs index) (pre ++ c :: more))
                   = Return (Found (loc ++ c :: more))).
  { rewrite Habs, kernel_comps_app, namei_app.
    rewrite (namei_extends _ _ _ _ _ _ Hext Hpre).
    apply namei_walk_plain; [done|]. by rewrite Hmade. }
  exists root1, (insert_at (loc ++ c :: more) "index.html" (File content) root1).
  split; [|split; [|split; [|split; [|split]]]].
  - unfold makedirs, bind, emit. cbn [fst snd].
    destruct dir as [|a dir]; [done|]. cbn [is_empty].
    by rewrite Hparts, Hrun.
  - unfold write_text, bind, emit, on_fs. cbn [fs stdout trace].
    rewrite Hne. cbn [fs stdout trace]. rewrite Hparts in Hindex.
    by rewrite (sys_open_w_into w index content root1 _ _ ∅ "index.html"
                  Hne Hend Hindex index_plain Hthere Hmade)
      by (intros es; by rewrite lookup_empty).
  - unfold path_exists. rewrite Hparts, kernel_comps_app, namei_app.
    rewrite (namei_rename _ _ _ _ _ Hpre).
    rewrite (namei_walk_missing _ (fs st) loc entries c more Hloc Hc Hall).
    by destruct more.
  - unfold path_isdir. rewrite Hparts.
    assert (Hext2 : extends root1
              (insert_at (loc ++ c :: more) "index.html" (File content) root1))
      by (by eapply extends_insert_at; [exact Hmade|apply lookup_empty]).
    rewrite Habs in Hthere.
    rewrite (namei_extends _ _ _ _ _ _ Hext2 Hthere).
    by rewrite (lookup_insert_at _ "index.html" (File content) root1 ∅ Hmade).
  - rewrite (lookup_insert_at _ "index.html" (File content) root1 ∅ Hmade).
    by rewrite insert_empty.
  - replace (loc ++ c :: more ++ ["index.html"])%list
      with ((loc ++ c :: more) ++ "index.html" :: [])%list
      by (by rewrite <- app_assoc).
    by rewrite (lookup_insert_at_below _ "index.html" (File content) []
                  root1 ∅ Hmade).
Qed.



(** When the directory cannot be made, [start_server] raises what
    [makedirs] raised and goes no further: nothing is written and
    nothing is bound. *)
Lemma start_server_unmakeable_root w args st e :
  (makedirs w (thumb_dir args) st).1 = Raise e →
  start_server w args st = (Raise e, (makedirs w (thumb_dir args) st).2).
Proof.
  intros Hmk. unfold start_server.
  destruct (makedirs w (thumb_dir args) st) as [o st1] eqn:Hst.
  simpl in Hmk. subst o. by rewrite (bind_raise _ _ _ _ _ Hst).
Qed.

(** A root directory below a regular file does not exist and cannot be
    made: nothing is written and nothing is bound. *)
Lemma start_server_below_a_file :
  start_server (offline []) {| port := None; thumb_dir := "notes.txt/gallery" |}
    home_with_notes
  = (Raise (os_error NotADirectoryError 20
              "Not a directory: 'notes.txt/gallery'"),
     traced home_with_notes [EvMakedirs "notes.txt/gallery"]).
Proof. reflexivity. Qed.

(** Nor can it be made by way of [..]: the kernel does not go up from a
    regular file. *)
Lemma start_server_up_from_a_file :
  start_server (offline []) {| port := None; thumb_dir := "notes.txt/../b" |}
    home_with_notes
  = (Raise (os_error NotADirectoryError 20
              "Not a directory: 'notes.txt/..'"),
     traced home_with_notes [EvMakedirs "notes.txt/../b"]).
Proof. reflexivity. Qed.

(** A root directory named by way of directories that are not there:
    [makedirs] makes them on its way, and index.html is written beside
    the one the name goes back up from. *)
Lemma start_server_makes_the_way :
  lookup_path ["home"; "user"; "b"]
    (fs (start_server (offline []) {| port := None; thumb_dir := "b/c/.." |}
           home_only).2)
  = Some (Dir {[ "c" := Dir ∅; "index.html" := File redirect_html ]})
  ∧ lookup_path ["home"; "user"]
      (fs (start_server (offline []) {| port := None; thumb_dir := "a/../b" |}
             home_only).2)
    = Some (Dir {[ "a" := Dir ∅;
                   "b" := Dir {[ "index.html" := File redirect_html ]} ]}).
Proof. split; vm_compute; reflexivity. Qed.

(** An empty root directory never gets as far as a server. *)
Lemma start_server_empty_root w args st :
  thumb_dir args = EmptyString →
  start_server w args st
  = (Raise (no_such_file EmptyString), traced st [EvMakedirs EmptyString]).
Proof.
  intros Hdir. rewrite (start_server_unmakeable_root w args st
                          (no_such_file EmptyString)); rewrite Hdir; done.
Qed.

Lemma translate_path_under_root_witness :
  ∃ p, translate_path (offline []) (httpd_of no_port Python36 ("0.0.0.0", 7447))
         unquote "/a/b/c.jpg?size=2" home_only = (Return p, home_only)
    ∧ posixpath.isabs p = false
    ∧ posixpath.norm_comps p = ["shis"; "a"; "b"; "c.jpg"].
Proof.
  destruct (translate_path_under_root (offline []) no_port Python36
              ("0.0.0.0", 7447) unquote "/a/b/c.jpg?size=2" home_only)
    as (p & Hp & Habs & _ & _ & Hnames).
  - reflexivity.
  - discriminate.
  - exists p. split; [exact Hp|]. split; [exact Habs|].
    apply (Hnames ["a"; "b"; "c.jpg"]).
    + repeat constructor.
    + reflexivity.
Defined.

(** Requests with traversal segments, plain and escaped, on either
    branch. *)
Lemma traversal_stays_under_root :
  (translate_path (offline []) (httpd_of no_port Python36 ("0.0.0.0", 7447))
     unquote "/../secret" home_only).1 = Return "shis/secret"
  ∧ (translate_path (offline []) (httpd_of no_port Python38 ("::", 7447))
       unquote "/a/../../../etc/passwd" home_only).1
    = Return "shis/etc/passwd"
  ∧ (translate_path (offline []) (httpd_of no_port Python36 ("0.0.0.0", 7447))
       unquote "/%2e%2e/%2E%2E/secret?x=1" home_only).1
    = Return "shis/secret"
  ∧ (translate_path (offline []) (httpd_of no_port Python38 ("::", 7447))
       unquote "/..%2f..%2fsecret/" home_only).1 = Return "shis/secret/"
  ∧ (translate_path (offline []) (httpd_of no_port Python36 ("0.0.0.0", 7447))
       unquote "/a/b/c.jpg" home_only).1 = Return "shis/a/b/c.jpg".
Proof. repeat split; reflexivity. Qed.

(** * General utilities *)

(** ** chunks *)

Lemma slice_forward {A} (l : list A) (i j : Z) :
  0 ≤ i → i ≤ j →
  slice l i j = take (Z.to_nat (j - i)) (drop (Z.to_nat i) l).
Proof.
  intros Hi Hij. unfold slice, adjust_index.
  destruct (Z.ltb_spec i 0); [lia|]. destruct (Z.ltb_spec j 0); [lia|].
  destruct (Z.le_gt_cases i (Z.of_nat (length l))) as [Hin|Hout].
  - rewrite (Z.min_l i) by lia.
    destruct (Z.le_gt_cases j (Z.of_nat (length l))).
    + by rewrite (Z.min_l j) by lia.
    + rewrite (Z.min_r j) by lia.
      rewrite !take_ge; [done| |]; rewrite length_drop; lia.
  - rewrite (Z.min_r i), (Z.min_r j) by lia.
    rewrite !drop_ge by lia. by rewrite !take_nil.
Qed.

Lemma range_length_forward (n k : Z) :
  0 ≤ n → 0 < k → range_length 0 n k = (n + k - 1) / k.
Proof.
  intros Hn Hk. unfold range_length.
  destruct (Z.ltb_spec 0 k); [|lia].
  destruct (Z.leb_spec n 0).
  - assert (n = 0) as -> by lia. symmetry. apply Z.div_small. lia.
  - replace (n + k - 1) with (n - 0 - 1 + 1 * k) by lia.
    by rewrite Z.div_add by lia.
Qed.

(** The chunks for a positive size, in the terms of [take] and [drop]. *)
Lemma chunks_positive {A} (l : list A) (k : nat) :
  (0 < k)%nat →
  chunks l (Z.of_nat k)
  = Return (map (λ i, take k (drop (i * k) l))
              (seq 0 ((length l + k - 1) / k))).
Proof.
  intros Hk. unfold chunks, py_range.
  destruct (Z.eqb_spec (Z.of_nat k) 0); [lia|].
  rewrite range_length_forward by lia. f_equal.
  replace (Z.to_nat ((Z.of_nat (length l) + Z.of_nat k - 1) / Z.of_nat k))
    with ((length l + k - 1) / k)%nat.
  2:{ rewrite <- (Nat2Z.id ((length l + k - 1) / k)). f_equal.
      rewrite Nat2Z.inj_div. f_equal. lia. }
  rewrite map_map. apply map_ext. intros i. simpl.
  rewrite slice_forward by lia. f_equal; [lia|]. f_equal. lia.
Qed.

Lemma take_add_drop {A} (l : list A) (a b : nat) :
  take (a + b) l = (take a l ++ take b (drop a l))%list.
Proof.
  revert l. induction a as [|a IH]; intros [|x l]; simpl; try done.
  - by rewrite take_nil.
  - by rewrite IH.
Qed.

Lemma concat_chunks_prefix {A} (l : list A) (k n : nat) :
  concat (map (λ i, take k (drop (i * k) l)) (seq 0 n)) = take (n * k) l.
Proof.
  induction n as [|n IH]; [by rewrite take_0|].
  rewrite seq_S, map_app, concat_app, IH. simpl. rewrite app_nil_r.
  by rewrite (Nat.add_comm k), take_add_drop.
Qed.

Lemma chunk_count_covers (n k : nat) :
  (0 < k)%nat →
  (n ≤ (n + k - 1) / k * k)%nat ∧ ((n + k - 1) / k * k < n + k)%nat.
Proof.
  intros Hk. pose proof (Nat.div_mod_eq (n + k - 1) k) as Hdiv.
  pose proof (Nat.mod_upper_bound (n + k - 1) k) as Hmod. lia.
Qed.

(** X1: for a positive chunk size the chunks, put end to end, are the
    list: nothing is lost, repeated or reordered. *)
Theorem chunks_concat {A} (l : list A) (chunk_size : Z) :
  0 < chunk_size →
  ∃ cs, chunks l chunk_size = Return cs ∧ concat cs = l.
Proof.
  intros Hk. rewrite <- (Z2Nat.id chunk_size) by lia.
  rewrite chunks_positive by lia. eexists. split; [reflexivity|].
  rewrite concat_chunks_prefix. apply take_ge.
  apply chunk_count_covers. lia.
Qed.

Lemma chunks_concat_witness :
  ∃ cs, chunks ["a"; "b"; "c"; "d"; "e"] 2 = Return cs
        ∧ concat cs = ["a"; "b"; "c"; "d"; "e"].
Proof. apply (chunks_concat ["a"; "b"; "c"; "d"; "e"] 2). lia. Defined.

(** X2: for a positive chunk size there are ceil(len / size) chunks,
    every chunk but the last has exactly the size, and the last holds
    the remainder, between one item and the size: no chunk is empty. *)
Theorem chunks_sizes {A} (l : list A) (chunk_size : Z) cs :
  0 < chunk_size →
  chunks l chunk_size = Return cs →
  Z.of_nat (length cs) = (Z.of_nat (length l) + chunk_size - 1) / chunk_size
  ∧ ∀ (i : nat) c, cs !! i = Some c →
      if decide (S i < length cs)%nat
      then Z.of_nat (length c) = chunk_size
      else 0 < Z.of_nat (length c) ≤ chunk_size
           ∧ Z.of_nat (length c)
             = Z.of_nat (length l) - Z.of_nat i * chunk_size.
Proof.
  intros Hk. rewrite <- (Z2Nat.id chunk_size) by lia.
  set (k := Z.to_nat chunk_size). assert (0 < k)%nat as Hk' by lia.
  rewrite chunks_positive by done. intros [= <-].
  rewrite length_map, length_seq.
  destruct (chunk_count_covers (length l) k Hk') as [Hlo Hhi].
  set (n := ((length l + k - 1) / k)%nat) in *.
  split.
  - unfold n. rewrite Nat2Z.inj_div. f_equal. lia.
  - intros i c Hc. apply list_lookup_fmap_Some in Hc as (j & -> & Hj).
    apply lookup_seq in Hj as [-> Hi]. simpl.
    rewrite length_take, length_drop.
    destruct (decide (S i < n)%nat); nia.
Qed.

Lemma chunks_sizes_witness :
  Z.of_nat (length [["a"; "b"]; ["c"; "d"]; ["e"]]) = (5 + 2 - 1) / 2
  ∧ ∀ (i : nat) c, [["a"; "b"]; ["c"; "d"]; ["e"]] !! i = Some c →
      if decide (S i < 3)%nat
      then Z.of_nat (length c) = 2
      else 0 < Z.of_nat (length c) ≤ 2
           ∧ Z.of_nat (length c) = 5 - Z.of_nat i * 2.
Proof.
  apply (chunks_sizes ["a"; "b"; "c"; "d"; "e"] 2); [lia|reflexivity].
Defined.

(** X3: a zero chunk size raises [ValueError], and a negative one yields
    no chunk at all, whatever the list holds. *)
Theorem chunks_not_positive {A} (l : list A) (chunk_size : Z) :
  chunk_size ≤ 0 →
  chunks l chunk_size
  = if decide (chunk_size = 0)
    then Raise {| cls := ValueError;
                  str := "range() arg 3 must not be zero"; code := None |}
    else Return [].
Proof.
  intros Hk. unfold chunks, py_range.
  destruct (Z.eqb_spec chunk_size 0); destruct (decide (chunk_size = 0));
    try done.
  unfold range_length. destruct (Z.ltb_spec 0 chunk_size); [lia|].
  destruct (Z.leb_spec 0 (Z.of_nat (length l))); [done|lia].
Qed.

Lemma chunks_not_positive_witness :
  chunks ["a"; "b"; "c"] (-1) = Return [].
Proof. apply (chunks_not_positive ["a"; "b"; "c"] (-1)). lia. Defined.

(** ** rreplace *)

Lemma rsplit_last_None sep s :
  rsplit_last sep s = None ↔ mentions sep s = false.
Proof.
  induction s as [|c s IH].
  - cbn [rsplit_last mentions].
    destruct (String.prefix sep EmptyString); simpl; split; done.
  - cbn [rsplit_last mentions].
    destruct (rsplit_last sep s) as [[a b]|].
    + split; [done|]. intros [_ H]%orb_false_iff.
      by apply IH in H.
    + destruct (String.prefix sep (String c s)); simpl; [split; done|].
      split; [intros _; by apply IH|done].
Qed.

Lemma rsplit_last_Some sep s a b :
  rsplit_last sep s = Some (a, b) → s = a +:+ sep +:+ b.
Proof.
  revert a. induction s as [|c s IH]; intros a.
  - simpl. destruct sep; simpl; [|done]. by intros [= <- <-].
  - cbn [rsplit_last].
    destruct (rsplit_last sep s) as [[a' b']|].
    + intros [= <- <-]. simpl. by rewrite <- (IH a').
    + destruct (String.prefix sep (String c s)) eqn:Hpre; [|done].
      intros [= <- <-]. simpl.
      clear IH. revert Hpre. generalize (String c s). clear.
      induction sep as [|d sep IH]; intros [|c s]; simpl; try done.
      destruct (ascii_dec d c) as [->|]; [|done].
      intros H. by rewrite <- IH.
Qed.

Lemma prefix_app sep b : String.prefix sep (sep +:+ b) = true.
Proof.
  induction sep as [|d sep IH]; simpl; [by destruct b|].
  by destruct (ascii_dec d d).
Qed.

Lemma str_drop_app sep b : str_drop (String.length sep) (sep +:+ b) = b.
Proof. induction sep; simpl; done. Qed.

Lemma rsplit_last_app sep a b :
  sep ≠ EmptyString →
  mentions sep (str_drop 1 (sep +:+ b)) = false →
  rsplit_last sep (a +:+ sep +:+ b) = Some (a, b).
Proof.
  intros Hsep Hlast. induction a as [|c a IH].
  - destruct sep as [|d sep]; [done|]. simpl in Hlast.
    change (EmptyString +:+ String d sep +:+ b) with (String d (sep +:+ b)).
    cbn [rsplit_last]. apply rsplit_last_None in Hlast. rewrite Hlast.
    change (String d (sep +:+ b)) with (String d sep +:+ b).
    by rewrite prefix_app, str_drop_app.
  - change (String c a +:+ sep +:+ b) with (String c (a +:+ sep +:+ b)).
    cbn [rsplit_last]. by rewrite IH.
Qed.

(** X4: when [find] does not occur in the string, [rreplace] returns the
    string as it is. *)
Theorem rreplace_absent text find replace :
  find ≠ EmptyString →
  mentions find text = false →
  rreplace text find replace = Return text.
Proof.
  intros Hfind Habsent. unfold rreplace, rsplit1.
  destruct find; [done|]. simpl is_empty. cbn iota.
  apply rsplit_last_None in Habsent. by rewrite Habsent.
Qed.

Lemma rreplace_absent_witness :
  rreplace "album/page" "/index" "" = Return "album/page".
Proof. apply rreplace_absent; [discriminate|reflexivity]. Defined.

(** X5: [rreplace] replaces the last occurrence of [find] and nothing
    else: when the string is [a], then [find], then [b], and [find] does
    not start anywhere later, the result is [a], then [replace], then
    [b]. *)
Theorem rreplace_last text_before find text_after replace :
  find ≠ EmptyString →
  mentions find (str_drop 1 (find +:+ text_after)) = false →
  rreplace (text_before +:+ find +:+ text_after) find replace
  = Return (text_before +:+ replace +:+ text_after).
Proof.
  intros Hfind Hlast. unfold rreplace, rsplit1.
  rewrite (rsplit_last_app find text_before text_after Hfind Hlast).
  by destruct find.
Qed.

Lemma rreplace_last_witness :
  rreplace ("a/b/" +:+ "page" +:+ "/1") "page" "p" = Return "a/b/p/1".
Proof.
  apply (rreplace_last "a/b/" "page" "/1" "p"); [discriminate|reflexivity].
Defined.

(** X6: replacing [find] by itself gives the string back, unless [find]
    is empty: an empty [find] is a [ValueError] for every string. *)
Theorem rreplace_same text find :
  rreplace text find find
  = if is_empty find
    then Raise {| cls := ValueError; str := "empty separator"; code := None |}
    else Return text.
Proof.
  unfold rreplace, rsplit1. destruct (is_empty find); [done|].
  destruct (rsplit_last find text) as [[a b]|] eqn:Hsplit; [|done].
  apply rsplit_last_Some in Hsplit as ->. reflexivity.
Qed.

(** ** urlify *)

Lemma str_int_inj p q : str_int p = str_int q → p = q.
Proof.
  unfold str_int. intros H.
  assert (Hnn : ∀ n, Z.to_int n ≠ Decimal.Pos Decimal.Nil
                     ∧ Z.to_int n ≠ Decimal.Neg Decimal.Nil).
  { intros [|n|n]; simpl; split; try done;
      intros [= Hn]; by apply DecimalPos.Unsigned.to_uint_nonnil in Hn. }
  pose proof (NilZero.isi (Z.to_int p) (proj1 (Hnn p)) (proj2 (Hnn p))) as Hp.
  pose proof (NilZero.isi (Z.to_int q) (proj1 (Hnn q)) (proj2 (Hnn q))) as Hq.
  rewrite H, Hq in Hp. injection Hp as Hp.
  by rewrite <- (DecimalZ.of_to p), <- (DecimalZ.of_to q), Hp.
Qed.

Lemma length_app_s (a b : string) :
  String.length (a +:+ b) = (String.length a + String.length b)%nat.
Proof. induction a as [|c a IH]; simpl; [done|by rewrite IH]. Qed.

Lemma app_inv_tail_s (a b t : string) : a +:+ t = b +:+ t → a = b.
Proof.
  intros H. assert (Hlen : String.length a = String.length b).
  { apply (f_equal String.length) in H. rewrite !length_app_s in H. lia. }
  revert b H Hlen. induction a as [|c a IH]; intros [|d b] H Hlen;
    simpl in *; try done.
  injection H as -> Heq. f_equal. apply IH; [done|lia].
Qed.

(** X7: the pages of a slug have URLs of their own: two different page
    numbers from 1 on never give the same URL. *)
Theorem urlify_pages_distinct slug p q :
  1 ≤ p → 1 ≤ q → p ≠ q → urlify slug p ≠ urlify slug q.
Proof.
  intros Hp Hq Hne. unfold urlify.
  destruct (Z.ltb_spec 1 p) as [Hp1|Hp1], (Z.ltb_spec 1 q) as [Hq1|Hq1];
    try lia; intros H%String.app_inj; try done.
  injection H as Heq. apply app_inv_tail_s in Heq. by apply str_int_inj in Heq.
Qed.

Lemma urlify_pages_distinct_witness :
  urlify "album" 1 ≠ urlify "album" 12.
Proof. apply (urlify_pages_distinct "album" 1 12); lia. Defined.

(** ** filter_image *)

Lemma rfind_absent c s : has_char c s = false → rfind c s = -1.
Proof.
  induction s as [|d s IH]; simpl; [done|].
  intros [Hd Hs]%orb_false_iff. by rewrite (IH Hs), Hd.
Qed.

Lemma rfind_bounds c s : -1 ≤ rfind c s < Z.of_nat (String.length s).
Proof.
  induction s as [|d s IH]; simpl; [lia|].
  destruct (Z.leb_spec 0 (rfind c s)); [lia|].
  destruct (Ascii.eqb d c); lia.
Qed.

Lemma rfind_app c s t :
  rfind c (s +:+ t)
  = if 0 <=? rfind c t then Z.of_nat (String.length s) + rfind c t
    else rfind c s.
Proof.
  induction s as [|d s IH]; simpl.
  - destruct (Z.leb_spec 0 (rfind c t)); [lia|].
    pose proof (rfind_bounds c t). lia.
  - rewrite IH. destruct (Z.leb_spec 0 (rfind c t)) as [Ht|Ht].
    + destruct (Z.leb_spec 0 (Z.of_nat (String.length s) + rfind c t)); lia.
    + reflexivity.
Qed.

Lemma str_take_app a b : str_take (String.length a) (a +:+ b) = a.
Proof. induction a as [|c a IH]; simpl; [by destruct b|by rewrite IH]. Qed.

Lemma str_drop_add n m s : str_drop (n + m) s = str_drop m (str_drop n s).
Proof.
  revert s. induction n as [|n IH]; intros [|c s]; simpl; try done.
  by destruct m.
Qed.

(** The scan stops at the first character that is not a dot. *)
Lemma splitext_scan_found p (k : nat) : ∀ (rounds fi di : nat),
  (fi ≤ k)%nat → (k < fi + rounds)%nat →
  String.eqb (str_take 1 (str_drop k p)) "." = false →
  splitext_scan p fi di rounds = Some (str_take di p, str_drop di p).
Proof.
  induction rounds as [|rounds IH]; intros fi di Hfi Hk Hchar; [lia|].
  cbn [splitext_scan].
  destruct (String.eqb (str_take 1 (str_drop fi p)) ".") eqn:Hfirst;
    cbn [negb]; [|done].
  apply IH; [|lia|done].
  destruct (decide (fi = k)) as [->|]; [congruence|lia].
Qed.

(** The scan over dots only finds nothing. *)
Lemma splitext_scan_dots pre dots rest : ∀ (rounds skipped : nat),
  all_dots dots = true →
  (skipped + rounds ≤ String.length dots)%nat →
  splitext_scan (pre +:+ dots +:+ rest) (String.length pre + skipped)
    (String.length pre + String.length dots - 1) rounds = None.
Proof.
  induction rounds as [|rounds IH]; intros skipped Hdots Hlen; [done|].
  cbn [splitext_scan]. rewrite str_drop_add, str_drop_app.
  assert (Hdot : String.eqb (str_take 1 (str_drop skipped (dots +:+ rest))) "."
                 = true).
  { clear IH. revert skipped Hlen. induction dots as [|d dots IHd];
      intros skipped Hlen; simpl in *; [lia|].
    apply andb_true_iff in Hdots as [Hd Hdots'].
    apply Ascii.eqb_eq in Hd as ->.
    destruct skipped as [|skipped]; [done|]. simpl. apply IHd; [done|lia]. }
  rewrite Hdot. cbn [negb].
  replace (S (String.length pre + skipped))
    with (String.length pre + S skipped)%nat by lia.
  apply IH; [done|lia].
Qed.

Lemma lower_char_fixes (c x : ascii) :
  (c = "." ∨ c = "/")%char → Ascii.eqb (lower_char x) c = Ascii.eqb x c.
Proof.
  intros [-> | ->];
    destruct x as [[] [] [] [] [] [] [] []]; reflexivity.
Qed.

Lemma has_char_lower c s :
  (c = "." ∨ c = "/")%char → has_char c (lower s) = has_char c s.
Proof.
  intros Hc. induction s as [|x s IH]; simpl; [done|].
  by rewrite IH, lower_char_fixes.
Qed.

(** An extension that [filter_image] accepts is a dot followed by
    characters that are neither dots nor separators. *)
Lemma image_extension_shape ext :
  lower ext ∈ image_extensions →
  ∃ letters, ext = String "." letters
    ∧ has_char "." letters = false ∧ has_char "/" letters = false.
Proof.
  intros Hin. destruct ext as [|x letters].
  { exfalso. simpl in Hin. unfold image_extensions in Hin.
    repeat (apply elem_of_cons in Hin as [Hin|Hin]; [done|]).
    by apply elem_of_nil in Hin. }
  assert (Hx : Ascii.eqb (lower_char x) "." = true
          ∧ has_char "." (lower letters) = false
          ∧ has_char "/" (lower letters) = false).
  { simpl in Hin. unfold image_extensions in Hin.
    repeat (apply elem_of_cons in Hin as [Hin|Hin];
            [injection Hin as -> ->; done|]).
    by apply elem_of_nil in Hin. }
  destruct Hx as (Hx & Hdot & Hsep).
  rewrite lower_char_fixes in Hx by auto. apply Ascii.eqb_eq in Hx as ->.
  rewrite has_char_lower in Hdot, Hsep by auto. by exists letters.
Qed.

(** X8: a name is taken for an image when it ends in one of the five
    extensions, in any mix of upper and lower case, and its last
    component has a character that is not a dot before the extension;
    what directories precede and what other dots the name has does not
    matter. *)
Theorem filter_image_accepts (pre : string) (c : ascii) (stem ext : string) :
  c ≠ "."%char → c ≠ "/"%char →
  has_char "/" stem = false →
  lower ext ∈ image_extensions →
  filter_image (pre +:+ String c stem +:+ ext) = true.
Proof.
  intros Hdot Hsep Hstem Hext.
  destruct (image_extension_shape ext Hext) as (letters & -> & Hl1 & Hl2).
  unfold filter_image, splitext.
  assert (Hdi : rfind "." (pre +:+ String c stem +:+ String "." letters)
                = Z.of_nat (String.length (pre +:+ String c stem))).
  { rewrite <- app_assoc_s, rfind_app. simpl.
    rewrite (rfind_absent _ _ Hl1). simpl. lia. }
  assert (Hsi : rfind "/" (pre +:+ String c stem +:+ String "." letters)
                = rfind "/" pre).
  { rewrite rfind_app.
    rewrite (rfind_absent "/" (String c stem +:+ String "." letters)); [done|].
    simpl. apply Ascii.eqb_neq in Hsep. rewrite Hsep. simpl.
    clear -Hstem Hl2. induction stem as [|d stem IH]; simpl in *.
    - done.
    - apply orb_false_iff in Hstem as [-> Hstem]. by apply IH. }
  rewrite Hdi, Hsi. pose proof (rfind_bounds "/" pre) as Hb.
  rewrite length_app_s in *. simpl String.length in *.
  destruct (Z.ltb_spec (rfind "/" pre)
              (Z.of_nat (String.length pre + S (String.length stem))));
    [|lia].
  rewrite (splitext_scan_found _ (String.length pre)); [| lia | lia |].
  - rewrite Nat2Z.id, <- app_assoc_s.
    replace (String.length pre + S (String.length stem))%nat
      with (String.length (pre +:+ String c stem))
      by (rewrite length_app_s; done).
    rewrite str_drop_app. by rewrite bool_decide_true.
  - rewrite str_drop_app. simpl. apply Ascii.eqb_neq in Hdot.
    by rewrite Hdot.
Qed.

Lemma filter_image_accepts_witness :
  filter_image ("albums/.cache/" +:+ "IMG.0042" +:+ ".JpEg") = true.
Proof.
  apply (filter_image_accepts "albums/.cache/" "I" "MG.0042" ".JpEg").
  - discriminate.
  - discriminate.
  - reflexivity.
  - by apply (bool_decide_unpack _).
Defined.

Lemma rfind_all_dots dots :
  all_dots dots = true → dots ≠ EmptyString →
  rfind "." dots = Z.of_nat (String.length dots) - 1.
Proof.
  induction dots as [|d dots IH]; [done|]. intros Hdots _.
  cbn [all_dots] in Hdots. apply andb_true_iff in Hdots as [Hd Hdots].
  cbn [rfind String.length]. destruct dots as [|d' dots].
  - simpl. rewrite Hd. done.
  - rewrite IH by done. cbn [String.length].
    destruct (Z.leb_spec 0 (Z.of_nat (S (String.length dots)) - 1)); lia.
Qed.

(** X9: a name whose last component is dots followed by characters that
    hold no dot (a hidden file such as .png, or a name with no extension
    at all) is not taken for an image, whatever precedes it. *)
Theorem filter_image_rejects_dotfile (pre dots word : string) :
  all_dots dots = true →
  has_char "." word = false →
  has_char "/" word = false →
  filter_image (pre +:+ "/" +:+ dots +:+ word) = false
  ∧ filter_image (dots +:+ word) = false.
Proof.
  intros Hdots Hw1 Hw2.
  assert (Hgen : ∀ dir, (dir = EmptyString ∨ ∃ pre', dir = pre' +:+ "/") →
            filter_image (dir +:+ dots +:+ word) = false).
  { intros dir Hdir. unfold filter_image, splitext.
    assert (Hsi : rfind "/" (dir +:+ dots +:+ word)
                  = Z.of_nat (String.length dir) - 1).
    { rewrite rfind_app. rewrite (rfind_absent "/" (dots +:+ word)).
      - simpl. destruct Hdir as [->|[pre' ->]]; [done|].
        rewrite rfind_app, length_app_s. simpl. lia.
      - clear -Hdots Hw2. induction dots as [|d dots IH]; simpl in *; [done|].
        apply andb_true_iff in Hdots as [Hd Hdots].
        apply Ascii.eqb_eq in Hd as ->. by apply IH. }
    assert (Hdi : rfind "." (dir +:+ dots +:+ word)
                  = if is_empty dots then rfind "." dir
                    else Z.of_nat (String.length dir + String.length dots) - 1).
    { rewrite rfind_app, rfind_app, (rfind_absent _ _ Hw1). simpl.
      destruct dots as [|d dots]; [done|]. simpl is_empty. cbn iota.
      rewrite (rfind_all_dots _ Hdots) by done. cbn [String.length].
      destruct (Z.leb_spec 0 (Z.of_nat (S (String.length dots)) - 1)); lia. }
    rewrite Hsi, Hdi. destruct dots as [|d dots].
    - simpl is_empty. cbn iota. pose proof (rfind_bounds "." dir).
      destruct (Z.ltb_spec (Z.of_nat (String.length dir) - 1) (rfind "." dir));
        [lia|done].
    - simpl is_empty. cbn iota.
      destruct (Z.ltb_spec (Z.of_nat (String.length dir) - 1)
                  (Z.of_nat (String.length dir + String.length (String d dots))
                   - 1)); [|done].
      replace (Z.to_nat (Z.of_nat (String.length dir) - 1 + 1))
        with (String.length dir + 0)%nat by lia.
      replace (Z.to_nat (Z.of_nat (String.length dir
                                   + String.length (String d dots)) - 1))
        with (String.length dir + String.length (String d dots) - 1)%nat
        by lia.
      rewrite splitext_scan_dots; [done|done|]. simpl. lia. }
  split.
  - rewrite <- (app_assoc_s pre "/" (dots +:+ word)).
    apply Hgen. right. by exists pre.
  - apply (Hgen EmptyString). by left.
Qed.

Lemma filter_image_rejects_dotfile_witness :
  filter_image ("photos.png" +:+ "/" +:+ "." +:+ "png") = false
  ∧ filter_image ("." +:+ "png") = false.
Proof.
  apply (filter_image_rejects_dotfile "photos.png" "." "png"); reflexivity.
Defined.

(** ** scale_dims *)

(** X10: for a square (width equal to height) the result is
    [(min_val, min_val)], computed on ints alone: no float operation is
    reached and nothing is raised, zero sizes included. *)
Theorem scale_dims_square fm (side min_val : Z) :
  scale_dims fm side side min_val = Done (min_val, min_val).
Proof.
  unfold scale_dims. rewrite Z.ltb_irrefl. simpl.
  rewrite Z.eqb_refl. simpl.
  destruct (Z.gtb_spec min_val min_val); [lia|reflexivity].
Qed.

(** X11: whenever [scale_dims] returns, the height it returns is
    [min_val], also when the height was the larger side: the portrait
    branch scales the width down and gives [min_val] to the height. *)
Theorem scale_dims_height fm (width height min_val : Z) :
  match scale_dims fm width height min_val with
  | Done (_, h) => h = min_val
  | Failed _ => True
  end.
Proof.
  unfold scale_dims, sbind.
  destruct (Z.ltb_spec width height) as [Hlt|Hge].
  - destruct (num_mul (Int width) min_val) as [product|]; [|done].
    destruct (num_truediv product height) as [width1|]; [|done].
    destruct (num_eq width1 min_val);
      [simpl; by destruct (Z.gtb_spec min_val min_val); [lia|]|].
    destruct (num_gt width1 min_val).
    + destruct (num_mul width1 min_val) as [product2|]; [|done].
      destruct (num_truediv product2 min_val) as [width2|]; [|done].
      by destruct (num_round width2).
    + by destruct (num_round width1).
  - simpl num_eq. destruct (Z.eqb_spec width height) as [->|Hne].
    + simpl. by destruct (Z.gtb_spec min_val min_val); [lia|].
    + simpl num_gt. destruct (Z.gtb_spec width height); [|lia].
      destruct (num_mul (Int width) min_val) as [product|]; [|done].
      destruct (num_truediv product height) as [width1|]; [|done].
      by destruct (num_round width1).
Qed.

(** In exact arithmetic: a landscape image gets [min_val] for its
    smaller side, a portrait image for its larger one. *)
Lemma scale_dims_samples :
  scale_dims exact_arithmetic 200 100 50 = Done (100, 50)
  ∧ scale_dims exact_arithmetic 100 200 50 = Done (25, 50)
  ∧ scale_dims exact_arithmetic 3 2 5 = Done (8, 5).
Proof. repeat split; reflexivity. Qed.

(** X12: a height of zero with a width that is not zero raises
    [ZeroDivisionError], for every [min_val]. *)
Theorem scale_dims_zero_height fm (width min_val : Z) :
  width ≠ 0 →
  scale_dims fm width 0 min_val
  = Failed (ZeroDivisionError "division by zero").
Proof.
  intros Hw. unfold scale_dims, sbind.
  destruct (Z.ltb_spec width 0) as [Hlt|Hge]; [reflexivity|].
  simpl num_eq. destruct (Z.eqb_spec width 0); [done|].
  simpl num_gt. destruct (Z.gtb_spec width 0); [reflexivity|lia].
Qed.

Lemma scale_dims_zero_height_witness :
  scale_dims exact_arithmetic 640 0 200
  = Failed (ZeroDivisionError "division by zero").
Proof. apply (scale_dims_zero_height exact_arithmetic 640 200). lia. Defined.

(** * More on the server *)

(** ** Port negotiation, for every outcome *)

Lemma attempts_one host p : attempts host p 1 = [EvBind (host, p)].
Proof. unfold attempts. simpl. by rewrite Z.add_0_r. Qed.

(** What a negotiation with no port requested does, whatever the
    outcome: it tries the ports from the first on, one by one, as long
    as they are occupied and not above 7500, and ends at the first port
    that is free, fails otherwise, or is occupied above 7500. *)
Lemma start_httpd_run w args b host handler (m : nat) : ∀ p st,
  port args = None →
  (Z.to_nat (7501 - p) ≤ m)%nat →
  ∃ n : nat,
    (∀ i : nat, (i < n)%nat → busy w (host, p + Z.of_nat i))
    ∧ (n = 0%nat ∨ p + Z.of_nat n ≤ 7501)
    ∧ start_httpd (server_class_of w args b) (host, p) handler args st
      = match sock_bind w (host, p + Z.of_nat n) with
        | None =>
            (Return {| socket := (host, p + Z.of_nat n);
                       RequestHandlerClass := handler;
                       directory := directory (httpd_of args b (host, p)) |},
             traced st (attempts host p (S n)))
        | Some error =>
            if is_in_use error then
              (Raise system_exit,
               printed (traced st (attempts host p (S n))) [diagnostic error])
            else (Raise error, traced st (attempts host p (S n)))
        end
    ∧ match sock_bind w (host, p + Z.of_nat n) with
      | Some error => is_in_use error = true → 7500 < p + Z.of_nat n
      | None => True
      end.
Proof.
  induction m as [|m IH]; intros p st Hport Hm.
  - exists 0%nat. rewrite Z.add_0_r, attempts_one. split; [intros i Hi; lia|].
    split; [by left|].
    rewrite start_httpd_eq, server_class_of_eq.
    destruct (sock_bind w (host, p)) as [error|]; [|done].
    destruct (is_in_use error); [|done]. rewrite Hport. simpl.
    destruct (Z.gtb_spec p 7500); [|lia]. split; [done|lia].
  - destruct (sock_bind w (host, p)) as [error|] eqn:Hbind.
    + destruct (is_in_use error) eqn:Huse.
      * destruct (Z.le_gt_cases p 7500) as [Hle|Hgt].
        -- destruct (IH (p + 1) (traced st [EvBind (host, p)]) Hport)
             as (n & Hbusy & Hbound & Hrun & Hend); [lia|].
           exists (S n).
           replace (p + Z.of_nat (S n)) with (p + 1 + Z.of_nat n) by lia.
           split; [|split; [right; lia|split]].
           ++ intros [|i] Hi.
              ** rewrite Z.add_0_r. by exists error.
              ** replace (p + Z.of_nat (S i)) with (p + 1 + Z.of_nat i) by lia.
                 apply Hbusy. lia.
           ++ rewrite (start_httpd_retry w args b host p handler st Hport);
                [|by exists error|done].
              rewrite Hrun, (attempts_S host p (S n)).
              destruct (sock_bind w (host, p + 1 + Z.of_nat n)) as [e'|];
                [destruct (is_in_use e')|]; by rewrite traced_traced.
           ++ done.
        -- exists 0%nat. rewrite Z.add_0_r, attempts_one. split; [intros i Hi; lia|].
           split; [by left|].
           rewrite start_httpd_eq, server_class_of_eq, Hbind, Huse, Hport.
           simpl. destruct (Z.gtb_spec p 7500); [|lia]. split; [done|lia].
      * exists 0%nat. rewrite Z.add_0_r, attempts_one. split; [intros i Hi; lia|].
        split; [by left|].
        rewrite start_httpd_eq, server_class_of_eq, Hbind, Huse.
        split; done.
    + exists 0%nat. rewrite Z.add_0_r, attempts_one. split; [intros i Hi; lia|].
      split; [by left|].
      by rewrite start_httpd_eq, server_class_of_eq, Hbind.
Qed.

(** X13: with no port requested, the server [start_httpd] returns is
    bound to the first free port at or after the one it started from:
    every port before it was found occupied, and it is not above 7501
    unless it is the starting port itself. *)
Theorem start_httpd_binds_first_free w args b host p handler st httpd st' :
  port args = None →
  start_httpd (server_class_of w args b) (host, p) handler args st
    = (Return httpd, st') →
  ∃ n : nat,
    socket httpd = (host, p + Z.of_nat n)
    ∧ sock_bind w (host, p + Z.of_nat n) = None
    ∧ (∀ i : nat, (i < n)%nat → busy w (host, p + Z.of_nat i))
    ∧ (n = 0%nat ∨ p + Z.of_nat n ≤ 7501).
Proof.
  intros Hport Hret.
  destruct (start_httpd_run w args b host handler _ p st Hport (le_n _))
    as (n & Hbusy & Hbound & Hrun & _).
  exists n. rewrite Hret in Hrun.
  destruct (sock_bind w (host, p + Z.of_nat n)) as [error|].
  - by destruct (is_in_use error).
  - by injection Hrun as -> _.
Qed.

Lemma start_httpd_binds_first_free_witness :
  ∃ n : nat,
    socket {| socket := ("::", 7449);
              RequestHandlerClass := handler_class_of no_port Python38;
              directory := None |} = ("::", 7447 + Z.of_nat n)
    ∧ sock_bind (offline [7447; 7448]) ("::", 7447 + Z.of_nat n) = None
    ∧ (∀ i : nat, (i < n)%nat →
         busy (offline [7447; 7448]) ("::", 7447 + Z.of_nat i))
    ∧ (n = 0%nat ∨ 7447 + Z.of_nat n ≤ 7501).
Proof.
  apply (start_httpd_binds_first_free (offline [7447; 7448]) no_port Python38
           "::" 7447 (handler_class_of no_port Python38) home_only _
           (traced home_only [EvBind ("::", 7447); EvBind ("::", 7448);
                              EvBind ("::", 7449)]));
    reflexivity.
Defined.

(** X14: with no port requested, the bind attempts of a negotiation are
    on consecutive ports from the starting one, each tried once and in
    order, whatever the outcome; no port above 7501 is tried unless the
    negotiation started there. *)
Theorem start_httpd_attempts w args b host p handler st :
  port args = None →
  ∃ n : nat,
    trace (start_httpd (server_class_of w args b) (host, p) handler args st).2
      = (trace st ++ attempts host p (S n))%list
    ∧ (n = 0%nat ∨ p + Z.of_nat n ≤ 7501).
Proof.
  intros Hport.
  destruct (start_httpd_run w args b host handler _ p st Hport (le_n _))
    as (n & _ & Hbound & -> & _).
  exists n. split; [|done].
  destruct (sock_bind w (host, p + Z.of_nat n)) as [error|]; [|done].
  by destruct (is_in_use error).
Qed.

Lemma start_httpd_attempts_witness :
  ∃ n : nat,
    trace (start_httpd (server_class_of crowded no_port Python36)
             (EmptyString, 7447) (handler_class_of no_port Python36) no_port
             home_only).2
      = (trace home_only ++ attempts EmptyString 7447 (S n))%list
    ∧ (n = 0%nat ∨ 7447 + Z.of_nat n ≤ 7501).
Proof.
  apply (start_httpd_attempts crowded no_port Python36 EmptyString 7447).
  reflexivity.
Defined.

(** X15: when no port is requested and every port from the starting one
    up to 7501 is occupied, [start_httpd] tries each of them once, prints
    its line once and exits. *)
Theorem start_httpd_exhausted w args b host p handler st :
  port args = None →
  p ≤ 7501 →
  (∀ q, p ≤ q ≤ 7501 → busy w (host, q)) →
  start_httpd (server_class_of w args b) (host, p) handler args st
  = (Raise system_exit,
     printed (traced st (attempts host p (Z.to_nat (7502 - p))))
       ["OSError: [Errno 98] Address already in use. Try a different port using the -p flag."]).
Proof.
  intros Hport Hp Hbusy.
  rewrite (start_httpd_busy_run w args b host handler (Z.to_nat (7501 - p))
             p st Hport); [| |lia].
  2:{ intros i Hi. apply Hbusy. lia. }
  replace (p + Z.of_nat (Z.to_nat (7501 - p))) with 7501 by lia.
  destruct (Hbusy 7501 ltac:(lia)) as (error & Hbind & Huse).
  rewrite start_httpd_eq, server_class_of_eq, Hbind, Huse, Hport, exit_eq.
  simpl. rewrite traced_traced.
  replace (Z.to_nat (7502 - p)) with (S (Z.to_nat (7501 - p))) by lia.
  unfold attempts at 2. rewrite seq_S, map_app. simpl.
  replace (p + Z.of_nat (Z.to_nat (7501 - p))) with 7501 by lia.
  unfold is_in_use in Huse. apply andb_true_iff in Huse as [_ Hstr].
  apply String.eqb_eq in Hstr. unfold diagnostic. by rewrite Hstr.
Qed.

Lemma start_httpd_exhausted_witness :
  start_httpd (server_class_of crowded no_port Python36) (EmptyString, 7447)
    (handler_class_of no_port Python36) no_port home_only
  = (Raise system_exit,
     printed (traced home_only (attempts EmptyString 7447 (Z.to_nat (7502 - 7447))))
       ["OSError: [Errno 98] Address already in use. Try a different port using the -p flag."]).
Proof.
  apply (start_httpd_exhausted crowded no_port Python36 EmptyString 7447).
  - reflexivity.
  - lia.
  - intros q Hq. eexists. split; reflexivity.
Defined.

(** X16: with a port requested, [start_httpd] makes one bind attempt and
    no other, whether the attempt succeeds, finds the port occupied, or
    fails in any other way. *)
Theorem start_httpd_pinned_once w args b addr handler st requested :
  port args = Some requested →
  trace (start_httpd (server_class_of w args b) addr handler args st).2
  = (trace st ++ [EvBind addr])%list.
Proof.
  intros Hport. rewrite start_httpd_eq, server_class_of_eq.
  destruct (sock_bind w addr) as [error|]; [|done].
  destruct (is_in_use error); [|done]. by rewrite Hport.
Qed.

Lemma start_httpd_pinned_once_witness :
  trace (start_httpd (server_class_of crowded (with_port 8080) Python38)
           ("::", 8080) (handler_class_of (with_port 8080) Python38)
           (with_port 8080) home_only).2
  = (trace home_only ++ [EvBind ("::", 8080)])%list.
Proof.
  apply (start_httpd_pinned_once crowded (with_port 8080) Python38
           ("::", 8080) _ home_only 8080).
  reflexivity.
Defined.

(** ** The probe, case by case *)

Lemma get_public_ip_cases w host port st :
  let st1 := traced st [EvUrlopen ipify_url 5] in
  let absorbed (e : exception) (st' : state) : outcome (string * Z) * state :=
    if isinstance e URLError then (Return (host, port), st')
    else (Raise e, st') in
  get_public_ip w host port st =
  match urlopen_answer w ipify_url with
  | Raise e => absorbed e st1
  | Return r =>
      match read r with
      | Raise e => absorbed e st1
      | Return raw =>
          if utf8_valid raw then
            let public_host := string_of_list_byte raw in
            let st2 := traced st [EvUrlopen ipify_url 5;
                                  EvUrlopen (confirmation_url public_host port) 5] in
            match urlopen_answer w (confirmation_url public_host port) with
            | Raise e => absorbed e st2
            | Return r2 =>
                (Return (if getcode r2 =? 200 then public_host else host, port),
                 st2)
            end
          else
            (Raise {| cls := UnicodeDecodeError;
                      str := "'utf-8' codec can't decode bytes";
                      code := None |}, st1)
      end
  end.
Proof.
  unfold get_public_ip, bind, try_except, urlopen, emit, response_read,
    decode_utf8, ret, raise, confirmation_url, traced; cbn -[String.append].
  destruct (urlopen_answer w ipify_url) as [r|e]; cbn -[String.append].
  2:{ rewrite orb_false_r. by destruct (isinstance e URLError). }
  destruct (read r) as [raw|e]; cbn -[String.append].
  2:{ rewrite orb_false_r. by destruct (isinstance e URLError). }
  destruct (utf8_valid raw); cbn -[String.append]; [|done].
  destruct (urlopen_answer w _) as [r2|e]; cbn -[String.append].
  - rewrite <- app_assoc. by destruct (getcode r2 =? 200).
  - rewrite orb_false_r, <- app_assoc. by destruct (isinstance e URLError).
Qed.

(** X17: [get_public_ip] either returns, and then with the port it was
    given, or raises an exception that is not a [URLError]: no
    [URLError], and no [HTTPError], ever reaches the caller. *)
Theorem get_public_ip_port_or_other_error w host port st :
  match (get_public_ip w host port st).1 with
  | Return reported => reported.2 = port
  | Raise e => isinstance e URLError = false
  end.
Proof.
  rewrite get_public_ip_cases. cbv zeta.
  destruct (urlopen_answer w ipify_url) as [r|e];
    [|by destruct (isinstance e URLError) eqn:He].
  destruct (read r) as [raw|e];
    [|by destruct (isinstance e URLError) eqn:He].
  destruct (utf8_valid raw); [|done].
  destruct (urlopen_answer w _) as [r2|e]; [done|].
  by destruct (isinstance e URLError) eqn:He.
Qed.

(** X18: a host other than the one given is reported only when the echo
    answered, its body was UTF-8, and the confirmation request to that
    host and the given port answered with status 200; the host reported
    is then the body of the echo, as it came. *)
Theorem get_public_ip_public_only_confirmed w host port st reported :
  (get_public_ip w host port st).1 = Return reported →
  reported.1 ≠ host →
  ∃ r raw r2,
    urlopen_answer w ipify_url = Return r
    ∧ read r = Return raw
    ∧ utf8_valid raw = true
    ∧ reported.1 = string_of_list_byte raw
    ∧ urlopen_answer w (confirmation_url reported.1 port) = Return r2
    ∧ getcode r2 = 200.
Proof.
  rewrite get_public_ip_cases. cbv zeta.
  destruct (urlopen_answer w ipify_url) as [r|e];
    [|destruct (isinstance e URLError); [by intros [= <-]|done]].
  destruct (read r) as [raw|e] eqn:Hread;
    [|destruct (isinstance e URLError); [by intros [= <-]|done]].
  destruct (utf8_valid raw) eqn:Hvalid; [|done].
  destruct (urlopen_answer w _) as [r2|e] eqn:Hconfirm;
    [|destruct (isinstance e URLError); [by intros [= <-]|done]].
  destruct (Z.eqb_spec (getcode r2) 200); intros [= <-]; [|done].
  intros _. by exists r, raw, r2.
Qed.

Lemma get_public_ip_public_only_confirmed_witness :
  ∃ r raw r2,
    urlopen_answer (online (answer [Byte.x31; Byte.x2e; Byte.x32] 200)
                      (answer [] 200)) ipify_url = Return r
    ∧ read r = Return raw
    ∧ utf8_valid raw = true
    ∧ ("1.2", 7447).1 = string_of_list_byte raw
    ∧ urlopen_answer (online (answer [Byte.x31; Byte.x2e; Byte.x32] 200)
                        (answer [] 200))
        (confirmation_url ("1.2", 7447).1 7447) = Return r2
    ∧ getcode r2 = 200.
Proof.
  apply (get_public_ip_public_only_confirmed
           (online (answer [Byte.x31; Byte.x2e; Byte.x32] 200) (answer [] 200))
           "0.0.0.0" 7447 home_only ("1.2", 7447)).
  - reflexivity.
  - discriminate.
Defined.

(** X19: [get_public_ip] sends at most two requests, each with a timeout
    of 5: the first always to the echo service; the second exactly when
    the echo answered with a body that is UTF-8, and then to that body,
    decoded, as host, at the given port.  It prints nothing and leaves
    the file system alone. *)
Theorem get_public_ip_requests w host port st :
  let st' := (get_public_ip w host port st).2 in
  stdout st' = stdout st
  ∧ fs st' = fs st
  ∧ trace st'
    = (trace st ++ EvUrlopen ipify_url 5 ::
       match urlopen_answer w ipify_url with
       | Return r =>
           match read r with
           | Return raw =>
               if utf8_valid raw
               then [EvUrlopen
                       ("http://" +:+ string_of_list_byte raw +:+ ":"
                        +:+ str_int port +:+ "/") 5]
               else []
           | Raise _ => []
           end
       | Raise _ => []
       end)%list.
Proof.
  rewrite get_public_ip_cases. cbv zeta.
  destruct (urlopen_answer w ipify_url) as [r|e];
    [|by destruct (isinstance e URLError)].
  destruct (read r) as [raw|e];
    [|by destruct (isinstance e URLError)].
  destruct (utf8_valid raw); [|done].
  destruct (urlopen_answer w _) as [r2|e];
    [|destruct (isinstance e URLError)]; done.
Qed.

(** ** The branches of start_server, end to end *)

Lemma start_server_of_eq b w args :
  start_server_of b w args =
  (httpd <- start_httpd (server_class_of w args b)
              (server_address_of w args b) (handler_class_of args b) args ;;
   Thread_start_serve_forever httpd ;;;
   let '(host, port) := getsockname w (socket httpd) in
   hp <- get_public_ip w host port ;;
   tqdm_write (serve_message hp.1 hp.2) ;;;
   ret httpd).
Proof. by destruct b. Qed.

(** What [start_httpd] leaves behind, for every request of a port:
    bind attempts only, and output only when it exits. *)
Lemma start_httpd_effects w args b handler (m : nat) : ∀ addr st,
  (Z.to_nat (7501 - addr.2) ≤ m)%nat →
  let r := start_httpd (server_class_of w args b) addr handler args st in
  (∃ addrs, trace r.2 = (trace st ++ map EvBind addrs)%list)
  ∧ fs r.2 = fs st
  ∧ match r.1 with
    | Return httpd =>
        stdout r.2 = stdout st ∧ sock_bind w (socket httpd) = None
        ∧ RequestHandlerClass httpd = handler
    | Raise _ => True
    end.
Proof.
  induction m as [|m IH]; intros addr st Hm; simpl;
    rewrite start_httpd_eq, server_class_of_eq;
    (destruct (sock_bind w addr) as [error|] eqn:Hbind; simpl;
     [|split; [by exists [addr]|done]]);
    (destruct (is_in_use error);
     [|split; [by exists [addr]|done]]);
    (destruct (port args);
     [split; [by exists [addr]|done]|]);
    (destruct (Z.gtb_spec addr.2 7500);
     [split; [by exists [addr]|done]|]).
  - lia.
  - destruct (IH (addr.1, addr.2 + 1) (traced st [EvBind addr]))
      as ([addrs Htr] & Hfs & Hret); [simpl; lia|].
    split; [|split; [done|]].
    + exists (addr :: addrs). rewrite Htr. simpl. by rewrite <- app_assoc.
    + done.
Qed.

Lemma get_public_ip_quiet w host port st :
  stdout (get_public_ip w host port st).2 = stdout st
  ∧ match (get_public_ip w host port st).1 with
    | Return reported => reported.2 = port
    | Raise _ => True
    end.
Proof.
  rewrite get_public_ip_cases. cbv zeta.
  destruct (urlopen_answer w ipify_url) as [r|e];
    [|by destruct (isinstance e URLError)].
  destruct (read r) as [raw|e]; [|by destruct (isinstance e URLError)].
  destruct (utf8_valid raw); [|done].
  destruct (urlopen_answer w _) as [r2|e]; [done|].
  by destruct (isinstance e URLError).
Qed.

(** What a branch does once [start_httpd] has returned a server. *)
Lemma start_server_of_bound b w args st httpd st1 :
  start_httpd (server_class_of w args b) (server_address_of w args b)
    (handler_class_of args b) args st = (Return httpd, st1) →
  start_server_of b w args st =
  match get_public_ip w (getsockname w (socket httpd)).1
          (getsockname w (socket httpd)).2
          (traced st1 [EvThreadStart (socket httpd)]) with
  | (Return hp, st2) =>
      (Return httpd, printed st2 [serve_message hp.1 hp.2])
  | (Raise e, st2) => (Raise e, st2)
  end.
Proof.
  intros Hbound. rewrite start_server_of_eq.
  rewrite (bind_return _ _ _ _ _ Hbound).
  unfold Thread_start_serve_forever.
  rewrite (bind_return (emit _) _ st1 tt
             (traced st1 [EvThreadStart (socket httpd)])) by done.
  destruct (getsockname w (socket httpd)) as [host port]. simpl.
  unfold bind at 1.
  destruct (get_public_ip w host port _) as [[hp|e] st2]; done.
Qed.

(** X20: when a branch of [start_server] returns a server, it has
    printed one line and no other, the serving message, and the port in
    it is the port of the socket the server is bound to, whichever host
    the probe reported. *)
Theorem start_server_announces_bound_port b w args st httpd st' :
  start_server_of b w args st = (Return httpd, st') →
  sock_bind w (socket httpd) = None
  ∧ ∃ host,
      stdout st'
      = (stdout st
         ++ [serve_message host (getsockname w (socket httpd)).2])%list.
Proof.
  pose proof (start_httpd_effects w args b (handler_class_of args b) _
                (server_address_of w args b) st (le_n _)) as (_ & _ & Heff).
  simpl in Heff.
  destruct (start_httpd _ _ _ _ st) as [[bound|e] st1] eqn:Hneg.
  - rewrite (start_server_of_bound b w args st bound st1 Hneg).
    destruct Heff as (Hout & Hfree & _). simpl in *.
    pose proof (get_public_ip_quiet w
                  (getsockname w (socket bound)).1
                  (getsockname w (socket bound)).2
                  (traced st1 [EvThreadStart (socket bound)]))
      as (Hquiet & Hport).
    destruct (get_public_ip _ _ _ _) as [[hp|e] st2]; [|done].
    intros [= <- <-]. split; [done|]. exists hp.1. simpl in *.
    by rewrite Hquiet, Hout, Hport.
  - rewrite start_server_of_eq, (bind_raise _ _ _ _ _ Hneg). done.
Qed.

Lemma start_server_announces_bound_port_witness :
  ∃ host,
    stdout (printed
              (traced home_only
                 [EvBind (EmptyString, 7447); EvBind (EmptyString, 7448);
                  EvThreadStart (EmptyString, 7448); EvUrlopen ipify_url 5])
              ["Serving HTTP on 0.0.0.0:7448. Press CTRL-C to quit."])
    = (stdout home_only
       ++ [serve_message host
             (getsockname (offline [7447])
                (socket (httpd_of no_port Python36 (EmptyString, 7448)))).2])%list.
Proof.
  refine (proj2 (start_server_announces_bound_port Python36 (offline [7447])
                   no_port home_only
                   (httpd_of no_port Python36 (EmptyString, 7448)) _ _)).
  reflexivity.
Defined.

(** X21: when the negotiation fails, the branch fails with the same
    exception, having made bind attempts and nothing else: no thread is
    started and no request is sent. *)
Theorem start_server_nothing_after_failed_bind b w args st e :
  (start_httpd (server_class_of w args b) (server_address_of w args b)
     (handler_class_of args b) args st).1 = Raise e →
  (start_server_of b w args st).1 = Raise e
  ∧ ∃ addrs,
      trace (start_server_of b w args st).2
      = (trace st ++ map EvBind addrs)%list.
Proof.
  intros Hneg.
  pose proof (start_httpd_effects w args b (handler_class_of args b) _
                (server_address_of w args b) st (le_n _)) as (Htr & _).
  simpl in Htr.
  destruct (start_httpd _ _ _ _ st) as [o st1] eqn:Hrun.
  simpl in Hneg. subst o.
  by rewrite start_server_of_eq, (bind_raise _ _ _ _ _ Hrun).
Qed.

Lemma start_server_nothing_after_failed_bind_witness :
  (start_server_of Python38 crowded (with_port 8080) home_only).1
    = Raise system_exit
  ∧ ∃ addrs,
      trace (start_server_of Python38 crowded (with_port 8080) home_only).2
      = (trace home_only ++ map EvBind addrs)%list.
Proof.
  apply (start_server_nothing_after_failed_bind Python38 crowded
           (with_port 8080) home_only system_exit).
  reflexivity.
Defined.

(** X22: when the port is free but the echo request raises an exception
    that is not a [URLError], the branch raises it to its caller after
    the serving thread has been started: the server is left running,
    and no serving message is printed. *)
Theorem start_server_probe_error_after_thread b w args st e :
  sock_bind w (server_address_of w args b) = None →
  urlopen_answer w ipify_url = Raise e →
  isinstance e URLError = false →
  start_server_of b w args st
  = (Raise e,
     traced st [EvBind (server_address_of w args b);
                EvThreadStart (server_address_of w args b);
                EvUrlopen ipify_url 5]).
Proof.
  intros Hfree Hecho Hother.
  assert (Hneg : start_httpd (server_class_of w args b)
                   (server_address_of w args b) (handler_class_of args b)
                   args st
                 = (Return (httpd_of args b (server_address_of w args b)),
                    traced st [EvBind (server_address_of w args b)])).
  { rewrite start_httpd_eq, server_class_of_eq, Hfree. by destruct b. }
  rewrite (start_server_of_bound b w args st _ _ Hneg).
  rewrite get_public_ip_cases. cbv zeta. rewrite Hecho, Hother.
  by rewrite !traced_traced.
Qed.

Lemma start_server_probe_error_after_thread_witness :
  start_server_of Python38
    (online (Raise (os_error ConnectionResetError 104
                      "Connection reset by peer"))
            (answer [] 200))
    no_port home_only
  = (Raise (os_error ConnectionResetError 104 "Connection reset by peer"),
     traced home_only [EvBind ("::", 7447); EvThreadStart ("::", 7447);
                       EvUrlopen ipify_url 5]).
Proof.
  apply (start_server_probe_error_after_thread Python38
           (online (Raise (os_error ConnectionResetError 104
                             "Connection reset by peer"))
                   (answer [] 200))
           no_port home_only); reflexivity.
Defined.

(** X23: when the port is free and the echo request raises a [URLError],
    the branch returns the server bound to that port and announces the
    address of the socket itself: one bind attempt, the thread, one
    request, one line. *)
Theorem start_server_offline b w args st e :
  sock_bind w (server_address_of w args b) = None →
  urlopen_answer w ipify_url = Raise e →
  isinstance e URLError = true →
  start_server_of b w args st
  = (Return (httpd_of args b (server_address_of w args b)),
     printed
       (traced st [EvBind (server_address_of w args b);
                   EvThreadStart (server_address_of w args b);
                   EvUrlopen ipify_url 5])
       [serve_message (getsockname w (server_address_of w args b)).1
          (getsockname w (server_address_of w args b)).2]).
Proof.
  intros Hfree Hecho Hurl.
  assert (Hneg : start_httpd (server_class_of w args b)
                   (server_address_of w args b) (handler_class_of args b)
                   args st
                 = (Return (httpd_of args b (server_address_of w args b)),
                    traced st [EvBind (server_address_of w args b)])).
  { rewrite start_httpd_eq, server_class_of_eq, Hfree. by destruct b. }
  rewrite (start_server_of_bound b w args st _ _ Hneg).
  rewrite get_public_ip_cases. cbv zeta. rewrite Hecho, Hurl.
  by rewrite !traced_traced.
Qed.

Lemma start_server_offline_witness :
  start_server_of Python36 (offline []) no_port home_only
  = (Return (httpd_of no_port Python36 (EmptyString, 7447)),
     printed
       (traced home_only [EvBind (EmptyString, 7447);
                          EvThreadStart (EmptyString, 7447);
                          EvUrlopen ipify_url 5])
       ["Serving HTTP on 0.0.0.0:7447. Press CTRL-C to quit."]).
Proof.
  apply (start_server_offline Python36 (offline []) no_port home_only
           {| cls := URLError;
              str := "<urlopen error [Errno 101] Network is unreachable>";
              code := None |}); reflexivity.
Defined.

(** ** start_server on a root that exists, and on other versions *)





(** ** More on path translation *)

Lemma before_snoc c path rest :
  before c (path +:+ String c rest) = before c path.
Proof.
  induction path as [|d path IH]; simpl.
  - by rewrite Ascii.eqb_refl.
  - destruct (Ascii.eqb d c); [done|]. by rewrite IH.
Qed.

Lemma before_app c path : ∀ rest,
  before c (path +:+ rest)
  = if has_char c path then before c path else path +:+ before c rest.
Proof.
  induction path as [|d path IH]; intros rest; simpl; [done|].
  destruct (Ascii.eqb d c); simpl; [done|].
  rewrite IH. by destruct (has_char c path).
Qed.

Lemma before_before_fragment path rest :
  before "#" (before "?" (path +:+ String "#" rest))
  = before "#" (before "?" path).
Proof.
  rewrite before_app. destruct (has_char "?" path) eqn:Hq; [done|].
  change (before "?" (String "#" rest)) with (String "#" (before "?" rest)).
  rewrite before_snoc.
  assert (Hsame : before "?" path = path); [|by rewrite Hsame].
  clear rest. induction path as [|d path IH]; simpl in *; [done|].
  apply orb_false_iff in Hq as [-> Hq]. by rewrite IH.
Qed.

(** X26: a query or a fragment after the request path does not change
    the file [translate_path] names, on either branch and for every
    server. *)
Theorem translate_path_ignores_query_and_fragment w httpd unquote path rest st :
  translate_path w httpd unquote (path +:+ String "?" rest) st
  = translate_path w httpd unquote path st
  ∧ translate_path w httpd unquote (path +:+ String "#" rest) st
    = translate_path w httpd unquote path st.
Proof.
  unfold translate_path, SimpleHTTPRequestHandler_translate_path,
    request_words, trailing_slash.
  by rewrite before_snoc, before_before_fragment.
Qed.

(** X27: on the branch of Python 3.6 and 3.7, where the server carries
    the directory, the translated path is the root joined with the kept
    words of the request and nothing else: the trailing slash that the
    library's translation keeps is lost on the way through [relpath],
    and the request of the root itself yields the root followed by a
    dot. *)
Theorem translate_path_36_loses_trailing_slash w args addr unquote path st :
  posixpath.isabs (getcwd w) = true →
  translate_path w (httpd_of args Python36 addr) unquote path st
  = (Return (posixpath.join (thumb_dir args)
               [relative_words (request_words unquote path)]), st).
Proof.
  intros Hcwd. unfold translate_path, httpd_of, handler_base. simpl.
  unfold bind. by rewrite (relpath_translated w unquote path st Hcwd).
Qed.

Lemma translate_path_36_loses_trailing_slash_witness :
  translate_path (offline []) (httpd_of no_port Python36 (EmptyString, 7447))
    (λ s, s) "/html/" home_only
  = (Return "shis/html", home_only)
  ∧ translate_path (offline []) (httpd_of no_port Python38 ("::", 7447))
      (λ s, s) "/html/" home_only
    = (Return "shis/html/", home_only).
Proof.
  split; [|reflexivity].
  apply (translate_path_36_loses_trailing_slash (offline []) no_port
           (EmptyString, 7447) (λ s, s) "/html/" home_only).
  reflexivity.
Defined.

(** ** find_thumb *)

Lemma relpath_returns cwd path start st :
  path ≠ EmptyString →
  ∃ rel, posixpath.relpath cwd path start st = (Return rel, st)
    ∧ rel ≠ EmptyString.
Proof.
  intros Hpath. unfold posixpath.relpath.
  destruct path as [|c path]; [done|]. cbn [is_empty].
  set (start_list := posixpath.nonempty_parts (posixpath.abspath cwd start)).
  set (path_list :=
         posixpath.nonempty_parts (posixpath.abspath cwd (String c path))).
  set (i := length (posixpath.commonprefix start_list path_list)).
  destruct (repeat posixpath.pardir (length start_list - i) ++ drop i path_list)%list
    as [|a p] eqn:Hrel.
  - by exists posixpath.curdir.
  - exists (posixpath.join a p). split; [done|].
    assert (Ha : a ≠ EmptyString).
    { assert (Hin : a ∈ (repeat posixpath.pardir (length start_list - i)
                         ++ drop i path_list)%list)
        by (rewrite Hrel; apply list_elem_of_here).
      apply elem_of_app in Hin as [Hin|Hin].
      - apply list_elem_of_In, repeat_spec in Hin. by subst.
      - apply list_elem_of_lookup in Hin as [k Hk].
        rewrite lookup_drop in Hk.
        apply list_elem_of_lookup_2 in Hk. unfold path_list in Hk.
        unfold posixpath.nonempty_parts in Hk.
        apply list_elem_of_filter in Hk as [Hne _]. by destruct a. }
    clear Hrel. unfold posixpath.join. revert a Ha.
    induction p as [|b p IH]; intros a Ha; simpl; [done|].
    apply IH. by apply join2_not_empty.
Qed.

Lemma relpath_empty cwd start st :
  posixpath.relpath cwd EmptyString start st
  = (Raise {| cls := ValueError; str := "no path specified"; code := None |},
     st).
Proof. reflexivity. Qed.

Lemma join2_not_empty_r d rel :
  rel ≠ EmptyString → posixpath.join2 d rel ≠ EmptyString.
Proof.
  intros Hrel. unfold posixpath.join2.
  destruct (startswith_sep rel); [done|].
  destruct (is_empty d || endswith_sep d);
    destruct d; simpl; by destruct rel.
Qed.

Lemma find_thumb_files_spec w album_path image_root thumb_dir root files st :
  let images := filter (λ p, filter_image p = true)
                  (map (λ name, posixpath.join root [name]) files) in
  match images with
  | [] => find_thumb_files w album_path image_root thumb_dir root files st
          = (Return None, st)
  | file_path :: _ =>
      ∃ rel_path image,
        posixpath.relpath (getcwd w) file_path album_path st
          = (Return rel_path, st)
        ∧ posixpath.relpath (getcwd w)
            (posixpath.join image_root [rel_path]) thumb_dir st
          = (Return image, st)
        ∧ image ≠ EmptyString
        ∧ find_thumb_files w album_path image_root thumb_dir root files st
          = (Return (Some image), st)
  end.
Proof.
  induction files as [|name files IH]; [done|].
  cbn [map find_thumb_files]. rewrite filter_cons.
  destruct (filter_image (posixpath.join root [name])) eqn:Himg.
  - rewrite decide_True by done.
    assert (Hfile : posixpath.join root [name] ≠ EmptyString).
    { intros Heq. by rewrite Heq in Himg. }
    destruct (relpath_returns (getcwd w) _ album_path st Hfile)
      as (rel_path & Hrel & Hne).
    destruct (relpath_returns (getcwd w) (posixpath.join image_root [rel_path])
                thumb_dir st (join2_not_empty_r _ _ Hne))
      as (image & Himage & Hne').
    exists rel_path, image. do 3 (split; [done|]).
    rewrite (bind_return _ _ _ _ _ Hrel). cbv zeta.
    by rewrite (bind_return _ _ _ _ _ Himage).
  - rewrite decide_False by done. exact IH.
Qed.

(** The walk as a whole: the first image of the walk decides. *)
Lemma find_thumb_walk_spec w album_path image_root thumb_dir walk st :
  match images_of walk with
  | [] => find_thumb_walk w album_path image_root thumb_dir walk st
          = (Return EmptyString, st)
  | file_path :: _ =>
      ∃ rel_path image,
        posixpath.relpath (getcwd w) file_path album_path st
          = (Return rel_path, st)
        ∧ posixpath.relpath (getcwd w)
            (posixpath.join image_root [rel_path]) thumb_dir st
          = (Return image, st)
        ∧ image ≠ EmptyString
        ∧ find_thumb_walk w album_path image_root thumb_dir walk st
          = (Return image, st)
  end.
Proof.
  induction walk as [|[[root dirs] files] walk IH]; [done|].
  cbn [images_of flat_map find_thumb_walk]. fold (images_of walk).
  pose proof (find_thumb_files_spec w album_path image_root thumb_dir root
                files st) as Hfiles. cbv zeta in Hfiles.
  destruct (filter _ (map _ files)) as [|file_path images].
  - rewrite (bind_return _ _ _ _ _ Hfiles). exact IH.
  - destruct Hfiles as (rel_path & image & Hrel & Himage & Hne & Hfound).
    exists rel_path, image. do 3 (split; [done|]).
    by rewrite (bind_return _ _ _ _ _ Hfound).
Qed.

(** X28: [find_thumb] raises nothing and changes nothing, and the string
    it returns is empty exactly when no file of the walk is taken for an
    image by [filter_image] (applied to the path, not to the name). *)
Theorem find_thumb_empty_iff_no_image w os_walk album_path image_root
    thumb_dir st :
  ∃ image,
    find_thumb w os_walk album_path image_root thumb_dir st = (Return image, st)
    ∧ (image = EmptyString ↔ images_of (os_walk album_path) = []).
Proof.
  unfold find_thumb.
  pose proof (find_thumb_walk_spec w album_path image_root thumb_dir
                (os_walk album_path) st) as Hwalk.
  destruct (images_of (os_walk album_path)) as [|file_path images].
  - by exists EmptyString.
  - destruct Hwalk as (rel_path & image & _ & _ & Hne & Hfound).
    exists image. split; [done|]. by split.
Qed.

(** ** relpath, there and back *)

Lemma place_anchored cwd path :
  posixpath.isabs cwd = true →
  posixpath.isabs (anchored cwd path) = true
  ∧ place cwd path = posixpath.norm_comps (anchored cwd path).
Proof.
  intros Hcwd. unfold place, anchored.
  destruct (posixpath.isabs path) eqn:Habs.
  - split; [done|]. by apply nonempty_parts_abspath.
  - assert (Hj : posixpath.isabs (posixpath.join cwd [path]) = true).
    { unfold posixpath.join. simpl. by rewrite (isabs_join2 _ _ Habs). }
    split; [done|].
    rewrite <- (nonempty_parts_abspath cwd _ Hj).
    unfold posixpath.abspath. by rewrite Habs, Hj.
Qed.

Lemma component_spec word :
  component word = true ↔ word ≠ EmptyString ∧ has_sep word = false.
Proof.
  unfold component. rewrite andb_true_iff, !negb_true_iff. split.
  - intros [H1 H2]. split; [by intros ->|done].
  - intros [H1 H2]. split; [by destruct word|done].
Qed.

Lemma component_not_startswith word :
  component word = true → startswith_sep word = false.
Proof.
  intros [_ Hsep]%component_spec. destruct word; simpl in *; [done|].
  by apply orb_false_iff in Hsep as [-> _].
Qed.

Lemma plain_component word : plain word = true → component word = true.
Proof.
  intros (Hne & Hsep & _)%plain_spec. by apply component_spec.
Qed.

Lemma join2_fold (words : list string) : ∀ base a,
  a ≠ EmptyString →
  Forall (λ word, component word = true) words →
  posixpath.join2 base (fold_left posixpath.join2 words a)
  = fold_left posixpath.join2 words (posixpath.join2 base a).
Proof.
  induction words as [|b words IH]; intros base a Ha Hall; simpl; [done|].
  inversion Hall as [|? ? Hb Hwords]; subst.
  rewrite IH; [|by apply join2_not_empty|done].
  by rewrite (join2_assoc base a b Ha (component_not_startswith _ Hb)).
Qed.

Lemma norm_comps_fold_join2 (words : list string) : ∀ base,
  posixpath.isabs base = true →
  Forall (λ word, component word = true) words →
  posixpath.norm_comps (fold_left posixpath.join2 words base)
  = fold_left (posixpath.norm_step true) words (posixpath.norm_comps base).
Proof.
  induction words as [|b words IH]; intros base Hbase Hall; simpl; [done|].
  inversion Hall as [|? ? Hb Hwords]; subst.
  pose proof (component_not_startswith _ Hb) as Hstart.
  apply component_spec in Hb as [_ Hsep].
  rewrite IH; [|by rewrite (isabs_join2 _ _ Hstart)|done].
  by rewrite (norm_comps_join2 _ _ Hstart), Hbase, (split_no_sep _ Hsep).
Qed.

(** Joining a relative path, given by its components, to [start]. *)
Lemma place_join cwd start a (p : list string) :
  posixpath.isabs cwd = true →
  Forall (λ word, component word = true) (a :: p) →
  place cwd (posixpath.join start [posixpath.join a p])
  = fold_left (posixpath.norm_step true) (a :: p) (place cwd start).
Proof.
  intros Hcwd Hall. inversion Hall as [|? ? Ha Hp]; subst.
  pose proof (component_not_startswith _ Ha) as Hstart.
  apply component_spec in Ha as Ha'. destruct Ha' as [Hne _].
  destruct (place_anchored cwd start Hcwd) as [_ ->].
  destruct (place_anchored cwd (posixpath.join start [posixpath.join a p]) Hcwd)
    as [_ ->].
  unfold anchored, posixpath.join. cbn [fold_left].
  rewrite (join2_fold p start a Hne Hp).
  change (fold_left posixpath.join2 p (posixpath.join2 start a))
    with (fold_left posixpath.join2 (a :: p) start).
  destruct (posixpath.isabs start) eqn:Habs.
  - assert (Hj : posixpath.isabs (fold_left posixpath.join2 (a :: p) start)
                 = true).
    { clear -Habs Hall. revert start Habs.
      induction Hall as [|b words Hb Hwords IH]; intros start Habs; [done|].
      simpl. apply IH.
      by rewrite (isabs_join2 _ _ (component_not_startswith _ Hb)). }
    rewrite Hj. by apply norm_comps_fold_join2.
  - assert (Hj : posixpath.isabs (fold_left posixpath.join2 (a :: p) start)
                 = false).
    { clear -Habs Hall. revert start Habs.
      induction Hall as [|b words Hb Hwords IH]; intros start Habs; [done|].
      simpl. apply IH.
      by rewrite (isabs_join2 _ _ (component_not_startswith _ Hb)). }
    rewrite Hj. destruct start as [|c start].
    + cbn [fold_left]. replace (posixpath.join2 EmptyString a) with a
        by (unfold posixpath.join2; by rewrite Hstart).
      rewrite (join2_fold p cwd a Hne Hp).
      change (fold_left posixpath.join2 p (posixpath.join2 cwd a))
        with (fold_left posixpath.join2 (a :: p) cwd).
      rewrite (norm_comps_fold_join2 _ _ Hcwd Hall).
      by rewrite (norm_comps_join2 cwd EmptyString eq_refl), Hcwd.
    + rewrite (join2_fold (a :: p) cwd (String c start)) by done.
      apply norm_comps_fold_join2; [|done].
      by rewrite (isabs_join2 _ _ Habs).
Qed.

Lemma commonprefix_take (l1 : list string) : ∀ l2,
  let i := length (posixpath.commonprefix l1 l2) in
  take i l1 = take i l2 ∧ (i ≤ length l1)%nat ∧ (i ≤ length l2)%nat.
Proof.
  induction l1 as [|a l1 IH]; intros l2; simpl.
  - split; [done|lia].
  - destruct l2 as [|b l2]; simpl; [split; [done|lia]|].
    destruct (String.eqb_spec a b) as [->|Hab]; simpl; [|split; [done|lia]].
    destruct (IH l2) as (Htake & H1 & H2). rewrite Htake. split; [done|lia].
Qed.

Lemma fold_norm_pardir (k : nat) : ∀ acc,
  Forall (λ word, plain word = true) acc →
  fold_left (posixpath.norm_step true) (repeat posixpath.pardir k) acc
  = take (length acc - k) acc.
Proof.
  induction k as [|k IH]; intros acc Hacc; simpl.
  - by rewrite Nat.sub_0_r, firstn_all.
  - assert (Hstep : posixpath.norm_step true acc posixpath.pardir
                    = removelast acc).
    { unfold posixpath.norm_step. simpl.
      destruct (last acc) as [c|] eqn:Hlast; [|done].
      assert (Hc : plain c = true).
      { rewrite Forall_forall in Hacc. apply Hacc.
        apply last_Some in Hlast as [l' ->]. set_solver. }
      apply plain_spec in Hc as (_ & _ & _ & Hc).
      apply String.eqb_neq in Hc. unfold posixpath.pardir. by rewrite Hc. }
    rewrite Hstep, IH by (by apply Forall_plain_removelast).
    rewrite removelast_firstn_len, take_take.
    rewrite length_take. f_equal. lia.
Qed.

(** The components [relpath] puts together lead from [start] to
    [path]. *)
Lemma fold_norm_rel_list (A B : list string) :
  Forall (λ word, plain word = true) A →
  Forall (λ word, plain word = true) B →
  let i := length (posixpath.commonprefix A B) in
  let rel_list := (repeat posixpath.pardir (length A - i) ++ drop i B)%list in
  Forall (λ word, component word = true) rel_list
  ∧ fold_left (posixpath.norm_step true) rel_list A = B
  ∧ (rel_list = [] → A = B).
Proof.
  intros HA HB. cbv zeta.
  destruct (commonprefix_take A B) as (Htake & H1 & H2).
  set (i := length (posixpath.commonprefix A B)) in *.
  split; [|split].
  - apply Forall_app. split.
    + apply Forall_forall. intros word Hin.
      apply list_elem_of_In, repeat_spec in Hin. by subst.
    + eapply Forall_impl; [by apply Forall_drop|]. apply plain_component.
  - rewrite fold_left_app, (fold_norm_pardir _ _ HA).
    rewrite fold_norm_plain by (by apply Forall_drop).
    replace (length A - (length A - i))%nat with i by lia.
    by rewrite Htake, take_drop.
  - intros Hnil. apply app_eq_nil in Hnil as [Hrep Hdrop].
    assert (HiA : i = length A).
    { destruct (length A - i)%nat eqn:Hd; [lia|done]. }
    assert (HiB : i = length B).
    { apply (f_equal length) in Hdrop. rewrite length_drop in Hdrop.
      simpl in Hdrop. lia. }
    rewrite <- (firstn_all A), <- (firstn_all B), <- HiA at 1.
    by rewrite <- HiB.
Qed.

(** [relpath], there and back: when the working directory is absolute
    and the path is not empty, [relpath(path, start)] returns, and its
    result joined to [start] names the place [path] names. *)
Lemma relpath_leads_back cwd path start st :
  posixpath.isabs cwd = true → path ≠ EmptyString →
  ∃ rel, posixpath.relpath cwd path start st = (Return rel, st)
    ∧ place cwd (posixpath.join start [rel]) = place cwd path.
Proof.
  intros Hcwd Hpath. unfold posixpath.relpath.
  destruct path as [|c path]; [done|]. cbn [is_empty].
  fold (place cwd start). fold (place cwd (String c path)).
  assert (HA : Forall (λ word, plain word = true) (place cwd start)).
  { destruct (place_anchored cwd start Hcwd) as [Habs ->].
    by apply norm_comps_abs_plain. }
  assert (HB : Forall (λ word, plain word = true) (place cwd (String c path))).
  { destruct (place_anchored cwd (String c path) Hcwd) as [Habs ->].
    by apply norm_comps_abs_plain. }
  destruct (fold_norm_rel_list _ _ HA HB) as (Hcomp & Hfold & Hnil).
  cbv zeta in Hcomp, Hfold, Hnil.
  destruct (repeat _ _ ++ drop _ _)%list as [|a p].
  - exists posixpath.curdir. split; [done|].
    rewrite <- (Hnil eq_refl).
    assert (Hdot : Forall (λ word, component word = true) [posixpath.curdir])
      by (by repeat constructor).
    pose proof (place_join cwd start posixpath.curdir [] Hcwd Hdot) as Hj.
    change (posixpath.join posixpath.curdir []) with posixpath.curdir in Hj.
    by rewrite Hj.
  - exists (posixpath.join a p). split; [done|].
    by rewrite (place_join cwd start a p Hcwd Hcomp).
Qed.


